(** * GooSniffer: the moon-scan parser, the clipboard watcher and the
    clipboard handler, embedded from the Go sources.

    - [internal/moonparse]            : [ParseMoons] and its two patterns;
    - [internal/clipboardwatcher]     : [readClipboardText], [wndProc], [Watch];
    - [cmd/goosniffer/main.go] (two revisions of the handler closure).

    A Go [string] is an immutable sequence of bytes; it is modelled by
    [string] (a sequence of 8-bit [ascii] characters), and by [list ascii]
    inside the text routines. Go maps are [gmap]s. *)

From Stdlib Require Import Ascii String List ZArith Lia.
From stdpp Require Import gmap strings list fin_maps.

(** ** Bytes and strings *)

Abbreviation bytes := (list ascii).

Definition bytesOf (s : string) : bytes := list_ascii_of_string s.
Definition stringOf (l : bytes) : string := string_of_list_ascii l.

Definition byteEq (a b : ascii) : bool := Ascii.eqb a b.

(** The bytes written "\n" and "\r" in the source. *)
Definition LF : ascii := "010"%char.
Definition CR : ascii := "013"%char.

(** A panic of the Go runtime (index out of range, assignment to an entry
    of a nil map) or a normal return. *)
Inductive outcome (A : Type) : Type :=
| Ok (a : A)
| Panic (msg : string).
Arguments Ok {A} a.
Arguments Panic {A} msg.

#[global] Instance outcome_ret : MRet outcome := fun A a => Ok a.
#[global] Instance outcome_bind : MBind outcome := fun A B f x =>
  match x with
  | Ok a => f a
  | Panic msg => Panic msg
  end.

(** [s[i]] on a slice of strings: out of range panics. *)
Definition index (m : list string) (i : nat) : outcome string :=
  match m !! i with
  | Some s => Ok s
  | None => Panic "index out of range"
  end.

Module Strings.

(** [strings.Split(s, sep)] for the one-byte separator the source uses:
    the pieces between successive separators; one piece (possibly empty)
    when the separator does not occur. *)
Fixpoint splitBytes (sep : ascii) (s : bytes) : list bytes :=
  match s with
  | [] => [[]]
  | c :: rest =>
      if byteEq c sep then [] :: splitBytes sep rest
      else match splitBytes sep rest with
           | [] => [[c]]
           | piece :: pieces => (c :: piece) :: pieces
           end
  end.

Definition Split (s : string) (sep : ascii) : list string :=
  map stringOf (splitBytes sep (bytesOf s)).

(** [strings.Join(elems, sep)] with a one-byte separator. *)
Fixpoint joinBytes (sep : ascii) (elems : list bytes) : bytes :=
  match elems with
  | [] => []
  | [e] => e
  | e :: rest => e ++ sep :: joinBytes sep rest
  end.

Definition Join (elems : list string) (sep : ascii) : string :=
  stringOf (joinBytes sep (map bytesOf elems)).

(** [strings.TrimRight(s, cutset)] for a one-byte cutset: drop the
    trailing run of that byte. *)
Fixpoint dropWhileB (p : ascii -> bool) (s : bytes) : bytes :=
  match s with
  | [] => []
  | c :: rest => if p c then dropWhileB p rest else s
  end.

Definition TrimRight (s : string) (cut : ascii) : string :=
  stringOf (rev (dropWhileB (fun c => byteEq c cut) (rev (bytesOf s)))).

(** White space as [unicode.IsSpace] defines it: the runes U+0009 to
    U+000D, U+0020, U+0085, U+00A0, U+1680, U+2000 to U+200A, U+2028,
    U+2029, U+202F, U+205F and U+3000. First the ASCII ones. *)
Definition asciiSpace (c : ascii) : bool :=
  match c with
  | "009" | "010" | "011" | "012" | "013" | " " => true
  | _ => false
  end%char.

(** The others by their UTF-8 encoding (the decoder accepts only the
    shortest one): the number of bytes of the white-space rune that the
    bytes [c0 c1 c2] start with, or 0. *)
Definition spaceCode (c0 c1 c2 : N) : nat :=
  N.to_nat match c0, c1, c2 with
  | 194, 133, _ => 2                               (* C2 85: U+0085 *)
  | 194, 160, _ => 2                               (* C2 A0: U+00A0 *)
  | 225, 154, 128 => 3                             (* E1 9A 80: U+1680 *)
  | 226, 128, d =>                                 (* E2 80 xx *)
      if (128 <=? d) && (d <=? 138) then 3         (* U+2000 .. U+200A *)
      else if (d =? 168) || (d =? 169) || (d =? 175) then 3
      else 0                                       (* U+2028, U+2029, U+202F *)
  | 226, 129, 159 => 3                             (* E2 81 9F: U+205F *)
  | 227, 128, 128 => 3                             (* E3 80 80: U+3000 *)
  | _, _, _ => 0
  end%N.

(** [unicode.IsSpace] on the rune that [utf8.DecodeRuneInString] reads at
    the head of [s]: the number of bytes of that rune when it is white
    space, and 0 when it is not. *)
Definition spaceRuneLen (s : bytes) : nat :=
  match map N_of_ascii s with
  | [] => 0
  | c0 :: rest =>
      if (c0 <? 128)%N then (if asciiSpace (ascii_of_N c0) then 1 else 0) else
      match rest with
      | [] => 0
      | [c1] => spaceCode c0 c1 0
      | c1 :: c2 :: _ => spaceCode c0 c1 c2
      end
  end.

(** The same for [utf8.DecodeLastRuneInString], on the reversed string:
    the decoder walks back over continuation bytes to a start byte and
    accepts the rune only if its encoding ends at the end of the string,
    so a white-space rune is last exactly when its encoding is a suffix. *)
Definition spaceRuneLenLast (r : bytes) : nat :=
  match map N_of_ascii r with
  | [] => 0
  | c0 :: rest =>
      if (c0 <? 128)%N then (if asciiSpace (ascii_of_N c0) then 1 else 0) else
      match rest with
      | [] => 0
      | [c1] => if Nat.eqb (spaceCode c1 c0 0) 2 then 2 else 0
      | c1 :: c2 :: _ =>
          if Nat.eqb (spaceCode c1 c0 0) 2 then 2
          else if Nat.eqb (spaceCode c2 c1 c0) 3 then 3 else 0
      end
  end.

(** Drop white-space runes from the head, at most [fuel] of them. *)
Fixpoint trimWith (width : bytes -> nat) (fuel : nat) (s : bytes) : bytes :=
  match fuel with
  | O => s
  | S fuel' =>
      match width s with
      | O => s
      | n => trimWith width fuel' (skipn n s)
      end
  end.

(** [strings.TrimSpace(s)]: all leading and trailing white space (as
    defined by Unicode) removed, the leading run first. *)
Definition trimSpaceBytes (s : bytes) : bytes :=
  let l := trimWith spaceRuneLen (length s) s in
  rev (trimWith spaceRuneLenLast (length l) (rev l)).

Definition TrimSpace (s : string) : string :=
  stringOf (trimSpaceBytes (bytesOf s)).

(** [strings.HasPrefix] and [strings.Contains] on bytes. *)
Fixpoint hasPrefix (s p : bytes) {struct p} : bool :=
  match p, s with
  | [], _ => true
  | b :: p', c :: s' => byteEq c b && hasPrefix s' p'
  | _ :: _, [] => false
  end.

Fixpoint containsBytes (s sub : bytes) : bool :=
  hasPrefix s sub ||
  match s with
  | [] => false
  | _ :: s' => containsBytes s' sub
  end.

Definition Contains (s substr : string) : bool :=
  containsBytes (bytesOf s) (bytesOf substr).

End Strings.

(** ** Regular expressions ([regexp] of the Go library)

    The fragment of the syntax that the two patterns of [moonparse] use.
    Repetition is only applied to one-character classes. Matching is on
    bytes: every class and literal of the patterns other than [.] is
    ASCII, an ASCII byte is never inside a multi-byte rune, and [.] is
    followed by an ASCII item in both patterns, so matching rune by rune
    and byte by byte find the same submatches. *)
Module Regexp.

Inductive class : Type :=
| AnyCharNotNL            (* .            *)
| Space                   (* \s = [\t\n\f\r ] *)
| Digit                   (* \d and [0-9] *)
| Byte (c : ascii).       (* a literal character *)

Definition isDigit (a : ascii) : bool :=
  match a with
  | "0" | "1" | "2" | "3" | "4" | "5" | "6" | "7" | "8" | "9" => true
  | _ => false
  end%char.

Definition isSpace (a : ascii) : bool :=
  match a with
  | "009" | "010" | "012" | "013" | " " => true
  | _ => false
  end%char.

Definition inClass (c : class) (a : ascii) : bool :=
  match c with
  | AnyCharNotNL => negb (byteEq a LF)
  | Space => isSpace a
  | Digit => isDigit a
  | Byte b => byteEq a b
  end.

Inductive regexp : Type :=
| Lit (s : string)                      (* a literal string             *)
| One (c : class)                       (* one character of a class     *)
| Star (greedy : bool) (c : class)      (* x* and x*?                   *)
| Plus (greedy : bool) (c : class)      (* x+ and x+?                   *)
| Quest (r : regexp)                    (* (?:r)?                       *)
| Cat (r1 r2 : regexp)                  (* r1r2                         *)
| Capture (i : nat) (r : regexp)        (* (r), the i-th group          *)
| BeginText                             (* ^  (no multi-line flag)      *)
| EndText.                              (* $                            *)

Infix "⋅" := Cat (at level 45, right associativity).

(** Number of capture groups ([Regexp.NumSubexp]). *)
Fixpoint NumSubexp (r : regexp) : nat :=
  match r with
  | Quest r => NumSubexp r
  | Cat r1 r2 => NumSubexp r1 + NumSubexp r2
  | Capture _ r => S (NumSubexp r)
  | _ => 0
  end.

(** Leftmost-first matching ("the match that a backtracking search would
    have found first"), in continuation-passing style: [k] is tried on
    every way to match [r] at the head of [inp], in order of preference,
    and the first success is returned. [total] is the length of the whole
    text, for [^]. *)
Section Run.
Context {R : Type}.

Fixpoint starGreedy (c : class) (k : bytes -> option R) (inp : bytes)
  : option R :=
  match inp with
  | a :: rest =>
      if inClass c a then
        match starGreedy c k rest with
        | Some r => Some r
        | None => k inp
        end
      else k inp
  | [] => k []
  end.

Fixpoint starLazy (c : class) (k : bytes -> option R) (inp : bytes)
  : option R :=
  match k inp with
  | Some r => Some r
  | None =>
      match inp with
      | a :: rest => if inClass c a then starLazy c k rest else None
      | [] => None
      end
  end.

Definition star (greedy : bool) := if greedy then starGreedy else starLazy.
End Run.

(** The text that a match consumed, between [inp] and the rest [rest]. *)
Definition consumed (inp rest : bytes) : bytes :=
  take (length inp - length rest) inp.

Fixpoint run (r : regexp) (total : nat) (inp : bytes) (caps : list bytes)
    (k : bytes -> list bytes -> option (list bytes)) : option (list bytes) :=
  match r with
  | Lit s =>
      if Strings.hasPrefix inp (bytesOf s)
      then k (drop (length (bytesOf s)) inp) caps else None
  | One c =>
      match inp with
      | a :: rest => if inClass c a then k rest caps else None
      | [] => None
      end
  | Star g c => star g c (fun rest => k rest caps) inp
  | Plus g c =>
      match inp with
      | a :: rest =>
          if inClass c a then star g c (fun rest' => k rest' caps) rest
          else None
      | [] => None
      end
  | Quest r =>
      match run r total inp caps k with
      | Some res => Some res
      | None => k inp caps
      end
  | Cat r1 r2 =>
      run r1 total inp caps (fun rest caps' => run r2 total rest caps' k)
  | Capture i r =>
      run r total inp caps
        (fun rest caps' => k rest (<[i := consumed inp rest]> caps'))
  | BeginText => if decide (length inp = total) then k inp caps else None
  | EndText =>
      match inp with
      | [] => k [] caps
      | _ :: _ => None
      end
  end.

(** One attempt at the position where [inp] starts, then the later
    positions: the leftmost match wins. *)
Definition matchAt (re : regexp) (total : nat) (inp : bytes)
  : option (list bytes) :=
  run re total inp (replicate (S (NumSubexp re)) [])
    (fun rest caps => Some (<[0 := consumed inp rest]> caps)).

Fixpoint search (re : regexp) (total : nat) (inp : bytes)
  : option (list bytes) :=
  match matchAt re total inp with
  | Some caps => Some caps
  | None =>
      match inp with
      | _ :: rest => search re total rest
      | [] => None
      end
  end.

(** [re.FindStringSubmatch(s)]: the text of the leftmost match and of its
    groups, or [nil] (the empty slice) when there is no match. *)
Definition FindStringSubmatch (re : regexp) (s : string) : list string :=
  match search re (length (bytesOf s)) (bytesOf s) with
  | Some caps => map stringOf caps
  | None => []
  end.

End Regexp.

(** ** internal/moonparse *)

Import Regexp.

Record MoonProductData : Type := {
  Quantity : string;
  OreTypeID : string;
  SolarSystemID : string;
  PlanetID : string;
  MoonID : string
}.

Abbreviation MoonProducts := (gmap string (gmap string MoonProductData)).

(** [^\s*(.+ - Moon \d+)\s*$] *)
Definition moonLineRe : regexp :=
  BeginText ⋅ Star true Space ⋅
  Capture 1 (Plus true AnyCharNotNL ⋅ Lit " - Moon " ⋅ Plus true Digit) ⋅
  Star true Space ⋅ EndText.

(** [^\s*(.+?)\s+([0-9]+(?:\.[0-9]+)?)\s+(\d+)\s+(\d+)\s+(\d+)\s+(\d+)\s*$] *)
Definition productLineRe : regexp :=
  BeginText ⋅ Star true Space ⋅
  Capture 1 (Plus false AnyCharNotNL) ⋅ Plus true Space ⋅
  Capture 2 (Plus true Digit ⋅ Quest (Lit "." ⋅ Plus true Digit)) ⋅
  Plus true Space ⋅ Capture 3 (Plus true Digit) ⋅
  Plus true Space ⋅ Capture 4 (Plus true Digit) ⋅
  Plus true Space ⋅ Capture 5 (Plus true Digit) ⋅
  Plus true Space ⋅ Capture 6 (Plus true Digit) ⋅
  Star true Space ⋅ EndText.

(** The variables of the loop of [ParseMoons]. *)
Record loopState : Type := {
  result : MoonProducts;
  currentMoon : string
}.

(** The body of [for _, rawLine := range lines]. *)
Definition loopBody (st : loopState) (rawLine : string) : outcome loopState :=
  let line := Strings.TrimRight rawLine CR in
  let trimmed := Strings.TrimSpace line in
  if decide (trimmed = "") then Ok st
  else if Strings.Contains trimmed "Moon Product" then Ok st
  else
    let m := FindStringSubmatch moonLineRe line in
    if decide (length m = 2) then
      moon ← index m 1;
      Ok {| result := match result st !! moon with
                      | Some _ => result st
                      | None => <[moon := ∅]> (result st)
                      end;
            currentMoon := moon |}
    else if decide (currentMoon st = "") then Ok st
    else
      let m := FindStringSubmatch productLineRe line in
      if decide (length m = 7) then
        product ← index m 1;
        quantity ← index m 2;
        oreTypeID ← index m 3;
        solarSystemID ← index m 4;
        planetID ← index m 5;
        moonID ← index m 6;
        match result st !! currentMoon st with
        | None => Panic "assignment to entry in nil map"
        | Some products =>
            Ok {| result :=
                    <[currentMoon st :=
                        <[product := {| Quantity := quantity;
                                        OreTypeID := oreTypeID;
                                        SolarSystemID := solarSystemID;
                                        PlanetID := planetID;
                                        MoonID := moonID |}]> products]>
                      (result st);
                  currentMoon := currentMoon st |}
        end
      else Ok st.

Fixpoint loop (st : loopState) (lines : list string) : outcome loopState :=
  match lines with
  | [] => Ok st
  | rawLine :: rest => st' ← loopBody st rawLine; loop st' rest
  end.

(** [func ParseMoons(input string) (MoonProducts, error)]; the error is
    [None] for [nil]. *)
Definition ParseMoons (input : string) : outcome (MoonProducts * option string) :=
  st ← loop {| result := ∅; currentMoon := "" |} (Strings.Split input LF);
  Ok (result st, None).

(** *** The maps as objects

    A Go map is a reference to an object: [make] allocates a new one, an
    assignment [m[k] = v] changes the object in place, and the value
    that [ParseMoons] returns is the reference. Here the function is
    written once more on a heap of map objects; [ParseMoons] above is the
    same function on the tables that the references stand for. The two
    patterns are assigned once, when the package is initialized, and no
    function assigns them again. *)
Module Heap.

Abbreviation addr := positive.

(** The two kinds of map objects: a [MoonProducts], whose values are
    references to maps of the second kind, and a
    [map[string]MoonProductData]. *)
Inductive object : Type :=
| Groups (m : gmap string addr)
| Items (m : gmap string MoonProductData).

Abbreviation heap := (gmap addr object).

(** [make(...)]: a new map object; its address is the choice of the
    allocator. *)
Definition make (allocate : heap → addr) (o : object) (h : heap) : addr * heap :=
  (allocate h, <[allocate h := o]> h).

(** The map object behind a reference. A variable of a map type always
    refers to an object of that type (or is nil, which the variables of
    [ParseMoons] never are); the other case is a fault. *)
Definition groupsAt (h : heap) (a : addr) : outcome (gmap string addr) :=
  match h !! a with
  | Some (Groups m) => Ok m
  | _ => Panic "invalid memory address"
  end.

Definition itemsAt (h : heap) (a : addr) : outcome (gmap string MoonProductData) :=
  match h !! a with
  | Some (Items m) => Ok m
  | _ => Panic "invalid memory address"
  end.

(** The body of [for _, rawLine := range lines], on the object that
    the variable [result] refers to. *)
Definition loopBody (allocate : heap → addr) (result : addr) (h : heap)
    (currentMoon : string) (rawLine : string) : outcome (heap * string) :=
  let line := Strings.TrimRight rawLine CR in
  let trimmed := Strings.TrimSpace line in
  if decide (trimmed = "") then Ok (h, currentMoon)
  else if Strings.Contains trimmed "Moon Product" then Ok (h, currentMoon)
  else
    let m := FindStringSubmatch moonLineRe line in
    if decide (length m = 2) then
      moon ← index m 1;
      groups ← groupsAt h result;
      match groups !! moon with
      | Some _ => Ok (h, moon)
      | None =>
          let '(items, h') := make allocate (Items ∅) h in
          Ok (<[result := Groups (<[moon := items]> groups)]> h', moon)
      end
    else if decide (currentMoon = "") then Ok (h, currentMoon)
    else
      let m := FindStringSubmatch productLineRe line in
      if decide (length m = 7) then
        product ← index m 1;
        quantity ← index m 2;
        oreTypeID ← index m 3;
        solarSystemID ← index m 4;
        planetID ← index m 5;
        moonID ← index m 6;
        groups ← groupsAt h result;
        match groups !! currentMoon with
        | None => Panic "assignment to entry in nil map"
        | Some items =>
            products ← itemsAt h items;
            Ok (<[items := Items (<[product := {| Quantity := quantity;
                                                   OreTypeID := oreTypeID;
                                                   SolarSystemID := solarSystemID;
                                                   PlanetID := planetID;
                                                   MoonID := moonID |}]> products)]> h,
                currentMoon)
        end
      else Ok (h, currentMoon).

Fixpoint loop (allocate : heap → addr) (result : addr) (h : heap)
    (currentMoon : string) (lines : list string) : outcome (heap * string) :=
  match lines with
  | [] => Ok (h, currentMoon)
  | rawLine :: rest =>
      next ← loopBody allocate result h currentMoon rawLine;
      loop allocate result next.1 next.2 rest
  end.

(** [func ParseMoons(input string) (MoonProducts, error)]: the returned
    reference, the error and the heap after the call. *)
Definition ParseMoons (allocate : heap → addr) (h : heap) (input : string)
  : outcome (addr * option string * heap) :=
  let '(result, h0) := make allocate (Groups ∅) h in
  final ← loop allocate result h0 "" (Strings.Split input LF);
  Ok (result, None, final.1).

(** The table that a reference to a [MoonProducts] stands for. *)
Definition tableAt (h : heap) (result : addr) : MoonProducts :=
  match h !! result with
  | Some (Groups groups) =>
      omap (fun a => match h !! a with Some (Items m) => Some m | _ => None end)
           groups
  | _ => ∅
  end.

(** Two invocations of [ParseMoons], one after the other: the second
    runs on the heap that the first leaves. *)
Definition parseTwice (allocate : heap → addr) (h : heap) (input : string)
  : outcome (addr * addr * heap) :=
  first ← ParseMoons allocate h input;
  second ← ParseMoons allocate first.2 input;
  Ok (first.1.1, second.1.1, second.2).

(** What is required of the allocator: the address of a new object is
    not in use. *)
Definition freshAllocator (allocate : heap → addr) : Prop :=
  ∀ h, allocate h ∉ dom h.

End Heap.

(** *** What one line does

    Each line is a group header, a data row or noise; the loop body is
    the following action of that kind on the state. *)
Inductive lineKind : Type :=
| Noise
| Header (moon : string)
| Row (product : string) (data : MoonProductData).

Definition classify (rawLine : string) : lineKind :=
  let line := Strings.TrimRight rawLine CR in
  let trimmed := Strings.TrimSpace line in
  if decide (trimmed = "") then Noise
  else if Strings.Contains trimmed "Moon Product" then Noise
  else
    match FindStringSubmatch moonLineRe line with
    | [_; moon] => Header moon
    | _ =>
        match FindStringSubmatch productLineRe line with
        | [_; product; quantity; oreTypeID; solarSystemID; planetID; moonID] =>
            Row product {| Quantity := quantity;
                           OreTypeID := oreTypeID;
                           SolarSystemID := solarSystemID;
                           PlanetID := planetID;
                           MoonID := moonID |}
        | _ => Noise
        end
    end.

Definition ensureGroup (moon : string) (t : MoonProducts) : MoonProducts :=
  match t !! moon with
  | Some _ => t
  | None => <[moon := ∅]> t
  end.

Definition act (k : lineKind) (st : loopState) : loopState :=
  match k with
  | Noise => st
  | Header moon => {| result := ensureGroup moon (result st); currentMoon := moon |}
  | Row product data =>
      if decide (currentMoon st = "") then st
      else {| result := <[currentMoon st :=
                            <[product := data]> (default ∅ (result st !! currentMoon st))]>
                          (result st);
              currentMoon := currentMoon st |}
  end.

(** The invariant that keeps the assignment [result[currentMoon][product]]
    away from a nil map: the active group has an entry. *)
Definition activeGroupPresent (st : loopState) : Prop :=
  currentMoon st ≠ "" → is_Some (result st !! currentMoon st).

Definition initial : loopState := {| result := ∅; currentMoon := "" |}.

(** The entry of the table under a group and an item. *)
Definition entry (t : MoonProducts) (moon product : string)
  : option MoonProductData :=
  t !! moon ≫= (.!! product).

(** Two lines of text, and the example of the documentation. *)
Definition lines2 (a b : string) : string := a +:+ String LF b.

Definition readmeInput : string :=
  lines2 "66-PMM V - Moon 15"
    "Flawless Arkonor    0.323762148619    46678    30004923    40311969    40311985".

(** The line is recognized as a group header. *)
Definition isHeader (rawLine : string) : bool :=
  match classify rawLine with
  | Header _ => true
  | _ => false
  end.

(** The lines from the first group header on. *)
Fixpoint fromFirstHeader (lines : list string) : list string :=
  match lines with
  | [] => []
  | l :: rest => if isHeader l then lines else fromFirstHeader rest
  end.

(** The assignments [result[moon][product] = data] that the loop makes on
    the given lines, in input order, when it starts with [cur] as the
    active group. *)
Fixpoint assignments (cur : string) (lines : list string)
  : list (string * string * MoonProductData) :=
  match lines with
  | [] => []
  | l :: rest =>
      match classify l with
      | Noise => assignments cur rest
      | Header moon => assignments moon rest
      | Row product data =>
          if decide (cur = "") then assignments cur rest
          else (cur, product, data) :: assignments cur rest
      end
  end.

(** The record of the last assignment to (moon, product) in a log. *)
Definition lastAssigned (moon product : string)
    (log : list (string * string * MoonProductData)) : option MoonProductData :=
  snd <$> last (filter (fun e => e.1 = (moon, product)) log).

(** *** Tokens of a line

    The white-space-separated tokens of a line ([\s] of the patterns:
    tab, line feed, form feed, carriage return, space). *)
Fixpoint fields (s : bytes) : list bytes :=
  match s with
  | [] => []
  | c :: rest =>
      if isSpace c then fields rest
      else
        match rest with
        | [] => [[c]]
        | d :: _ =>
            if isSpace d then [c] :: fields rest
            else
              match fields rest with
              | [] => [[c]]
              | t :: ts => (c :: t) :: ts
              end
        end
  end.

(** An integer token [\d+] and a decimal numeral [[0-9]+(?:\.[0-9]+)?]. *)
Definition isInteger (t : bytes) : bool :=
  negb (bool_decide (t = [])) && forallb isDigit t.

Fixpoint breakDot (t : bytes) : bytes * option bytes :=
  match t with
  | [] => ([], None)
  | c :: rest =>
      if byteEq c "."%char then ([], Some rest)
      else let '(a, b) := breakDot rest in (c :: a, b)
  end.

Definition isDecimal (t : bytes) : bool :=
  match breakDot t with
  | (a, None) => isInteger a
  | (a, Some b) => isInteger a && isInteger b
  end.

(** The line begins with a white-space character. *)
Definition leadingSpace (s : bytes) : bool :=
  match s with
  | [] => false
  | x :: _ => isSpace x
  end.

(** The number of white-space characters at the start of the line. *)
Fixpoint leadingSpaces (s : bytes) : nat :=
  match s with
  | c :: rest => if isSpace c then S (leadingSpaces rest) else 0
  | [] => 0
  end.

(** The last five tokens of the line are a decimal numeral and four
    integers. *)
Definition endsInFiveNumbers (tokens : list bytes) : Prop :=
  ∃ front q a b c d,
    tokens = front ++ [q; a; b; c; d] ∧
    isDecimal q = true ∧ isInteger a = true ∧ isInteger b = true ∧
    isInteger c = true ∧ isInteger d = true.

(** *** The language of a pattern

    [denote r total pre rest]: the text [pre], followed by [rest] up to
    the end of a text of length [total], is matched by [r]. *)
Fixpoint denote (r : regexp) (total : nat) (pre rest : bytes) : Prop :=
  match r with
  | Lit s => pre = bytesOf s
  | One c => ∃ a, pre = [a] ∧ inClass c a = true
  | Star _ c => Forall (fun a => inClass c a = true) pre
  | Plus _ c => pre ≠ [] ∧ Forall (fun a => inClass c a = true) pre
  | Quest r => pre = [] ∨ denote r total pre rest
  | Cat r1 r2 =>
      ∃ p1 p2, pre = p1 ++ p2 ∧
        denote r1 total p1 (p2 ++ rest) ∧ denote r2 total p2 rest
  | Capture _ r => denote r total pre rest
  | BeginText => pre = [] ∧ length rest = total
  | EndText => pre = [] ∧ rest = []
  end.

(** The lines that the loop records as data rows, told by their tokens:
    the line does not hold the marker of the column header, its last
    five tokens are numbers, and something stands before them: another
    token, or at least two white-space characters (one for the name, one
    for the separation). *)
Definition recordable (rawLine : string) : Prop :=
  Strings.Contains rawLine "Moon Product" = false ∧
  endsInFiveNumbers (fields (bytesOf rawLine)) ∧
  (6 ≤ length (fields (bytesOf rawLine)) ∨ 2 ≤ leadingSpaces (bytesOf rawLine)).

(** A state of the loop with an active group. *)
Definition activeGroup : loopState :=
  {| result := {[ "A - Moon 1" := ∅ ]}; currentMoon := "A - Moon 1" |}.

(** The reading of "every line that does not have exactly six tokens is
    discarded": on every state that the loop reaches, such a line leaves
    all entries of the table as they are. *)
Definition discardsUnlessSixTokens : Prop :=
  ∀ (before : list string) (rawLine : string) (st st' : loopState),
    loop initial before = Ok st →
    length (fields (bytesOf rawLine)) ≠ 6 →
    loopBody st rawLine = Ok st' →
    ∀ moon product,
      entry (result st') moon product = entry (result st) moon product.

(** ** Effects

    What the process does to the outside is recorded as a list of
    events, in order. *)
Record Request : Type := {
  Method : string;
  URL : string;
  Body : string;
  ReqHeader : gmap string string
}.

Inductive event : Type :=
| Call (proc : string) (ret : option Z)
                                      (* a procedure of user32/kernel32,
                                         with its result when it is used *)
| Sleep (ms : Z)                      (* time.Sleep, in milliseconds    *)
| Invoke (text : string)              (* clipboardHandler(text)         *)
| Log (format : string)               (* log.Println / log.Printf       *)
| Fatalf (format : string)            (* log.Fatalf: log, then exit 1   *)
| Println (s : string)                (* fmt.Println                    *)
| Do (req : Request).                 (* httpClient.Do(req)             *)

Definition io (A : Type) : Type := A * list event.

#[global] Instance io_ret : MRet io := fun A a => (a, []).
#[global] Instance io_bind : MBind io := fun A B f x =>
  let '(b, l) := f x.1 in (b, x.2 ++ l).

Definition emit (e : event) : io unit := (tt, [e]).

(** How a call of the handler ends: it returns, it ends the process
    ([log.Fatalf]) or it panics. *)
Inductive ending : Type := Returned | Exited | Panicked.

Definition Handler : Type := string → io ending.

(** ** internal/clipboardwatcher *)

Definition WM_DESTROY : Z := 0x0002.
Definition WM_QUIT : Z := 0x0012.
Definition WM_CLIPBOARDUPDATE : Z := 0x031D.
Definition CF_UNICODETEXT : Z := 13.

Module utf16.
Definition surr1 : Z := 0xd800.
Definition surr2 : Z := 0xdc00.
Definition surr3 : Z := 0xe000.
Definition surrSelf : Z := 0x10000.
Definition replacementChar : Z := 0xFFFD.

Definition DecodeRune (r1 r2 : Z) : Z :=
  Z.lor (Z.shiftl (r1 - surr1) 10) (r2 - surr2) + surrSelf.

(** [utf16.Decode]: the runes of a sequence of UTF-16 code units. *)
Fixpoint Decode (s : list Z) : list Z :=
  match s with
  | [] => []
  | r :: rest =>
      if (r <? surr1) || (surr3 <=? r) then r :: Decode rest
      else
        match rest with
        | r2 :: rest' =>
            if (surr1 <=? r) && (r <? surr2) && (surr2 <=? r2) && (r2 <? surr3)
            then DecodeRune r r2 :: Decode rest'
            else replacementChar :: Decode rest
        | [] => [replacementChar]
        end
  end%Z.
End utf16.

Module utf8.
Definition byte (z : Z) : ascii := ascii_of_N (Z.to_N z).

(** The UTF-8 encoding of a rune, as [string(rune)] writes it:
    surrogates and values out of range become U+FFFD. *)
Definition EncodeRune (r : Z) : bytes :=
  if (r <? 0)%Z || (0x10FFFF <? r)%Z ||
     ((0xD800 <=? r)%Z && (r <=? 0xDFFF)%Z)
  then [byte 0xEF; byte 0xBF; byte 0xBD]
  else if (r <? 0x80)%Z then [byte r]
  else if (r <? 0x800)%Z then
    [byte (Z.lor 0xC0 (Z.shiftr r 6));
     byte (Z.lor 0x80 (Z.land r 0x3F))]
  else if (r <? 0x10000)%Z then
    [byte (Z.lor 0xE0 (Z.shiftr r 12));
     byte (Z.lor 0x80 (Z.land (Z.shiftr r 6) 0x3F));
     byte (Z.lor 0x80 (Z.land r 0x3F))]
  else
    [byte (Z.lor 0xF0 (Z.shiftr r 18));
     byte (Z.lor 0x80 (Z.land (Z.shiftr r 12) 0x3F));
     byte (Z.lor 0x80 (Z.land (Z.shiftr r 6) 0x3F));
     byte (Z.lor 0x80 (Z.land r 0x3F))].
End utf8.

(** [string(runes)] *)
Definition stringOfRunes (runes : list Z) : string :=
  stringOf (flat_map utf8.EncodeRune runes).

(** The pointer is converted to a pointer to an array [[1 << 30]uint16]:
    this is the length of that array, and an index at or beyond it
    panics. *)
Definition arrayLen : N := 1073741824.

(** [for u[n] != 0 { n++ }] from the index [n] on, and the units
    [u[:n]] before the first zero; every [u[n]] is checked against the
    length of the array first. The block of memory is given as a list
    that starts at index [n]; CF_UNICODETEXT data ends with a zero unit,
    which is taken to follow the list when it holds none. *)
Fixpoint untilNUL (u : list Z) (n : N) : outcome (list Z) :=
  if (arrayLen <=? n)%N then Panic "index out of range"
  else
    match u with
    | [] => Ok []
    | x :: rest =>
        if decide (x = 0%Z) then Ok []
        else units ← untilNUL rest (n + 1); Ok (x :: units)
    end.

(** [utf16PtrToString]: [None] is the nil pointer. *)
Definition utf16PtrToString (ptr : option (list Z)) : outcome string :=
  match ptr with
  | None => Ok ""
  | Some u => units ← untilNUL u 0; Ok (stringOfRunes (utf16.Decode units))
  end.

(** What the system answers during one extraction sequence: the result
    of [IsClipboardFormatAvailable], of the successive calls of
    [OpenClipboard], of [GetClipboardData] and of [GlobalLock], and the
    memory at the locked pointer. *)
Record clipboard : Type := {
  formatAvailable : Z;
  openClipboard : nat → Z;
  clipboardData : Z;
  globalLock : Z;
  memory : list Z
}.

Definition maxAttempts : nat := 5.

(** The retry loop [for attempt := 0; attempt < maxAttempts; attempt++],
    with [remaining = maxAttempts - attempt]; it yields [opened] and
    [lastErr]. *)
Fixpoint openLoop (cb : clipboard) (remaining attempt : nat)
    (lastErr : option string) : io (bool * option string) :=
  match remaining with
  | O => mret (false, lastErr)
  | S remaining' =>
      let r1 := openClipboard cb attempt in
      emit (Call "OpenClipboard" (Some r1));;
      if decide (r1 ≠ 0%Z) then mret (true, lastErr)
      else
        emit (Sleep (10 * Z.shiftl 1 (Z.of_nat attempt)));;
        openLoop cb remaining' (S attempt) (Some "OpenClipboard failed")
  end.

(** [readClipboardText]: the text and a nil error, or an error, or the
    panic of [utf16PtrToString]. The deferred calls run when the function
    returns or panics, last one first. *)
Definition readClipboardText (cb : clipboard)
  : io (outcome (string * option string)) :=
  let ret := formatAvailable cb in
  emit (Call "IsClipboardFormatAvailable" (Some ret));;
  if decide (ret = 0%Z) then mret (Ok ("", Some "no CF_UNICODETEXT available"))
  else
    '(opened, lastErr) ← openLoop cb maxAttempts 0 None;
    if negb opened
    then mret (Ok ("", Some "OpenClipboard failed after 5 attempts"))
    else
      let handle := clipboardData cb in
      emit (Call "GetClipboardData" (Some handle));;
      if decide (handle = 0%Z) then
        emit (Call "CloseClipboard" None);;
        mret (Ok ("", Some "GetClipboardData returned null"))
      else
        let ptr := globalLock cb in
        emit (Call "GlobalLock" (Some ptr));;
        if decide (ptr = 0%Z) then
          emit (Call "CloseClipboard" None);;
          mret (Ok ("", Some "GlobalLock failed"))
        else
          let decoded := utf16PtrToString (Some (memory cb)) in
          emit (Call "GlobalUnlock" None);;
          emit (Call "CloseClipboard" None);;
          mret (text ← decoded; Ok (text, None)).

(** A message that [GetMessageW] retrieves and [DispatchMessageW] hands
    to the window procedure, with the answers of the system while it is
    handled. *)
Record message : Type := {
  Message : Z;
  answers : clipboard;
  defWindowProc : Z
}.

(** [wndProc]: the result of the window procedure and whether the
    process goes on; a panic of [readClipboardText] is not recovered.
    [clipboardHandler] is the package variable. *)
Definition wndProc (clipboardHandler : option Handler) (msg : message)
  : io (Z * ending) :=
  if decide (Message msg = WM_CLIPBOARDUPDATE) then
    match clipboardHandler with
    | Some handler =>
        read ← readClipboardText (answers msg);
        match read with
        | Ok (text, None) =>
            emit (Invoke text);;
            e ← handler text;
            mret (0%Z, e)
        | Ok (_, Some _) => mret (0%Z, Returned)
        | Panic _ => mret (0%Z, Panicked)
        end
    | None => mret (0%Z, Returned)
    end
  else if decide (Message msg = WM_DESTROY) then
    emit (Call "PostQuitMessage" None);;
    mret (0%Z, Returned)
  else
    let ret := defWindowProc msg in
    emit (Call "DefWindowProcW" (Some ret));;
    mret (ret, Returned).

(** What [GetMessageW] gives: an error (-1), WM_QUIT (0) or a message. *)
Inductive retrieved : Type :=
| GetMessageError
| Quit
| Msg (msg : message).

(** How [Watch] ends on a script of retrieved messages: it returns (an
    error or nil), the process is ended inside the handler, or the script
    is over and the loop waits in [GetMessageW]. *)
Inductive watchEnd : Type :=
| WatchReturns (err : option string)
| ProcessExits
| Waiting.

(** The message loop [for { GetMessageW; TranslateMessage;
    DispatchMessageW }]. *)
Fixpoint messageLoop (clipboardHandler : option Handler)
    (script : list retrieved) : io watchEnd :=
  match script with
  | [] => mret Waiting
  | GetMessageError :: _ =>
      emit (Call "GetMessageW" (Some (-1)%Z));;
      mret (WatchReturns (Some "GetMessageW error"))
  | Quit :: _ =>
      emit (Call "GetMessageW" (Some 0%Z));;
      mret (WatchReturns None)
  | Msg msg :: rest =>
      emit (Call "GetMessageW" (Some 1%Z));;
      emit (Call "TranslateMessage" None);;
      emit (Call "DispatchMessageW" None);;
      '(_, e) ← wndProc clipboardHandler msg;
      match e with
      | Returned => messageLoop clipboardHandler rest
      | Exited | Panicked => mret ProcessExits
      end
  end.

(** The answers of the system to the registration calls of [Watch]. *)
Record registration : Type := {
  classNameError : option string;       (* windows.UTF16PtrFromString *)
  moduleHandleError : option string;    (* windows.GetModuleHandleEx  *)
  registerClassEx : Z;
  createWindowEx : Z;
  addClipboardFormatListener : Z
}.

(** [Watch(handler)] *)
Definition Watch (handler : option Handler) (reg : registration)
    (script : list retrieved) : io watchEnd :=
  match handler with
  | None => mret (WatchReturns (Some "clipboardwatcher: handler must not be nil"))
  | Some _ =>
      let clipboardHandler := handler in
      match classNameError reg with
      | Some err => mret (WatchReturns (Some err))
      | None =>
      match moduleHandleError reg with
      | Some err => mret (WatchReturns (Some "GetModuleHandleEx failed"))
      | None =>
          let r := registerClassEx reg in
          emit (Call "RegisterClassExW" (Some r));;
          if decide (r = 0%Z)
          then mret (WatchReturns (Some "RegisterClassExW failed"))
          else
            let hwnd := createWindowEx reg in
            emit (Call "CreateWindowExW" (Some hwnd));;
            if decide (hwnd = 0%Z)
            then mret (WatchReturns (Some "CreateWindowExW failed"))
            else
              let r := addClipboardFormatListener reg in
              emit (Call "AddClipboardFormatListener" (Some r));;
              if decide (r = 0%Z)
              then mret (WatchReturns (Some "AddClipboardFormatListener failed"))
              else messageLoop clipboardHandler script
      end
      end
  end.

(** The calls of [OpenClipboard] and the delays in a list of events. *)
Definition isOpen (e : event) : bool :=
  match e with
  | Call proc _ => bool_decide (proc = "OpenClipboard")
  | _ => false
  end.

Definition attempts (events : list event) : nat :=
  length (List.filter isOpen events).

Definition delays (events : list event) : list Z :=
  omap (fun e => match e with Sleep ms => Some ms | _ => None end) events.

Definition slept (events : list event) : Z := foldr Z.add 0%Z (delays events).

Definition invoked (events : list event) : list string :=
  omap (fun e => match e with Invoke text => Some text | _ => None end) events.

(** The number of failed attempts of the retry loop, and its events: a
    failed attempt and the delay after it, [k] times from [attempt] on. *)
Fixpoint failures (cb : clipboard) (remaining attempt : nat) : nat :=
  match remaining with
  | O => O
  | S remaining' =>
      if decide (openClipboard cb attempt ≠ 0%Z) then O
      else S (failures cb remaining' (S attempt))
  end.

Definition backoff (attempt k : nat) : list event :=
  flat_map (fun i => [Call "OpenClipboard" (Some 0%Z);
                      Sleep (10 * Z.shiftl 1 (Z.of_nat i))])
           (seq attempt k).


(** ** cmd/goosniffer *)

Record Options : Type := {
  APIEndpoint : string;
  APIToken : string
}.

Definition looksLikeMoonScan (s : string) : bool :=
  let s := Strings.TrimSpace s in
  if decide (s = "") then false
  else if Strings.Contains s "Moon Product" then true
  else false.

(** The collaborators of the handler outside the repository:
    [json.Marshal] (payload and error), [json.MarshalIndent], whether
    [http.NewRequest] can parse the URL, and the round trip of
    [httpClient.Do] ([None] for a transport error, else the status code). *)
Record collaborators : Type := {
  jsonMarshal : MoonProducts → string * option string;
  jsonMarshalIndent : MoonProducts → string;
  urlParses : string → bool;
  roundTrip : Request → option Z
}.

Definition NewRequest (env : collaborators) (method url body : string)
  : Request * option string :=
  let req := {| Method := method; URL := url; Body := body; ReqHeader := ∅ |} in
  if urlParses env url then (req, None) else (req, Some "parse error").

(** [req.Header.Set(key, value)] *)
Definition HeaderSet (key value : string) (req : Request) : Request :=
  {| Method := Method req; URL := URL req; Body := Body req;
     ReqHeader := <[key := value]> (ReqHeader req) |}.

(** [httpClient.Do(req)] and the report of its result. *)
Definition send (env : collaborators) (req : Request) : io ending :=
  emit (Do req);;
  match roundTrip env req with
  | None => emit (Log "POST %s failed: %v");; mret Returned
  | Some StatusCode =>
      if decide (200 ≤ StatusCode ∧ StatusCode < 300)%Z
      then emit (Log "Moon scan posted to %s (status %s, %d bytes)");;
           mret Returned
      else emit (Log "Moon scan POST to %s returned status %s");;
           mret Returned
  end.

(** The closure passed to [clipboardwatcher.Watch] in
    cmd/goosniffer/main.go. *)
Module MainGo.
Definition handler (env : collaborators) (opts : Options) : Handler :=
  fun text =>
  emit (Log "Clipboard changed");;
  if looksLikeMoonScan text then
    emit (Log "Possible moon scan data detected");;
    match ParseMoons text with
    | Panic _ => mret Panicked
    | Ok (data, _) =>
        let '(payload, err) := jsonMarshal env data in
        match err with
        | Some _ =>
            emit (Log "Failed to marshal moon scan data: %v");; mret Returned
        | None =>
            emit (Log "Moon scan parsed:");;
            emit (Println (jsonMarshalIndent env data));;
            if bool_decide (APIToken opts ≠ "") &&
               bool_decide (APIEndpoint opts ≠ "") then
              emit (Log "Uploading data");;
              let '(req, err) := NewRequest env "POST" (APIEndpoint opts) payload in
              match err with
              | Some _ =>
                  emit (Log "Failed to create POST request: %v");;
                  mret Returned
              | None =>
                  let req := HeaderSet "Content-Type" "application/json" req in
                  let req := HeaderSet "Authorization"
                               ("Bearer " +:+ APIToken opts) req in
                  send env req
              end
            else mret Returned
        end
    end
  else mret Returned.
End MainGo.

(** The same closure in the other revision of main.go (the source file
    kept without a name). *)
Module Part000.
Definition handler (env : collaborators) (opts : Options) : Handler :=
  fun text =>
  emit (Log "Clipboard changed");;
  if looksLikeMoonScan text then
    emit (Log "Possible moon scan data detected");;
    match ParseMoons text with
    | Panic _ => mret Panicked
    | Ok (data, parseErr) =>
        match parseErr with
        | Some _ => emit (Fatalf "failed to parse moons: %v");; mret Exited
        | None =>
            let '(payload, jsErr) := jsonMarshal env data in
            match jsErr with
            | Some _ =>
                emit (Log "Failed to marshal moon scan data: %v");;
                mret Returned
            | None =>
                emit (Log "Moon scan parsed:");;
                emit (Println (jsonMarshalIndent env data));;
                if bool_decide (APIEndpoint opts ≠ "") then
                  emit (Log "Uploading data");;
                  let '(req, reqErr) :=
                    NewRequest env "POST" (APIEndpoint opts) payload in
                  match reqErr with
                  | Some _ =>
                      emit (Log "Failed to create POST request: %v");;
                      mret Returned
                  | None =>
                      let req := HeaderSet "Content-Type" "application/json" req in
                      let req :=
                        if bool_decide (APIToken opts ≠ "")
                        then HeaderSet "Authorization"
                               ("Bearer " +:+ APIToken opts) req
                        else req in
                      send env req
                  end
                else mret Returned
            end
        end
    end
  else mret Returned.
End Part000.

(** The requests that were sent, and whether the upload was started. *)
Definition requests (events : list event) : list Request :=
  omap (fun e => match e with Do req => Some req | _ => None end) events.

Definition uploadStarted (events : list event) : Prop :=
  Log "Uploading data" ∈ events.

Definition fatal (events : list event) : list string :=
  omap (fun e => match e with Fatalf format => Some format | _ => None end)
       events.

(** Two tables are the same: the same group keys, the same item keys in
    each group and the same five field values in each record. *)
Definition sameTables (t1 t2 : MoonProducts) : Prop :=
  dom t1 = dom t2 ∧
  ∀ moon items1 items2,
    t1 !! moon = Some items1 → t2 !! moon = Some items2 →
    dom items1 = dom items2 ∧
    ∀ product d1 d2,
      items1 !! product = Some d1 → items2 !! product = Some d2 →
      Quantity d1 = Quantity d2 ∧ OreTypeID d1 = OreTypeID d2 ∧
      SolarSystemID d1 = SolarSystemID d2 ∧ PlanetID d1 = PlanetID d2 ∧
      MoonID d1 = MoonID d2.

(** A scan copied with its column header, an endpoint without a token,
    and collaborators that all succeed. *)
Definition scanText : string :=
  lines2 "Moon	Moon Product	Quantity	Ore TypeID	SolarSystemID	PlanetID	MoonID"
         readmeInput.

Definition endpointOnly : Options :=
  {| APIEndpoint := "https://example.com/api/moonscan"; APIToken := "" |}.

Definition allGood : collaborators :=
  {| jsonMarshal := fun _ => ("{}", None);
     jsonMarshalIndent := fun _ => "{}";
     urlParses := fun _ => true;
     roundTrip := fun _ => Some 200%Z |}.

(** ** Auxiliary definitions of the proofs *)

Abbreviation spaces := (Forall (fun a => isSpace a = true)).
Abbreviation noSpaces := (Forall (fun a => isSpace a = false)).

Abbreviation digits := (Forall (fun a => inClass Digit a = true)).

(** The rest of the extraction sequence once the clipboard is open. *)
Definition readOpened (cb : clipboard) : io (outcome (string * option string)) :=
  let handle := clipboardData cb in
  emit (Call "GetClipboardData" (Some handle));;
  if decide (handle = 0%Z) then
    emit (Call "CloseClipboard" None);;
    mret (Ok ("", Some "GetClipboardData returned null"))
  else
    let ptr := globalLock cb in
    emit (Call "GlobalLock" (Some ptr));;
    if decide (ptr = 0%Z) then
      emit (Call "CloseClipboard" None);;
      mret (Ok ("", Some "GlobalLock failed"))
    else
      let decoded := utf16PtrToString (Some (memory cb)) in
      emit (Call "GlobalUnlock" None);;
      emit (Call "CloseClipboard" None);;
      mret (text ← decoded; Ok (text, None)).

(** The text "Moon" on the clipboard, opened at the fifth attempt, and
    a clipboard that never opens. *)
Definition fifthAttempt : clipboard :=
  {| formatAvailable := 1;
     openClipboard := fun i => if i <? 4 then 0%Z else 1%Z;
     clipboardData := 1;
     globalLock := 1;
     memory := [77; 111; 111; 110; 0]%Z |}.

Definition neverOpens : clipboard :=
  {| formatAvailable := 1;
     openClipboard := fun _ => 0%Z;
     clipboardData := 1;
     globalLock := 1;
     memory := [77; 111; 111; 110; 0]%Z |}.

Definition logText : Handler := fun text => (Returned, [Log text]).

(** A computation that returns and logs nothing fatal. *)
Definition calm (x : io ending) : Prop := x.1 = Returned ∧ fatal x.2 = [].

(** The text [rest] does not go on with a character of the class. *)
Definition stops (c : class) (rest : bytes) : Prop :=
  match rest with
  | [] => True
  | x :: _ => inClass c x = false
  end.

(** The pattern after the product name. *)
Definition numbersTail : regexp :=
  Plus true Space ⋅
  Capture 2 (Plus true Digit ⋅ Quest (Lit "." ⋅ Plus true Digit)) ⋅
  Plus true Space ⋅ Capture 3 (Plus true Digit) ⋅
  Plus true Space ⋅ Capture 4 (Plus true Digit) ⋅
  Plus true Space ⋅ Capture 5 (Plus true Digit) ⋅
  Plus true Space ⋅ Capture 6 (Plus true Digit) ⋅
  Star true Space ⋅ EndText.

Definition gap (ws : bytes) : Prop := ws ≠ [] ∧ spaces ws.

(** A product name: no line feed, and no white space at either end. *)
Definition nameText (name : bytes) : Prop :=
  Forall (fun a => inClass AnyCharNotNL a = true) name ∧
  (∃ first rest, name = first :: rest ∧ isSpace first = false) ∧
  (∃ front last, name = front ++ [last] ∧ isSpace last = false).

(** The text of a data row from its parts. *)
Definition rowLine (ws0 name ws1 q ws2 a ws3 b ws4 c ws5 d ws6 : bytes) : bytes :=
  ws0 ++ name ++ ws1 ++ q ++ ws2 ++ a ++ ws3 ++ b ++ ws4 ++ c ++ ws5 ++ d ++ ws6.

(** A byte above the ASCII range. *)
Definition highByte (a : ascii) : bool := (128 <=? N_of_ascii a)%N.

(** A byte that belongs to a white-space rune. *)
Definition blank (a : ascii) : bool := Strings.asciiSpace a || highByte a.

(** The heap [h] holds, at the reference [r], the table [t]: the groups
    are distinct objects, allocated after the heap [h0], and the objects
    of [h0] are as they were. *)
Definition represents (h0 h : Heap.heap) (r : Heap.addr) (t : MoonProducts) : Prop :=
  ∃ groups,
    h !! r = Some (Heap.Groups groups) ∧
    (r ∉ dom h0) ∧
    (∀ a, a ∈ dom h0 → h !! a = h0 !! a) ∧
    (∀ moon a, groups !! moon = Some a →
       (a ∉ dom h0) ∧ a ≠ r ∧ ∃ items, h !! a = Some (Heap.Items items) ∧
                                     t !! moon = Some items) ∧
    (∀ moon, groups !! moon = None → t !! moon = None) ∧
    (∀ moon moon' a,
       groups !! moon = Some a → groups !! moon' = Some a → moon = moon').

(** An allocator: the least address that is not in use. *)
Definition nextAddr : Heap.heap → Heap.addr := fun h => fresh (dom h).

(** The attempts that fail and the delays that follow them, in the
    order of the retry loop. *)
Definition retrySchedule : list event :=
  [Call "OpenClipboard" (Some 0%Z); Sleep 10;
   Call "OpenClipboard" (Some 0%Z); Sleep 20;
   Call "OpenClipboard" (Some 0%Z); Sleep 40;
   Call "OpenClipboard" (Some 0%Z); Sleep 80;
   Call "OpenClipboard" (Some 0%Z); Sleep 160].

(** The block of memory begins with at least [arrayLen] units that are
    not zero: the text has no end within the array. *)
Definition unterminated (u : list Z) : Prop :=
  ∃ pre rest, u = pre ++ rest ∧ Forall (fun x => x ≠ 0%Z) pre ∧
    (arrayLen ≤ N.of_nat (length pre))%N.



(** ** Notions of the further properties *)

(** *** The parser *)

(** [captured r total pre rest caps caps']: as [denote], and matching
    [pre] turns the submatches [caps] into [caps']. *)
Fixpoint captured (r : regexp) (total : nat) (pre rest : bytes)
    (caps caps' : list bytes) : Prop :=
  match r with
  | Quest r =>
      (pre = [] ∧ caps' = caps) ∨ captured r total pre rest caps caps'
  | Cat r1 r2 =>
      ∃ p1 p2 mid, pre = p1 ++ p2 ∧
        captured r1 total p1 (p2 ++ rest) caps mid ∧
        captured r2 total p2 rest mid caps'
  | Capture i r =>
      ∃ mid, captured r total pre rest caps mid ∧ caps' = <[i := pre]> mid
  | _ => denote r total pre rest ∧ caps' = caps
  end.

(** The text of a group header before " - Moon ": no line feed, and no
    white space at its start. *)
Definition headText (text : bytes) : Prop :=
  Forall (fun a => inClass AnyCharNotNL a = true) text ∧
  ∃ first rest, text = first :: rest ∧ isSpace first = false.

(** The shape of a group name: some text, " - Moon " and a number. *)
Definition groupName (moon : string) : Prop :=
  ∃ text ds, bytesOf moon = text ++ bytesOf " - Moon " ++ ds ∧
    text ≠ [] ∧ isInteger ds = true.

(** The fields of a record are numerals: a decimal quantity and four
    integer identifiers. *)
Definition numericRecord (data : MoonProductData) : bool :=
  isDecimal (bytesOf (Quantity data)) &&
  isInteger (bytesOf (OreTypeID data)) &&
  isInteger (bytesOf (SolarSystemID data)) &&
  isInteger (bytesOf (PlanetID data)) &&
  isInteger (bytesOf (MoonID data)).

Definition wellFormed (t : MoonProducts) : Prop :=
  ∀ moon items, t !! moon = Some items →
    groupName moon ∧
    ∀ product data, items !! product = Some data →
      product ≠ "" ∧ numericRecord data = true.

(** The same text with Windows line ends: a carriage return before
    every line feed. *)
Definition toCRLF (s : string) : string :=
  stringOf (flat_map (fun c => if byteEq c LF then [CR; LF] else [c]) (bytesOf s)).

(** No data row stands before the first group header. *)
Fixpoint headerFirst (lines : list string) : bool :=
  match lines with
  | [] => true
  | l :: rest =>
      match classify l with
      | Header _ => true
      | Noise => headerFirst rest
      | Row _ _ => false
      end
  end.

(** The shape of a header line and of a row line, with the white space
    around their parts. *)
Definition headerShape (line : bytes) : Prop :=
  ∃ ws0 text ds ws1,
    line = ws0 ++ (text ++ bytesOf " - Moon " ++ ds) ++ ws1 ∧
    spaces ws0 ∧
    (text ≠ [] ∧ Forall (fun x => inClass AnyCharNotNL x = true) text) ∧
    isInteger ds = true ∧ spaces ws1.

Definition rowShape (line : bytes) : Prop :=
  ∃ ws0 name ws1 q ws2 a ws3 b ws4 c ws5 d ws6,
    line = rowLine ws0 name ws1 q ws2 a ws3 b ws4 c ws5 d ws6 ∧
    spaces ws0 ∧
    (name ≠ [] ∧ Forall (fun x => inClass AnyCharNotNL x = true) name) ∧
    gap ws1 ∧ isDecimal q = true ∧ gap ws2 ∧ isInteger a = true ∧
    gap ws3 ∧ isInteger b = true ∧ gap ws4 ∧ isInteger c = true ∧
    gap ws5 ∧ isInteger d = true ∧ spaces ws6.

(** *** The watcher *)

(** The resources that the extraction sequence holds: the clipboard
    (opened and not yet closed) and the memory block (locked and not yet
    unlocked). *)
Record held : Type := {
  clipboardOpen : bool;
  memoryLocked : bool
}.

Definition nothingHeld : held :=
  {| clipboardOpen := false; memoryLocked := false |}.

(** The protocol of the clipboard procedures: [OpenClipboard] while the
    clipboard is not open; [GetClipboardData] and [GlobalLock] only
    while it is open; [GlobalUnlock] only on locked memory;
    [CloseClipboard] only on the open clipboard with the memory
    unlocked. [None] when the event breaks the protocol. *)
Definition protocolStep (h : held) (e : event) : option held :=
  match e with
  | Call proc ret =>
      if decide (proc = "OpenClipboard") then
        if clipboardOpen h then None
        else Some {| clipboardOpen := bool_decide (ret ≠ Some 0%Z);
                     memoryLocked := memoryLocked h |}
      else if decide (proc = "GetClipboardData") then
        if clipboardOpen h then Some h else None
      else if decide (proc = "GlobalLock") then
        if clipboardOpen h && negb (memoryLocked h)
        then Some {| clipboardOpen := true;
                     memoryLocked := bool_decide (ret ≠ Some 0%Z) |}
        else None
      else if decide (proc = "GlobalUnlock") then
        if memoryLocked h
        then Some {| clipboardOpen := clipboardOpen h; memoryLocked := false |}
        else None
      else if decide (proc = "CloseClipboard") then
        if clipboardOpen h && negb (memoryLocked h) then Some nothingHeld
        else None
      else Some h
  | _ => Some h
  end.

Fixpoint protocol (h : held) (events : list event) : option held :=
  match events with
  | [] => Some h
  | e :: rest => h' ← protocolStep h e; protocol h' rest
  end.

(** The texts that a script of messages delivers: one for every
    clipboard update whose extraction succeeds, up to the first WM_QUIT,
    error of [GetMessageW] or clipboard update whose extraction
    panics. *)
Fixpoint delivered (script : list retrieved) : list string :=
  match script with
  | Msg msg :: rest =>
      if decide (Message msg = WM_CLIPBOARDUPDATE) then
        match (readClipboardText (answers msg)).1 with
        | Ok (text, None) => text :: delivered rest
        | Ok (_, Some _) => delivered rest
        | Panic _ => []
        end
      else delivered rest
  | _ => []
  end.

(** The end of [Watch] that a script leads to when every call of the
    handler returns: the first WM_QUIT, error of [GetMessageW] or
    clipboard update whose extraction panics decides. *)
Fixpoint scriptEnd (script : list retrieved) : watchEnd :=
  match script with
  | [] => Waiting
  | GetMessageError :: _ => WatchReturns (Some "GetMessageW error")
  | Quit :: _ => WatchReturns None
  | Msg msg :: rest =>
      if decide (Message msg = WM_CLIPBOARDUPDATE) then
        match (readClipboardText (answers msg)).1 with
        | Ok _ => scriptEnd rest
        | Panic _ => ProcessExits
        end
      else scriptEnd rest
  end.

(** A step of the registration fails. *)
Definition registrationFails (reg : registration) : Prop :=
  classNameError reg ≠ None ∨ moduleHandleError reg ≠ None ∨
  registerClassEx reg = 0%Z ∨ createWindowEx reg = 0%Z ∨
  addClipboardFormatListener reg = 0%Z.

(** The calls of [GetMessageW] in a list of events. *)
Definition retrievals (events : list event) : nat :=
  length (List.filter (fun e => match e with
                                | Call proc _ => bool_decide (proc = "GetMessageW")
                                | _ => false
                                end) events).

(** A registration that succeeds, and a clipboard update as a
    retrieved message. *)
Definition okRegistration : registration :=
  {| classNameError := None; moduleHandleError := None;
     registerClassEx := 1; createWindowEx := 1;
     addClipboardFormatListener := 1 |}.

Definition clipboardUpdate (cb : clipboard) : retrieved :=
  Msg {| Message := WM_CLIPBOARDUPDATE; answers := cb; defWindowProc := 0 |}.

(** *** The handler *)

(** The events of the handler: lines of the log, the printed table and
    the request. *)
Definition isReport (e : event) : bool :=
  match e with
  | Log _ | Println _ | Do _ => true
  | _ => false
  end.

(** A call of the handler that returns, with events of the handler only
    and at most one request. *)
Definition tidy (x : io ending) : Prop :=
  x.1 = Returned ∧ forallb isReport x.2 = true ∧ length (requests x.2) ≤ 1.

(** The request that the handler builds from the options and the
    payload. *)
Definition postRequest (opts : Options) (payload : string)
    (authorization : bool) : Request :=
  {| Method := "POST"; URL := APIEndpoint opts; Body := payload;
     ReqHeader :=
       if authorization
       then <["Authorization" := "Bearer " +:+ APIToken opts]>
              {[ "Content-Type" := "application/json" ]}
       else {[ "Content-Type" := "application/json" ]} |}.

(** The events of the system: calls of its procedures and delays. *)
Definition isSystem (e : event) : bool :=
  match e with
  | Call _ _ | Sleep _ => true
  | _ => false
  end.

(** What a run of [Watch] with the handler of the program looks like:
    nothing fatal is logged, the clipboard protocol is kept, there is at
    most one request for each text handed to the handler, the process is
    ended inside the window procedure only by a panic of the extraction
    (never by the handler), and once the window is registered the
    handler gets the delivered texts and [Watch] ends as the script
    does. *)
Definition orderly (handler : Handler) (reg : registration)
    (script : list retrieved) : Prop :=
  let run := Watch (Some handler) reg script in
  fatal run.2 = [] ∧
  protocol nothingHeld run.2 = Some nothingHeld ∧
  length (requests run.2) ≤ length (invoked run.2) ∧
  (run.1 = ProcessExits ↔
   ¬ registrationFails reg ∧ scriptEnd script = ProcessExits) ∧
  (¬ registrationFails reg →
   run.1 = scriptEnd script ∧ invoked run.2 = delivered script).

(** *** The program *)

(** What [parser.Parse()] gives in [main]: the options, the error of a
    request for help, or another error. *)
Inductive flagsResult : Type :=
| Parsed (opts : Options)
| HelpRequested
| FlagsError.

(** How a run of [main] ends on a script of retrieved messages: it
    returns, the process exits with status 1 after a fatal log line
    ([log.Fatalf], [log.Fatal]), the process is ended inside the window
    procedure (a panic of the extraction or of the handler), or the
    script is over and the program waits for the next message. *)
Inductive mainEnd : Type := MainReturns | MainExits | MainDies | StillWatching.

(** [func main()] of cmd/goosniffer/main.go; [log.Fatal(err)] is
    recorded as the event [Fatalf] with the text of the error. *)
Definition main (env : collaborators) (flags : flagsResult)
    (reg : registration) (script : list retrieved) : io mainEnd :=
  match flags with
  | HelpRequested => mret MainReturns
  | FlagsError => emit (Fatalf "failed to parse flags: %v");; mret MainExits
  | Parsed opts =>
      emit (Log "Listening for clipboard text. Press Ctrl+C to exit.");;
      err ← Watch (Some (MainGo.handler env opts)) reg script;
      match err with
      | WatchReturns None => mret MainReturns
      | WatchReturns (Some err) => emit (Fatalf err);; mret MainExits
      | ProcessExits => mret MainDies
      | Waiting => mret StillWatching
      end
  end.

(** * Properties of the parser *)

Lemma loopBody_act st rawLine :
  activeGroupPresent st →
  loopBody st rawLine = Ok (act (classify rawLine) st).
Proof.
  intros Hinv. unfold loopBody, classify.
  destruct (decide (Strings.TrimSpace (Strings.TrimRight rawLine CR) = ""));
    [done|].
  destruct (Strings.Contains _ _); [done|].
  destruct (FindStringSubmatch moonLineRe _) as [|m0 [|m1 [|m2 ms]]]; simpl;
    try done.
  all: destruct (decide (currentMoon st = "")) as [Hcur|Hcur];
    [by (unfold act; destruct (FindStringSubmatch productLineRe _)
           as [|? [|? [|? [|? [|? [|? [|? [|? ?]]]]]]]];
         simpl; rewrite ?decide_True by done)|].
  all: destruct (FindStringSubmatch productLineRe _)
         as [|p0 [|p1 [|p2 [|p3 [|p4 [|p5 [|p6 [|p7 ps]]]]]]]]; simpl; try done.
  all: destruct (Hinv Hcur) as [products Hp]; rewrite Hp; simpl.
  all: by rewrite decide_False by done.
Qed.

Lemma act_invariant k st :
  activeGroupPresent st → activeGroupPresent (act k st).
Proof.
  unfold activeGroupPresent. destruct k as [|moon|product data]; simpl; [done|..].
  - intros _ _. unfold ensureGroup.
    destruct (result st !! moon) eqn:E; [by rewrite E|].
    rewrite lookup_insert_eq. by eexists.
  - intros Hinv. destruct (decide (currentMoon st = "")); [done|]. simpl.
    intros _. rewrite lookup_insert_eq. by eexists.
Qed.

Lemma loop_act st lines :
  activeGroupPresent st →
  loop st lines = Ok (foldl (fun s l => act (classify l) s) st lines).
Proof.
  revert st. induction lines as [|l ls IH]; intros st Hinv; simpl; [done|].
  rewrite loopBody_act by done. simpl.
  apply IH. by apply act_invariant.
Qed.

Lemma initial_invariant : activeGroupPresent initial.
Proof. by intros H. Qed.

Lemma ParseMoons_act input :
  ParseMoons input =
    Ok (result (foldl (fun s l => act (classify l) s) initial
                  (Strings.Split input LF)), None).
Proof.
  unfold ParseMoons. fold initial.
  by rewrite loop_act by apply initial_invariant.
Qed.


(** ** The parser never fails *)

(** C1: for every input string [ParseMoons] returns a table and a nil
    error; it neither panics nor reports a failure. *)
Theorem ParseMoons_total (input : string) :
  ∃ table : MoonProducts, ParseMoons input = Ok (table, None).
Proof. rewrite ParseMoons_act. by eexists. Qed.

(** ** The example of the documentation *)

(** C4: on the two-line example the table has exactly the group
    "66-PMM V - Moon 15", holding exactly the item "Flawless Arkonor"
    with the five fields of its row. *)
Theorem ParseMoons_readme :
  ParseMoons readmeInput =
    Ok ({[ "66-PMM V - Moon 15" :=
             {[ "Flawless Arkonor" :=
                  {| Quantity := "0.323762148619";
                     OreTypeID := "46678";
                     SolarSystemID := "30004923";
                     PlanetID := "40311969";
                     MoonID := "40311985" |} ]} ]}, None).
Proof. vm_compute. reflexivity. Qed.

(** ** Last write wins *)

Lemma entry_ensureGroup moon t g n :
  entry (ensureGroup moon t) g n = entry t g n.
Proof.
  unfold entry, ensureGroup. destruct (t !! moon) eqn:E; [done|].
  destruct (decide (moon = g)) as [->|Hne].
  - by rewrite lookup_insert_eq, E.
  - by rewrite lookup_insert_ne.
Qed.

Lemma entry_assign (t : MoonProducts) cur product data g n :
  entry (<[cur := <[product := data]> (default ∅ (t !! cur))]> t) g n =
    if decide ((cur, product) = (g, n)) then Some data else entry t g n.
Proof.
  unfold entry. destruct (decide (cur = g)) as [->|Hne].
  - rewrite lookup_insert_eq. simpl.
    destruct (decide (product = n)) as [->|Hne'].
    + rewrite lookup_insert_eq. by rewrite decide_True.
    + rewrite lookup_insert_ne by done. rewrite decide_False by congruence.
      by destruct (t !! g).
  - rewrite lookup_insert_ne by done. by rewrite decide_False by congruence.
Qed.

Lemma lastAssigned_cons e log g n :
  lastAssigned g n (e :: log) =
    match lastAssigned g n log with
    | Some d => Some d
    | None => if decide (e.1 = (g, n)) then Some e.2 else None
    end.
Proof.
  unfold lastAssigned.
  destruct (decide (e.1 = (g, n))) as [He|He].
  - rewrite filter_cons_True by done. rewrite last_cons.
    by destruct (last (filter _ log)).
  - rewrite filter_cons_False by done.
    by destruct (last (filter _ log)).
Qed.

Lemma foldl_act_entry st lines g n :
  entry (result (foldl (fun s l => act (classify l) s) st lines)) g n =
    match lastAssigned g n (assignments (currentMoon st) lines) with
    | Some d => Some d
    | None => entry (result st) g n
    end.
Proof.
  revert st. induction lines as [|l ls IH]; intros st; simpl; [done|].
  rewrite IH. destruct (classify l) as [|moon|product data]; simpl.
  - done.
  - by rewrite entry_ensureGroup.
  - destruct (decide (currentMoon st = "")) as [Hcur|Hcur]; [done|]. simpl.
    rewrite lastAssigned_cons, entry_assign. simpl.
    destruct (lastAssigned g n _); [done|].
    by destruct (decide ((currentMoon st, product) = (g, n))).
Qed.

(** C5: the entry of the returned table under a group and an item is the
    record of the last data row, in input order, that was read under that
    active group with that item name (and there is no entry when there is
    no such row); duplicates overwrite and produce no error. *)
Theorem ParseMoons_last_write_wins (input : string) :
  ∃ table : MoonProducts,
    ParseMoons input = Ok (table, None) ∧
    ∀ moon product,
      entry table moon product =
        lastAssigned moon product (assignments "" (Strings.Split input LF)).
Proof.
  rewrite ParseMoons_act. eexists. split; [done|].
  intros g n. rewrite foldl_act_entry. simpl.
  by destruct (lastAssigned g n _).
Qed.

(** A row that comes twice under one group: the second record stays. *)
Example last_write_wins_twice :
  ParseMoons (lines2 "66-PMM V - Moon 15"
                (lines2 "Flawless Arkonor 0.3 46678 30004923 40311969 40311985"
                        "Flawless Arkonor 0.7 46678 30004923 40311969 40311985")) =
    Ok ({[ "66-PMM V - Moon 15" :=
             {[ "Flawless Arkonor" :=
                  {| Quantity := "0.7"; OreTypeID := "46678";
                     SolarSystemID := "30004923"; PlanetID := "40311969";
                     MoonID := "40311985" |} ]} ]}, None).
Proof. vm_compute. reflexivity. Qed.

(** ** Lines before the first header *)

Lemma bytesOf_stringOf (l : bytes) : bytesOf (stringOf l) = l.
Proof. apply list_ascii_of_string_of_list_ascii. Qed.

Lemma stringOf_bytesOf (s : string) : stringOf (bytesOf s) = s.
Proof. apply string_of_list_ascii_of_string. Qed.

Lemma byteEq_true a b : byteEq a b = true ↔ a = b.
Proof. apply Ascii.eqb_eq. Qed.

Lemma byteEq_false a b : byteEq a b = false ↔ a ≠ b.
Proof. apply Ascii.eqb_neq. Qed.

Section SplitJoin.
Import Strings.
Variable sep : ascii.

Lemma splitBytes_not_nil s : splitBytes sep s ≠ [].
Proof.
  destruct s as [|c s]; simpl; [done|].
  destruct (byteEq c sep); [done|]. by destruct (splitBytes sep s).
Qed.

Lemma splitBytes_pieces s : Forall (fun piece => sep ∉ piece) (splitBytes sep s).
Proof.
  induction s as [|c s IH]; simpl.
  - repeat constructor. by intros ?%elem_of_nil.
  - destruct (byteEq c sep) eqn:E.
    + constructor; [by intros ?%elem_of_nil | done].
    + apply byteEq_false in E.
      destruct (splitBytes sep s) as [|piece pieces].
      * repeat constructor. intros [->| ?%elem_of_nil]%elem_of_cons; done.
      * inversion IH; subst. constructor; [|done].
        intros [->|?]%elem_of_cons; done.
Qed.

Lemma splitBytes_piece e rest :
  sep ∉ e → splitBytes sep (e ++ sep :: rest) = e :: splitBytes sep rest.
Proof.
  induction e as [|c e IH]; intros Hno; simpl.
  - by rewrite (proj2 (byteEq_true sep sep)).
  - rewrite (proj2 (byteEq_false c sep)) by (intros ->; apply Hno; left).
    rewrite IH; [done|]. intros ?. apply Hno. by right.
Qed.

Lemma splitBytes_last e : sep ∉ e → splitBytes sep e = [e].
Proof.
  induction e as [|c e IH]; intros Hno; simpl; [done|].
  rewrite (proj2 (byteEq_false c sep)) by (intros ->; apply Hno; left).
  rewrite IH; [done|]. intros ?. apply Hno. by right.
Qed.

Lemma splitBytes_joinBytes elems :
  elems ≠ [] → Forall (fun e => sep ∉ e) elems →
  splitBytes sep (joinBytes sep elems) = elems.
Proof.
  induction elems as [|e [|e' rest] IH]; intros Hne Hall; [done|..].
  - simpl. apply splitBytes_last. by inversion Hall.
  - change (joinBytes sep (e :: e' :: rest))
      with (e ++ sep :: joinBytes sep (e' :: rest)).
    inversion Hall; subst. rewrite splitBytes_piece by done.
    by rewrite IH.
Qed.
End SplitJoin.

Lemma Split_Join (lines : list string) :
  lines ≠ [] → Forall (fun l => LF ∉ bytesOf l) lines →
  Strings.Split (Strings.Join lines LF) LF = lines.
Proof.
  intros Hne Hall. unfold Strings.Split, Strings.Join.
  rewrite bytesOf_stringOf, splitBytes_joinBytes.
  - rewrite <- list_fmap_compose. rewrite <- (list_fmap_id lines) at 2.
    apply list_fmap_ext. intros _ l _. apply stringOf_bytesOf.
  - by destruct lines.
  - by apply Forall_fmap.
Qed.

Lemma Split_lines input :
  Forall (fun l => LF ∉ bytesOf l) (Strings.Split input LF).
Proof.
  unfold Strings.Split. apply Forall_fmap.
  eapply Forall_impl; [apply splitBytes_pieces|].
  intros piece Hp. simpl. by rewrite bytesOf_stringOf.
Qed.

Lemma fromFirstHeader_Forall (P : string → Prop) lines :
  Forall P lines → Forall P (fromFirstHeader lines).
Proof.
  induction 1 as [|l ls Hl Hls IH]; simpl; [done|].
  destruct (isHeader l); [by constructor | done].
Qed.

Lemma act_before_header l :
  isHeader l = false → act (classify l) initial = initial.
Proof. unfold isHeader. by destruct (classify l). Qed.

Lemma foldl_fromFirstHeader lines :
  foldl (fun s l => act (classify l) s) initial (fromFirstHeader lines) =
  foldl (fun s l => act (classify l) s) initial lines.
Proof.
  induction lines as [|l ls IH]; simpl; [done|].
  destruct (isHeader l) eqn:E; [done|].
  by rewrite act_before_header.
Qed.

Lemma fromFirstHeader_none lines :
  Forall (fun l => isHeader l = false) lines → fromFirstHeader lines = [].
Proof. induction 1 as [|l ls Hl _ IH]; simpl; [done|]. by rewrite Hl. Qed.

(** C6: the lines before the first group header contribute nothing: the
    result is that of the input with those lines removed, and an input
    without any header line gives the empty table. *)
Theorem ParseMoons_before_first_header (input : string) :
  ParseMoons input =
    ParseMoons (Strings.Join (fromFirstHeader (Strings.Split input LF)) LF) ∧
  (Forall (fun l => isHeader l = false) (Strings.Split input LF) →
   ParseMoons input = Ok (∅, None)).
Proof.
  split.
  - rewrite !ParseMoons_act.
    rewrite <- (foldl_fromFirstHeader (Strings.Split input LF)).
    destruct (fromFirstHeader (Strings.Split input LF)) as [|h t] eqn:E.
    + done.
    + rewrite Split_Join; [done..|].
      rewrite <- E. apply fromFirstHeader_Forall, Split_lines.
  - intros Hall. rewrite ParseMoons_act, <- foldl_fromFirstHeader.
    by rewrite fromFirstHeader_none.
Qed.

(** The hypothesis of the second part holds, for instance, on a lone data
    row. *)
Lemma ParseMoons_before_first_header_witness :
  ParseMoons "Flawless Arkonor 0.3 46678 30004923 40311969 40311985" =
    Ok (∅, None).
Proof.
  apply (ParseMoons_before_first_header
           "Flawless Arkonor 0.3 46678 30004923 40311969 40311985").
  vm_compute. repeat constructor.
Defined.

(** ** Soundness of the matcher *)

Lemma hasPrefix_app s p :
  Strings.hasPrefix s p = true → s = p ++ drop (length p) s.
Proof.
  revert s. induction p as [|b p IH]; intros [|c s]; simpl; try done.
  intros [->%byteEq_true Hp]%andb_prop. f_equal. by apply IH.
Qed.

Section StarSound.
Context {R : Type} (c : class) (k : bytes → option R).

Lemma starGreedy_sound inp res :
  starGreedy c k inp = Some res →
  ∃ pre rest, inp = pre ++ rest ∧
    Forall (fun a => inClass c a = true) pre ∧ k rest = Some res.
Proof.
  induction inp as [|a inp IH]; simpl.
  - intros H. by exists [], [].
  - destruct (inClass c a) eqn:Ea.
    + destruct (starGreedy c k inp) as [r|] eqn:E.
      * intros [= ->]. destruct (IH eq_refl) as (pre & rest & -> & Hpre & Hk).
        exists (a :: pre), rest. split; [done|]. split; [by constructor|done].
      * intros H. by exists [], (a :: inp).
    + intros H. by exists [], (a :: inp).
Qed.

Lemma starLazy_sound inp res :
  starLazy c k inp = Some res →
  ∃ pre rest, inp = pre ++ rest ∧
    Forall (fun a => inClass c a = true) pre ∧ k rest = Some res.
Proof.
  induction inp as [|a inp IH]; simpl.
  - destruct (k []) eqn:E; [|done]. intros [= ->]. by exists [], [].
  - destruct (k (a :: inp)) eqn:E.
    + intros [= ->]. by exists [], (a :: inp).
    + destruct (inClass c a) eqn:Ea; [|done].
      intros (pre & rest & -> & Hpre & Hk)%IH.
      exists (a :: pre), rest. split; [done|]. split; [by constructor|done].
Qed.

Lemma star_sound g inp res :
  star g c k inp = Some res →
  ∃ pre rest, inp = pre ++ rest ∧
    Forall (fun a => inClass c a = true) pre ∧ k rest = Some res.
Proof. destruct g; [apply starGreedy_sound | apply starLazy_sound]. Qed.
End StarSound.

Lemma run_sound r total inp caps k res :
  run r total inp caps k = Some res →
  ∃ pre rest caps', inp = pre ++ rest ∧ denote r total pre rest ∧
    k rest caps' = Some res.
Proof.
  revert inp caps k.
  induction r as [s|c|g c|g c|r IH|r1 IH1 r2 IH2|i r IH| |];
    intros inp caps k; simpl.
  - destruct (Strings.hasPrefix inp (bytesOf s)) eqn:E; [|done].
    intros Hk. exists (bytesOf s), (drop (length (bytesOf s)) inp), caps.
    split; [by apply hasPrefix_app|done].
  - destruct inp as [|a inp]; [done|].
    destruct (inClass c a) eqn:Ea; [|done].
    intros Hk. exists [a], inp, caps. split; [done|]. split; [by exists a|done].
  - intros (pre & rest & -> & Hpre & Hk)%star_sound. by exists pre, rest, caps.
  - destruct inp as [|a inp]; [done|].
    destruct (inClass c a) eqn:Ea; [|done].
    intros (pre & rest & -> & Hpre & Hk)%star_sound.
    exists (a :: pre), rest, caps. split; [done|].
    split; [|done]. split; [done|by constructor].
  - destruct (run r total inp caps k) as [res'|] eqn:E.
    + intros [= ->]. destruct (IH _ _ _ E) as (pre & rest & caps' & ? & ? & ?).
      exists pre, rest, caps'. split; [done|]. split; [by right|done].
    + intros Hk. exists [], inp, caps. split; [done|]. split; [by left|done].
  - intros (p1 & rest1 & caps1 & -> & H1 & Hk1)%IH1.
    apply IH2 in Hk1 as (p2 & rest & caps2 & -> & H2 & Hk).
    exists (p1 ++ p2), rest, caps2. split; [by rewrite app_assoc|].
    split; [|done]. by exists p1, p2.
  - intros (pre & rest & caps' & -> & Hr & Hk)%IH.
    by exists pre, rest, (<[i:=consumed (pre ++ rest) rest]> caps').
  - destruct (decide (length inp = total)); [|done].
    intros Hk. by exists [], inp, caps.
  - destruct inp; [|done]. intros Hk. by exists [], [], caps.
Qed.

Lemma search_sound re total inp caps :
  search re total inp = Some caps →
  ∃ skipped pre rest, inp = skipped ++ pre ++ rest ∧ denote re total pre rest.
Proof.
  induction inp as [|a inp IH]; simpl.
  - destruct (matchAt re total []) eqn:E; [|done]. intros _.
    apply run_sound in E as (pre & rest & ? & ? & ? & _). by exists [], pre, rest.
  - destruct (matchAt re total (a :: inp)) eqn:E.
    + intros _.
      apply run_sound in E as (pre & rest & ? & ? & ? & _).
      by exists [], pre, rest.
    + intros (skipped & pre & rest & -> & H)%IH.
      by exists (a :: skipped), pre, rest.
Qed.

Lemma FindStringSubmatch_sound re s :
  FindStringSubmatch re s ≠ [] →
  ∃ skipped pre rest,
    bytesOf s = skipped ++ pre ++ rest ∧ denote re (length (bytesOf s)) pre rest.
Proof.
  unfold FindStringSubmatch.
  destruct (search _ _ _) eqn:E; [|done]. intros _. by eapply search_sound.
Qed.

(** ** Tokens *)

Lemma fields_spaces_l ws s : spaces ws → fields (ws ++ s) = fields s.
Proof. induction 1 as [|a ws Ha _ IH]; simpl; [done|]. by rewrite Ha. Qed.

Lemma fields_head_word c s : isSpace c = false → fields (c :: s) ≠ [].
Proof.
  intros Hc. simpl. rewrite Hc. destruct s as [|d s]; [done|].
  destruct (isSpace d); [done|]. by destruct (fields (d :: s)).
Qed.

Lemma fields_app_sep a ws b :
  spaces ws → ws ≠ [] → fields (a ++ ws ++ b) = fields a ++ fields b.
Proof.
  intros Hws Hne. induction a as [|c a IH].
  - by apply (fields_spaces_l ws b).
  - change ((c :: a) ++ ws ++ b) with (c :: (a ++ ws ++ b)).
    cbn [fields]. destruct (isSpace c) eqn:Ec; [done|].
    destruct a as [|d a].
    + destruct ws as [|w ws]; [done|]. inversion Hws as [|?? Hw Hws']; subst.
      cbn [app]. rewrite Hw. f_equal.
      exact (fields_spaces_l (w :: ws) b Hws).
    + cbn [app] in *. destruct (isSpace d) eqn:Ed.
      * by rewrite IH.
      * rewrite IH. pose proof (fields_head_word d a Ed) as Hd.
        by destruct (fields (d :: a)).
Qed.

Lemma fields_spaces_r a ws : spaces ws → fields (a ++ ws) = fields a.
Proof.
  intros Hws. destruct ws as [|w ws]; [by rewrite app_nil_r|].
  rewrite <- (app_nil_r (w :: ws)), fields_app_sep by done.
  apply app_nil_r.
Qed.

Lemma fields_word w : w ≠ [] → noSpaces w → fields w = [w].
Proof.
  intros Hne Hw. induction Hw as [|c w Hc Hw IH]; [done|].
  cbn [fields]. rewrite Hc. destruct w as [|d w]; [done|].
  inversion Hw as [|?? Hd _]; subst. rewrite Hd. by rewrite IH.
Qed.

Lemma fields_word_sep w ws b :
  w ≠ [] → noSpaces w → spaces ws → ws ≠ [] →
  fields (w ++ ws ++ b) = w :: fields b.
Proof. intros. by rewrite fields_app_sep, fields_word. Qed.

(** ** Numerals *)

Lemma isDigit_not_space a : isDigit a = true → isSpace a = false.
Proof. by destruct a as [[] [] [] [] [] [] [] []]. Qed.

Lemma digits_noSpaces t : digits t → noSpaces t.
Proof.
  intros Ht. eapply Forall_impl; [exact Ht|].
  intros a. apply isDigit_not_space.
Qed.

Lemma digits_isInteger t : t ≠ [] → digits t → isInteger t = true.
Proof.
  intros Hne Ht. unfold isInteger. rewrite bool_decide_eq_false_2 by done.
  simpl. apply forallb_forall. intros a Ha.
  by eapply (proj1 (List.Forall_forall _ _)) in Ht.
Qed.

Lemma breakDot_digits t u : digits t → breakDot (t ++ u) =
  let '(a, b) := breakDot u in (t ++ a, b).
Proof.
  induction 1 as [|c t Hc _ IH]; simpl; [by destruct (breakDot u)|].
  rewrite IH. destruct (byteEq c ".") eqn:E.
  - apply byteEq_true in E as ->. done.
  - by destruct (breakDot u).
Qed.

Lemma isDecimal_integer t : t ≠ [] → digits t → isDecimal t = true.
Proof.
  intros Hne Ht. unfold isDecimal.
  rewrite <- (app_nil_r t) at 1. rewrite breakDot_digits by done. simpl.
  rewrite app_nil_r. by apply digits_isInteger.
Qed.

Lemma isDecimal_fraction t u :
  t ≠ [] → digits t → u ≠ [] → digits u →
  isDecimal (t ++ "."%char :: u) = true.
Proof.
  intros. unfold isDecimal. rewrite breakDot_digits by done. simpl.
  rewrite app_nil_r. rewrite !digits_isInteger by done. done.
Qed.

(** ** What a data row looks like *)

Lemma integer_shape t :
  t ≠ [] ∧ digits t → t ≠ [] ∧ noSpaces t ∧ isInteger t = true.
Proof.
  intros [Hne Ht]. split; [done|].
  split; [by apply digits_noSpaces | by apply digits_isInteger].
Qed.

Lemma decimal_shape total q rest :
  denote (Plus true Digit ⋅ Quest (Lit "." ⋅ Plus true Digit)) total q rest →
  q ≠ [] ∧ noSpaces q ∧ isDecimal q = true.
Proof.
  intros (i & f & -> & [Hne Hi] & [->|(dot & u & -> & -> & Hu & Hdu)]).
  - rewrite app_nil_r. split; [done|].
    split; [by apply digits_noSpaces | by apply isDecimal_integer].
  - split; [by destruct i|]. split.
    + apply Forall_app. split; [by apply digits_noSpaces|].
      constructor; [done|by apply digits_noSpaces].
    + by apply isDecimal_fraction.
Qed.

Lemma productLineRe_numbersTail :
  productLineRe =
    BeginText ⋅ Star true Space ⋅ Capture 1 (Plus false AnyCharNotNL) ⋅
    numbersTail.
Proof. reflexivity. Qed.

Lemma isInteger_digits t : isInteger t = true ↔ t ≠ [] ∧ digits t.
Proof.
  unfold isInteger. rewrite andb_true_iff, negb_true_iff, bool_decide_eq_false.
  apply and_iff_compat_l. rewrite forallb_forall, Forall_forall.
  by setoid_rewrite list_elem_of_In.
Qed.

Lemma breakDot_Some t a b : breakDot t = (a, Some b) → t = a ++ "."%char :: b.
Proof.
  revert a. induction t as [|c t IH]; intros a; simpl; [done|].
  destruct (byteEq c ".") eqn:E.
  - apply byteEq_true in E as ->. by intros [= <- <-].
  - destruct (breakDot t) as [a' b']. intros [= <- ->]. simpl. f_equal.
    by apply IH.
Qed.

Lemma breakDot_None t a : breakDot t = (a, None) → t = a.
Proof.
  revert a. induction t as [|c t IH]; intros a; simpl; [by intros [= <-]|].
  destruct (byteEq c "."); [done|].
  destruct (breakDot t) as [a' b']. intros [= <- ->]. f_equal. by apply IH.
Qed.

Lemma isDecimal_inv q :
  isDecimal q = true →
  (q ≠ [] ∧ digits q) ∨
  ∃ i f, q = i ++ "."%char :: f ∧ (i ≠ [] ∧ digits i) ∧ (f ≠ [] ∧ digits f).
Proof.
  unfold isDecimal. destruct (breakDot q) as [a [b|]] eqn:E.
  - intros [Ha Hb]%andb_true_iff. right. exists a, b.
    split; [by apply breakDot_Some|]. by rewrite <- !isInteger_digits.
  - intros Ha. left. apply breakDot_None in E as ->.
    by apply isInteger_digits.
Qed.

Lemma isInteger_word t : isInteger t = true → t ≠ [] ∧ noSpaces t.
Proof.
  intros [Hne Ht]%isInteger_digits. split; [done|by apply digits_noSpaces].
Qed.

Lemma isDecimal_word q : isDecimal q = true → q ≠ [] ∧ noSpaces q.
Proof.
  intros [[Hne Hq]|(i & f & -> & [Hne Hi] & [_ Hf])]%isDecimal_inv.
  - split; [done|by apply digits_noSpaces].
  - split; [by destruct i|]. apply Forall_app.
    split; [by apply digits_noSpaces|].
    constructor; [done|by apply digits_noSpaces].
Qed.

Lemma fields_numbers front ws1 q ws2 a ws3 b ws4 c ws5 d ws6 :
  gap ws1 → isDecimal q = true → gap ws2 → isInteger a = true →
  gap ws3 → isInteger b = true → gap ws4 → isInteger c = true →
  gap ws5 → isInteger d = true → spaces ws6 →
  fields (front ++ ws1 ++ q ++ ws2 ++ a ++ ws3 ++ b ++ ws4 ++ c ++ ws5 ++
            d ++ ws6) = fields front ++ [q; a; b; c; d].
Proof.
  intros [? ?] [? ?]%isDecimal_word [? ?] [? ?]%isInteger_word
    [? ?] [? ?]%isInteger_word [? ?] [? ?]%isInteger_word
    [? ?] [? ?]%isInteger_word ?.
  rewrite fields_app_sep by done. f_equal.
  rewrite !fields_word_sep by done.
  by rewrite fields_spaces_r, fields_word.
Qed.

(** A text matched by [numbersTail] runs to the end of the line and is
    made of exactly five numeric tokens. *)
Lemma numbersTail_tokens total pre rest :
  denote numbersTail total pre rest →
  rest = [] ∧
  ∃ q a b c d,
    (∀ front, fields (front ++ pre) = fields front ++ [q; a; b; c; d]) ∧
    isDecimal q = true ∧ isInteger a = true ∧ isInteger b = true ∧
    isInteger c = true ∧ isInteger d = true.
Proof.
  unfold numbersTail.
  intros (ws1 & ? & -> & G1 & H).
  destruct H as (q & ? & -> & (_ & _ & Hq)%decimal_shape & H).
  destruct H as (ws2 & ? & -> & G2 & H).
  destruct H as (a & ? & -> & (_ & _ & Ha)%integer_shape & H).
  destruct H as (ws3 & ? & -> & G3 & H).
  destruct H as (b & ? & -> & (_ & _ & Hb)%integer_shape & H).
  destruct H as (ws4 & ? & -> & G4 & H).
  destruct H as (c & ? & -> & (_ & _ & Hc)%integer_shape & H).
  destruct H as (ws5 & ? & -> & G5 & H).
  destruct H as (d & ? & -> & (_ & _ & Hd)%integer_shape & H).
  destruct H as (ws6 & ? & -> & Hws6 & [-> ->]).
  split; [done|]. exists q, a, b, c, d. split; [|done].
  intros front. rewrite !app_nil_r. by apply fields_numbers.
Qed.

(** A text matched by [productLineRe] starts the line; it is made of
    white space, a name that is not empty, and the five numeric tokens. *)
Lemma productLineRe_parts total pre rest :
  denote productLineRe total pre rest →
  length (pre ++ rest) = total ∧
  ∃ ws0 name tail q a b c d,
    pre ++ rest = ws0 ++ name ++ tail ∧ spaces ws0 ∧ name ≠ [] ∧
    (∀ front, fields (front ++ tail) = fields front ++ [q; a; b; c; d]) ∧
    isDecimal q = true ∧ isInteger a = true ∧ isInteger b = true ∧
    isInteger c = true ∧ isInteger d = true.
Proof.
  rewrite productLineRe_numbersTail.
  intros (? & ? & -> & [-> Hlen] & H).
  destruct H as (ws0 & ? & -> & Hws0 & H).
  destruct H as (name & tail & -> & [Hname _] & H).
  apply numbersTail_tokens in H as (-> & q & a & b & c & d & Htok & ?).
  split; [done|]. exists ws0, name, tail, q, a, b, c, d.
  by rewrite app_nil_r.
Qed.

(** A text matched by [moonLineRe] ends in the token "Moon" and a token
    of digits. *)
Lemma moonLineRe_tokens total skipped pre rest :
  denote moonLineRe total pre rest →
  ∃ front ds,
    fields (skipped ++ pre ++ rest) = front ++ [bytesOf "Moon"; ds] ∧
    isInteger ds = true.
Proof.
  unfold moonLineRe.
  intros (? & ? & -> & [-> _] & H).
  destruct H as (ws0 & ? & -> & Hws0 & H).
  destruct H as (group & ? & -> & Hgroup & H).
  destruct H as (ws1 & ? & -> & Hws1 & [-> ->]).
  destruct Hgroup as (text & ? & -> & _ & lit & ds & -> & -> & Hds).
  apply integer_shape in Hds as (Hne & Hdw & Hdi). simpl in Hws1.
  exists (fields (skipped ++ ws0 ++ text ++ bytesOf " -")), ds.
  split; [|done]. simpl. rewrite !app_nil_r.
  replace (skipped ++ ws0 ++ (text ++ " "%char :: "-"%char :: " "%char ::
             "M"%char :: "o"%char :: "o"%char :: "n"%char :: " "%char :: ds) ++ ws1)
    with ((skipped ++ ws0 ++ text ++ [" "%char; "-"%char]) ++ [" "%char] ++
          bytesOf "Moon" ++ [" "%char] ++ ds ++ ws1)
    by (by rewrite <- !app_assoc).
  rewrite fields_app_sep by (done || by repeat constructor). f_equal.
  rewrite fields_word_sep by (done || by repeat constructor).
  by rewrite fields_spaces_r, fields_word.
Qed.

Lemma dropWhileB_split p s :
  ∃ pre, s = pre ++ Strings.dropWhileB p s ∧ Forall (fun a => p a = true) pre.
Proof.
  induction s as [|c s (pre & IH & Hpre)]; simpl; [by exists []|].
  destruct (p c) eqn:E; [|by exists []].
  exists (c :: pre). split; [by rewrite IH at 1 | by constructor].
Qed.

(** Removing the trailing carriage returns keeps the tokens. *)
Lemma fields_TrimRight rawLine :
  fields (bytesOf (Strings.TrimRight rawLine CR)) = fields (bytesOf rawLine).
Proof.
  unfold Strings.TrimRight. rewrite bytesOf_stringOf.
  destruct (dropWhileB_split (fun c => byteEq c CR) (rev (bytesOf rawLine)))
    as (pre & Hsplit & Hpre).
  rewrite <- (rev_involutive (bytesOf rawLine)) at 2.
  rewrite Hsplit at 2. rewrite rev_app_distr.
  symmetry. apply fields_spaces_r.
  apply List.Forall_rev. eapply Forall_impl; [exact Hpre|].
  by intros a ->%byteEq_true.
Qed.

Lemma productLineRe_row line :
  FindStringSubmatch productLineRe line ≠ [] →
  ∃ ws0 name tail q a b c d,
    bytesOf line = ws0 ++ name ++ tail ∧ spaces ws0 ∧ name ≠ [] ∧
    fields (bytesOf line) = fields (ws0 ++ name) ++ [q; a; b; c; d] ∧
    isDecimal q = true ∧ isInteger a = true ∧ isInteger b = true ∧
    isInteger c = true ∧ isInteger d = true.
Proof.
  intros (skipped & pre & rest & Hline & H)%FindStringSubmatch_sound.
  apply productLineRe_parts in H
    as (Hlen & ws0 & name & tail & q & a & b & c & d & Heq & ? & ? & Htok & ?).
  rewrite Hline, !length_app in Hlen.
  destruct skipped; [|simpl in Hlen; lia]. simpl in Hline.
  exists ws0, name, tail, q, a, b, c, d.
  rewrite Hline, Heq. repeat (split; [done|]).
  split; [|done]. by rewrite <- Htok, <- app_assoc.
Qed.

(** ** Lines with more or fewer than six tokens *)

(** C3 as it is stated fails: the row of the documentation has seven
    tokens, the product name being two of them, and it is recorded. *)
Lemma seven_tokens_recorded : ¬ discardsUnlessSixTokens.
Proof.
  intros H.
  specialize (H ["66-PMM V - Moon 15"]
    "Flawless Arkonor    0.323762148619    46678    30004923    40311969    40311985"
    {| result := {[ "66-PMM V - Moon 15" := ∅ ]};
       currentMoon := "66-PMM V - Moon 15" |}
    {| result := {[ "66-PMM V - Moon 15" :=
                      {[ "Flawless Arkonor" :=
                           {| Quantity := "0.323762148619";
                              OreTypeID := "46678";
                              SolarSystemID := "30004923";
                              PlanetID := "40311969";
                              MoonID := "40311985" |} ]} ]};
       currentMoon := "66-PMM V - Moon 15" |}).
  specialize (H ltac:(vm_compute; reflexivity) ltac:(vm_compute; lia)
                ltac:(vm_compute; reflexivity)
                "66-PMM V - Moon 15" "Flawless Arkonor").
  vm_compute in H. discriminate H.
Qed.

(** A line of five numeric tokens that starts with two white-space
    characters is recorded as well, under a product name that is one
    white-space character; with one white-space character at its start
    it is not. *)
Example five_tokens_recorded :
  length (fields (bytesOf "  1 2 3 4 5")) = 5 ∧
  classify "  1 2 3 4 5" =
    Row " " {| Quantity := "1"; OreTypeID := "2"; SolarSystemID := "3";
               PlanetID := "4"; MoonID := "5" |} ∧
  classify " 1 2 3 4 5" = Noise.
Proof. repeat split; vm_compute; reflexivity. Qed.

(** ** Lines that are data rows *)

Lemma starGreedy_max {R} c (k : bytes → option R) pre rest res :
  Forall (fun a => inClass c a = true) pre → stops c rest →
  k rest = Some res → starGreedy c k (pre ++ rest) = Some res.
Proof.
  intros Hpre Hstop Hk. induction Hpre as [|a pre Ha _ IH]; simpl.
  - destruct rest as [|x rest]; [done|]. simpl in *. by rewrite Hstop.
  - by rewrite Ha, IH.
Qed.

Lemma starLazy_first {R} c (k : bytes → option R) pre rest res :
  Forall (fun a => inClass c a = true) pre →
  (∀ p p', pre = p ++ p' → p' ≠ [] → k (p' ++ rest) = None) →
  k rest = Some res → starLazy c k (pre ++ rest) = Some res.
Proof.
  intros Hpre. induction Hpre as [|a pre Ha _ IH]; intros Hnone Hk.
  - destruct rest; simpl; by rewrite Hk.
  - pose proof (Hnone [] (a :: pre) eq_refl ltac:(done)) as H0.
    simpl in *. rewrite H0, Ha.
    apply IH; [|done]. intros p p' -> Hp'. by apply (Hnone (a :: p) p').
Qed.

Lemma consumed_app pre rest : consumed (pre ++ rest) rest = pre.
Proof.
  unfold consumed. rewrite length_app.
  replace (length pre + length rest - length rest) with (length pre) by lia.
  by rewrite take_app_length.
Qed.

Lemma run_star_greedy c total pre rest caps k res :
  Forall (fun a => inClass c a = true) pre → stops c rest →
  k rest caps = Some res →
  run (Star true c) total (pre ++ rest) caps k = Some res.
Proof. intros. simpl. by apply starGreedy_max. Qed.

Lemma run_plus_greedy c total pre rest caps k res :
  pre ≠ [] → Forall (fun a => inClass c a = true) pre → stops c rest →
  k rest caps = Some res →
  run (Plus true c) total (pre ++ rest) caps k = Some res.
Proof.
  intros Hne Hpre Hstop Hk. destruct Hpre as [|a pre Ha Hpre]; [done|].
  simpl. rewrite Ha. by apply starGreedy_max.
Qed.

Lemma run_capture_plus i c total pre rest caps k res :
  pre ≠ [] → Forall (fun a => inClass c a = true) pre → stops c rest →
  k rest (<[i := pre]> caps) = Some res →
  run (Capture i (Plus true c)) total (pre ++ rest) caps k = Some res.
Proof.
  intros Hne Hpre Hstop Hk. cbn [run].
  apply (run_plus_greedy c total pre rest caps
           (fun rest' caps' => k rest' (<[i:=consumed (pre ++ rest) rest']> caps')));
    [done..|].
  by rewrite consumed_app.
Qed.

Lemma stops_gap c ws more :
  gap ws → (∀ x, isSpace x = true → inClass c x = false) →
  stops c (ws ++ more).
Proof.
  intros [Hne Hws] Hc. destruct Hws as [|x ws Hx _]; [done|]. simpl. auto.
Qed.

Lemma stops_spaces c ws :
  spaces ws → (∀ x, isSpace x = true → inClass c x = false) → stops c ws.
Proof. intros Hws Hc. destruct Hws as [|x ws Hx _]; simpl; auto. Qed.

Lemma space_not_digit x : isSpace x = true → inClass Digit x = false.
Proof. simpl. by destruct x as [[] [] [] [] [] [] [] []]. Qed.

Lemma stops_digits t more : t ≠ [] → digits t → stops Space (t ++ more).
Proof.
  intros Hne Ht. destruct Ht as [|x t Hx _]; [done|]. simpl.
  by apply isDigit_not_space.
Qed.

Lemma hasPrefix_gap ws more :
  gap ws → Strings.hasPrefix (ws ++ more) (bytesOf ".") = false.
Proof.
  intros [Hne Hws]. destruct Hws as [|x ws Hx _]; [done|]. simpl.
  apply andb_false_iff. left. apply byteEq_false. by intros ->.
Qed.

Lemma run_Cat r1 r2 total inp caps k :
  run (r1 ⋅ r2) total inp caps k =
    run r1 total inp caps (fun rest caps' => run r2 total rest caps' k).
Proof. reflexivity. Qed.

Lemma run_Capture i r total inp caps k :
  run (Capture i r) total inp caps k =
    run r total inp caps
      (fun rest caps' => k rest (<[i := consumed inp rest]> caps')).
Proof. reflexivity. Qed.

Lemma run_Quest r total inp caps k :
  run (Quest r) total inp caps k =
    match run r total inp caps k with
    | Some res => Some res
    | None => k inp caps
    end.
Proof. reflexivity. Qed.

Lemma run_Lit_dot total inp caps k :
  run (Lit ".") total ("."%char :: inp) caps k = k inp caps.
Proof. reflexivity. Qed.

Lemma run_Lit_no s total inp caps k :
  Strings.hasPrefix inp (bytesOf s) = false →
  run (Lit s) total inp caps k = None.
Proof. intros H. simpl. by rewrite H. Qed.

Lemma run_capture_decimal i total q ws more caps k res :
  isDecimal q = true → gap ws →
  k (ws ++ more) (<[i := q]> caps) = Some res →
  run (Capture i (Plus true Digit ⋅ Quest (Lit "." ⋅ Plus true Digit)))
    total (q ++ ws ++ more) caps k = Some res.
Proof.
  intros [[Hne Hq]|(int & f & -> & [Hine Hi] & [Hfne Hf])]%isDecimal_inv Hgap Hk.
  - rewrite run_Capture, run_Cat. apply run_plus_greedy; [done..| |].
    { apply stops_gap; [done|apply space_not_digit]. }
    rewrite run_Quest, run_Cat, run_Lit_no by by apply hasPrefix_gap.
    by rewrite consumed_app.
  - rewrite run_Capture, run_Cat. rewrite <- app_assoc.
    apply run_plus_greedy; [done..| |].
    { done. }
    rewrite run_Quest, run_Cat. cbn [app]. rewrite run_Lit_dot.
    erewrite run_plus_greedy; [done|done..| |].
    { apply stops_gap; [done|apply space_not_digit]. }
    replace (consumed _ _) with (int ++ "."%char :: f); [done|].
    rewrite <- (consumed_app (int ++ "."%char :: f) (ws ++ more)) at 1.
    by rewrite <- app_assoc.
Qed.

Lemma stops_Space_digits t more :
  isInteger t = true → stops Space (t ++ more).
Proof. intros [Hne Ht]%isInteger_digits. by apply stops_digits. Qed.

Lemma stops_Space_decimal q more :
  isDecimal q = true → stops Space (q ++ more).
Proof.
  intros [[Hne Hq]|(i & f & -> & [Hne Hi] & _)]%isDecimal_inv.
  - by apply stops_digits.
  - rewrite <- app_assoc. by apply stops_digits.
Qed.

(** The numeric fields are matched by the first try of every greedy
    repetition. *)
Lemma run_numbersTail total ws1 q ws2 a ws3 b ws4 c ws5 d ws6 caps k res :
  gap ws1 → isDecimal q = true → gap ws2 → isInteger a = true →
  gap ws3 → isInteger b = true → gap ws4 → isInteger c = true →
  gap ws5 → isInteger d = true → spaces ws6 →
  k [] (<[6 := d]> (<[5 := c]> (<[4 := b]> (<[3 := a]> (<[2 := q]> caps)))))
    = Some res →
  run numbersTail total
    (ws1 ++ q ++ ws2 ++ a ++ ws3 ++ b ++ ws4 ++ c ++ ws5 ++ d ++ ws6) caps k =
  Some res.
Proof.
  intros [? ?] Hq [? ?] [? ?]%isInteger_digits [? ?] [? ?]%isInteger_digits
    [? ?] [? ?]%isInteger_digits [? ?] [? ?]%isInteger_digits Hws6 Hk.
  unfold numbersTail.
  rewrite run_Cat. apply run_plus_greedy; [done..|by apply stops_Space_decimal|].
  rewrite run_Cat. apply run_capture_decimal; [done..|].
  rewrite run_Cat. apply run_plus_greedy; [done..|by apply stops_digits|].
  rewrite run_Cat. apply run_capture_plus; [done..| |].
  { apply stops_gap; [done|apply space_not_digit]. }
  rewrite run_Cat. apply run_plus_greedy; [done..|by apply stops_digits|].
  rewrite run_Cat. apply run_capture_plus; [done..| |].
  { apply stops_gap; [done|apply space_not_digit]. }
  rewrite run_Cat. apply run_plus_greedy; [done..|by apply stops_digits|].
  rewrite run_Cat. apply run_capture_plus; [done..| |].
  { apply stops_gap; [done|apply space_not_digit]. }
  rewrite run_Cat. apply run_plus_greedy; [done..|by apply stops_digits|].
  rewrite run_Cat. apply run_capture_plus; [done..| |].
  { apply stops_spaces; [done|apply space_not_digit]. }
  rewrite run_Cat. rewrite <- (app_nil_r ws6).
  apply run_star_greedy; [done..|]. exact Hk.
Qed.

Lemma fields_not_nil s x : x ∈ s → isSpace x = false → fields s ≠ [].
Proof.
  intros (s1 & s2 & ->)%list_elem_of_split Hx.
  induction s1 as [|c s1 IH].
  - by apply fields_head_word.
  - change ((c :: s1) ++ x :: s2) with (c :: (s1 ++ x :: s2)).
    cbn [fields]. destruct (isSpace c); [done|].
    destruct (s1 ++ x :: s2) as [|e s'] eqn:E; [done|].
    destruct (isSpace e); [done|]. by destruct (fields (e :: s')).
Qed.

Lemma run_BeginText total inp caps k :
  length inp = total → run BeginText total inp caps k = k inp caps.
Proof. intros H. simpl. by rewrite decide_True. Qed.

Lemma run_plus_lazy c total a pre rest caps k res :
  inClass c a = true → Forall (fun a => inClass c a = true) pre →
  (∀ p p', pre = p ++ p' → p' ≠ [] → k (p' ++ rest) caps = None) →
  k rest caps = Some res →
  run (Plus false c) total (a :: pre ++ rest) caps k = Some res.
Proof.
  intros Ha Hpre Hnone Hk. simpl. rewrite Ha.
  by apply (starLazy_first c (fun rest' => k rest' caps)).
Qed.

(** The match at the start of a data row: leading white space, the name
    up to the white space before the five numbers, and the numbers. *)
Lemma matchAt_rowLine ws0 name ws1 q ws2 a ws3 b ws4 c ws5 d ws6 :
  let line := rowLine ws0 name ws1 q ws2 a ws3 b ws4 c ws5 d ws6 in
  spaces ws0 → nameText name →
  gap ws1 → isDecimal q = true → gap ws2 → isInteger a = true →
  gap ws3 → isInteger b = true → gap ws4 → isInteger c = true →
  gap ws5 → isInteger d = true → spaces ws6 →
  matchAt productLineRe (length line) line = Some [line; name; q; a; b; c; d].
Proof.
  intros line Hws0 (Hany & (n0 & ntl & -> & Hn0) & (front & last & Hlast & Hl))
    G1 Hq G2 Ha G3 Hb G4 Hc G5 Hd Hws6.
  unfold matchAt. rewrite productLineRe_numbersTail.
  change (NumSubexp _) with 6. cbn [replicate].
  rewrite run_Cat, run_BeginText by done.
  rewrite run_Cat. unfold line, rowLine.
  apply run_star_greedy; [done|done|].
  rewrite run_Cat, run_Capture. cbn [app].
  inversion Hany as [|?? Hany0 Hanytl]; subst.
  apply run_plus_lazy; [done|done| |].
  - intros p p' -> Hp'.
    destruct (run numbersTail _ _ _ _) as [res|] eqn:E; [|done]. exfalso.
    apply run_sound in E as (pre & rest & caps' & Heq & Hden & _).
    apply numbersTail_tokens in Hden as (-> & q' & a' & b' & c' & d' & Htok & _).
    rewrite app_nil_r in Heq. subst pre.
    specialize (Htok []). simpl in Htok.
    rewrite fields_numbers in Htok by done.
    assert (fields p' ≠ []) as Hp'tok.
    { apply (fields_not_nil _ last); [|done].
      destruct p' as [|y p'' _] using rev_ind; [done|].
      rewrite app_comm_cons, app_assoc in Hlast.
      apply app_inj_tail in Hlast as [_ ->]. set_solver. }
    apply (f_equal length) in Htok. rewrite length_app in Htok.
    destruct (fields p'); [done|]. simpl in Htok. lia.
  - apply run_numbersTail; [done..|].
    change (n0 :: ntl ++ ?r) with ((n0 :: ntl) ++ r).
    rewrite consumed_app. unfold consumed. simpl.
    by rewrite Nat.sub_0_r, firstn_all.
Qed.

Lemma spaceCode_high c0 c1 c2 :
  (Strings.spaceCode c0 c1 c2 = 0 ∨
   Strings.spaceCode c0 c1 c2 = 2 ∧ (128 <= c1)%N ∨
   Strings.spaceCode c0 c1 c2 = 3 ∧ (128 <= c1)%N ∧ (128 <= c2)%N).
Proof.
  unfold Strings.spaceCode.
  repeat case_match; subst; simpl;
    repeat match goal with
    | H : (_ && _) = true |- _ => apply andb_true_iff in H as [? ?]
    | H : (_ || _) = true |- _ => apply orb_true_iff in H as [?|?]
    | H : (_ <=? _)%N = true |- _ => apply N.leb_le in H
    | H : (_ =? _)%N = true |- _ => apply N.eqb_eq in H
    end;
    first [ by left
          | right; left; split; [reflexivity|lia]
          | right; right; split; [reflexivity|split; lia] ].
Qed.

Lemma spaceRuneLen_blank s :
  Forall (fun a => blank a = true) (take (Strings.spaceRuneLen s) s).
Proof.
  unfold Strings.spaceRuneLen. destruct s as [|c0 rest]; [done|]. cbn [map].
  destruct (N_of_ascii c0 <? 128)%N eqn:E0.
  - rewrite ascii_N_embedding.
    destruct (Strings.asciiSpace c0) eqn:Es; [|done].
    repeat constructor. unfold blank. by rewrite Es.
  - apply N.ltb_ge in E0.
    assert (blank c0 = true) as Hc0.
    { unfold blank, highByte. apply orb_true_iff. right. by apply N.leb_le. }
    destruct rest as [|c1 [|c2 rest]]; cbn [map]; [done|..].
    + destruct (spaceCode_high (N_of_ascii c0) (N_of_ascii c1) 0)
        as [->|[[-> H1]|[_ [_ ?]]]]; [done| |lia].
      repeat constructor; [done|].
      unfold blank, highByte. apply orb_true_iff. right. by apply N.leb_le.
    + destruct (spaceCode_high (N_of_ascii c0) (N_of_ascii c1) (N_of_ascii c2))
        as [->|[[-> H1]|[-> [H1 H2]]]]; [done|..].
      * repeat constructor; [done|].
        unfold blank, highByte. apply orb_true_iff. right. by apply N.leb_le.
      * repeat constructor; [done|..];
          unfold blank, highByte; apply orb_true_iff; right; by apply N.leb_le.
Qed.

Lemma spaceRuneLenLast_blank r :
  Forall (fun a => blank a = true) (take (Strings.spaceRuneLenLast r) r).
Proof.
  unfold Strings.spaceRuneLenLast. destruct r as [|c0 rest]; [done|]. cbn [map].
  destruct (N_of_ascii c0 <? 128)%N eqn:E0.
  - rewrite ascii_N_embedding.
    destruct (Strings.asciiSpace c0) eqn:Es; [|done].
    repeat constructor. unfold blank. by rewrite Es.
  - apply N.ltb_ge in E0.
    assert (∀ c, (128 <= N_of_ascii c)%N → blank c = true) as Hhigh.
    { intros c Hc. unfold blank, highByte. apply orb_true_iff. right.
      by apply N.leb_le. }
    destruct rest as [|c1 [|c2 rest]]; cbn [map]; [done|..].
    + destruct (Nat.eqb_spec (Strings.spaceCode (N_of_ascii c1) (N_of_ascii c0) 0) 2)
        as [H2|_]; [|done].
      destruct (spaceCode_high (N_of_ascii c1) (N_of_ascii c0) 0)
        as [H|[[_ H1]|[H _]]]; [congruence| |congruence].
      repeat constructor; [by apply Hhigh|].
      unfold Strings.spaceCode in H2. revert H2.
      repeat case_match; try discriminate; intros _; apply Hhigh; lia.
    + destruct (Nat.eqb_spec (Strings.spaceCode (N_of_ascii c1) (N_of_ascii c0) 0) 2)
        as [H2|_].
      * repeat constructor; [by apply Hhigh|].
        unfold Strings.spaceCode in H2. revert H2.
        repeat case_match; try discriminate; intros _; apply Hhigh; lia.
      * destruct (Nat.eqb_spec
                    (Strings.spaceCode (N_of_ascii c2) (N_of_ascii c1) (N_of_ascii c0)) 3)
          as [H3|_]; [|done].
        destruct (spaceCode_high (N_of_ascii c2) (N_of_ascii c1) (N_of_ascii c0))
          as [H|[[H _]|[_ [H1 H2]]]]; [congruence..|].
        repeat constructor; [by apply Hhigh..|].
        unfold Strings.spaceCode in H3. revert H3.
        repeat case_match; try discriminate; intros _; apply Hhigh; lia.
Qed.

Lemma trimWith_blank width fuel s :
  (∀ s, Forall (fun a => blank a = true) (take (width s) s)) →
  ∃ pre, s = pre ++ Strings.trimWith width fuel s ∧
         Forall (fun a => blank a = true) pre.
Proof.
  intros Hw. revert s. induction fuel as [|fuel IH]; intros s; simpl.
  - by exists [].
  - destruct (width s) as [|n] eqn:E; [by exists []|].
    destruct (IH (skipn (S n) s)) as (pre & Heq & Hpre).
    exists (take (S n) s ++ pre). split.
    + rewrite <- app_assoc, <- Heq. symmetry. apply take_drop.
    + apply Forall_app. split; [|done]. rewrite <- E. apply Hw.
Qed.

Lemma trimSpaceBytes_nil s :
  Strings.trimSpaceBytes s = [] → Forall (fun a => blank a = true) s.
Proof.
  unfold Strings.trimSpaceBytes. cbn zeta.
  set (l := Strings.trimWith Strings.spaceRuneLen (length s) s).
  intros H.
  destruct (trimWith_blank Strings.spaceRuneLen (length s) s spaceRuneLen_blank)
    as (pre & Heq & Hpre). fold l in Heq.
  destruct (trimWith_blank Strings.spaceRuneLenLast (length l) (rev l)
              spaceRuneLenLast_blank) as (pre' & Heq' & Hpre').
  apply (f_equal (@rev ascii)) in H. rewrite rev_involutive in H. simpl in H.
  rewrite H, app_nil_r in Heq'.
  rewrite Heq. apply Forall_app. split; [done|].
  rewrite <- (rev_involutive l), Heq'. by apply List.Forall_rev.
Qed.

Lemma digit_not_blank a : isDigit a = true → blank a = false.
Proof. by destruct a as [[] [] [] [] [] [] [] []]. Qed.

Lemma stringOf_nil l : stringOf l = "" → l = [].
Proof. by destruct l. Qed.

(** A line that holds a digit is not blank. *)
Lemma TrimSpace_digit (line : string) a :
  a ∈ bytesOf line → isDigit a = true → Strings.TrimSpace line ≠ "".
Proof.
  intros Hin Ha Hblank%stringOf_nil%trimSpaceBytes_nil.
  eapply (proj1 (Forall_forall _ _)) in Hblank; [|done].
  by rewrite digit_not_blank in Hblank.
Qed.

Lemma search_first re total inp caps :
  matchAt re total inp = Some caps → search re total inp = Some caps.
Proof. intros H. destruct inp; simpl; by rewrite H. Qed.

Lemma FindStringSubmatch_row (line : string)
    ws0 name ws1 q ws2 a ws3 b ws4 c ws5 d ws6 :
  bytesOf line = rowLine ws0 name ws1 q ws2 a ws3 b ws4 c ws5 d ws6 →
  spaces ws0 → nameText name →
  gap ws1 → isDecimal q = true → gap ws2 → isInteger a = true →
  gap ws3 → isInteger b = true → gap ws4 → isInteger c = true →
  gap ws5 → isInteger d = true → spaces ws6 →
  FindStringSubmatch productLineRe line =
    [line; stringOf name; stringOf q; stringOf a; stringOf b; stringOf c;
     stringOf d] ∧
  FindStringSubmatch moonLineRe line = [].
Proof.
  intros Hline Hws0 Hname G1 Hq G2 Ha G3 Hb G4 Hc G5 Hd Hws6. split.
  - unfold FindStringSubmatch. rewrite Hline.
    rewrite (search_first _ _ _ _ (matchAt_rowLine ws0 name ws1 q ws2 a ws3 b
               ws4 c ws5 d ws6 Hws0 Hname G1 Hq G2 Ha G3 Hb G4 Hc G5 Hd Hws6)).
    cbn [map]. by rewrite <- Hline, stringOf_bytesOf.
  - destruct (FindStringSubmatch moonLineRe line) eqn:E; [done|]. exfalso.
    assert (FindStringSubmatch moonLineRe line ≠ []) as Hm by by rewrite E.
    apply FindStringSubmatch_sound in Hm as (skipped & pre & rest & Heq & Hden).
    apply (moonLineRe_tokens _ skipped) in Hden as (front & ds & Htok & _).
    rewrite <- Heq, Hline in Htok. unfold rowLine in Htok.
    rewrite (app_assoc ws0 name), fields_numbers in Htok by done.
    change [q; a; b; c; d] with ([q; a; b] ++ [c; d]) in Htok.
    rewrite app_assoc in Htok.
    apply app_inj_2 in Htok as [_ [= -> _]]; [|done].
    by vm_compute in Hc.
Qed.

(** A line of the shape of a data row is recorded, under the name that
    stands before the five numbers. *)
Theorem loopBody_records (st : loopState) (rawLine : string)
    ws0 name ws1 q ws2 a ws3 b ws4 c ws5 d ws6 :
  bytesOf (Strings.TrimRight rawLine CR) =
    rowLine ws0 name ws1 q ws2 a ws3 b ws4 c ws5 d ws6 →
  spaces ws0 → nameText name →
  gap ws1 → isDecimal q = true → gap ws2 → isInteger a = true →
  gap ws3 → isInteger b = true → gap ws4 → isInteger c = true →
  gap ws5 → isInteger d = true → spaces ws6 →
  Strings.Contains (Strings.TrimSpace (Strings.TrimRight rawLine CR))
    "Moon Product" = false →
  let data := {| Quantity := stringOf q; OreTypeID := stringOf a;
                 SolarSystemID := stringOf b; PlanetID := stringOf c;
                 MoonID := stringOf d |} in
  classify rawLine = Row (stringOf name) data ∧
  fields (bytesOf rawLine) = fields name ++ [q; a; b; c; d] ∧
  ∀ products,
    currentMoon st ≠ "" → result st !! currentMoon st = Some products →
    loopBody st rawLine =
      Ok {| result := <[currentMoon st := <[stringOf name := data]> products]>
                        (result st);
            currentMoon := currentMoon st |}.
Proof.
  intros Hline Hws0 Hname G1 Hq G2 Ha G3 Hb G4 Hc G5 Hd Hws6 Hmarker data.
  destruct (FindStringSubmatch_row _ _ _ _ _ _ _ _ _ _ _ _ _ _ Hline Hws0 Hname
              G1 Hq G2 Ha G3 Hb G4 Hc G5 Hd Hws6) as [Hrow Hmoon].
  assert (classify rawLine = Row (stringOf name) data) as Hclass.
  { unfold classify. cbn zeta. rewrite decide_False, Hmarker, Hmoon, Hrow; [done|].
    apply isInteger_digits in Hd as [Hne Hdig].
    destruct Hdig as [|x d Hx Hdig]; [done|].
    apply (TrimSpace_digit _ x); [|done]. rewrite Hline. unfold rowLine.
    set_solver. }
  split; [done|]. split.
  - rewrite <- fields_TrimRight, Hline. unfold rowLine.
    rewrite (app_assoc ws0 name), fields_numbers by done.
    by rewrite fields_spaces_l.
  - intros products Hcur Hprod. rewrite loopBody_act, Hclass.
    + simpl. rewrite decide_False by done. by rewrite Hprod.
    + intros _. by rewrite Hprod.
Qed.

(** The row of the documentation: the name is "Flawless Arkonor". *)
Example loopBody_records_readme :
  classify
    "Flawless Arkonor    0.323762148619    46678    30004923    40311969    40311985" =
    Row "Flawless Arkonor"
      {| Quantity := "0.323762148619"; OreTypeID := "46678";
         SolarSystemID := "30004923"; PlanetID := "40311969";
         MoonID := "40311985" |}.
Proof.
  apply (loopBody_records initial
           "Flawless Arkonor    0.323762148619    46678    30004923    40311969    40311985"
           [] (bytesOf "Flawless Arkonor") (bytesOf "    ")
           (bytesOf "0.323762148619") (bytesOf "    ")
           (bytesOf "46678") (bytesOf "    ") (bytesOf "30004923")
           (bytesOf "    ") (bytesOf "40311969") (bytesOf "    ")
           (bytesOf "40311985") []);
    try (by vm_compute); try (split; [done|by repeat constructor]).
  split; [by repeat constructor|]. split.
  - by eexists _, _.
  - by exists (bytesOf "Flawless Arkono"), "r"%char.
Qed.

(** * Properties of the watcher *)

Lemma emit_bind {A} (e : event) (k : io A) :
  (emit e;; k) = (k.1, e :: k.2).
Proof. by destruct k. Qed.

Lemma failures_le cb remaining attempt :
  failures cb remaining attempt ≤ remaining.
Proof.
  revert attempt. induction remaining as [|r IH]; intros attempt; simpl; [done|].
  destruct (decide _); [lia|]. specialize (IH (S attempt)). lia.
Qed.

Lemma failures_all cb remaining attempt :
  failures cb remaining attempt = remaining ↔
  ∀ i, i < remaining → openClipboard cb (attempt + i) = 0%Z.
Proof.
  revert attempt. induction remaining as [|r IH]; intros attempt; simpl.
  - split; [lia|done].
  - destruct (decide _) as [Hne|Heq%dec_stable].
    + split; [done|]. intros H. exfalso. apply Hne.
      rewrite <- (Nat.add_0_r attempt). apply H. lia.
    + split.
      * intros [= H] [|i] Hi; [by rewrite Nat.add_0_r|].
        apply (proj1 (IH _)) with (i := i) in H; [|lia].
        by rewrite <- Nat.add_succ_comm.
      * intros H. f_equal. apply IH. intros i Hi.
        rewrite Nat.add_succ_comm. apply H. lia.
Qed.

Lemma failures_first cb remaining attempt k :
  k < remaining →
  (∀ i, i < k → openClipboard cb (attempt + i) = 0%Z) →
  openClipboard cb (attempt + k) ≠ 0%Z →
  failures cb remaining attempt = k.
Proof.
  revert attempt k. induction remaining as [|r IH]; intros attempt k Hk Hfail Hok;
    [lia|]. simpl. destruct (decide _) as [Hne|Heq%dec_stable].
  - destruct k as [|k]; [done|]. exfalso. apply Hne.
    rewrite <- (Nat.add_0_r attempt). apply Hfail. lia.
  - destruct k as [|k]; [by rewrite Nat.add_0_r in Hok|]. f_equal.
    apply IH; [lia|..].
    + intros i Hi. rewrite Nat.add_succ_comm. apply Hfail. lia.
    + by rewrite Nat.add_succ_comm.
Qed.

(** The retry loop: [k] failures with their delays, then the successful
    attempt if there is one among the [remaining]. *)
Lemma openLoop_spec cb remaining attempt lastErr :
  let k := failures cb remaining attempt in
  (openLoop cb remaining attempt lastErr).1.1 = bool_decide (k < remaining) ∧
  (openLoop cb remaining attempt lastErr).2 =
    backoff attempt k ++
    if bool_decide (k < remaining)
    then [Call "OpenClipboard" (Some (openClipboard cb (attempt + k)))]
    else [].
Proof.
  revert attempt lastErr.
  induction remaining as [|r IH]; intros attempt lastErr; [done|].
  cbn [openLoop failures]. rewrite emit_bind.
  destruct (decide (openClipboard cb attempt ≠ 0%Z)) as [Hne|Heq%dec_stable].
  - simpl. by rewrite Nat.add_0_r.
  - rewrite emit_bind. cbn [fst snd].
    destruct (IH (S attempt) (Some "OpenClipboard failed")) as [IH1 IH2].
    rewrite IH1, IH2. split.
    + apply bool_decide_ext. lia.
    + rewrite Heq. unfold backoff. simpl. do 3 f_equal.
      rewrite <- plus_n_Sm.
      by rewrite (bool_decide_ext (S (failures cb r (S attempt)) < S r)
                    (failures cb r (S attempt) < r)) by lia.
Qed.

Lemma io_bind_eq {A B} (m : io A) (f : A → io B) :
  (m ≫= f) = ((f m.1).1, m.2 ++ (f m.1).2).
Proof. unfold mbind, io_bind. by destruct (f m.1). Qed.

Lemma readClipboardText_unfold cb :
  readClipboardText cb =
    let k := failures cb maxAttempts 0 in
    let first := Call "IsClipboardFormatAvailable" (Some (formatAvailable cb)) in
    if decide (formatAvailable cb = 0%Z)
    then (Ok ("", Some "no CF_UNICODETEXT available"), [first])
    else if bool_decide (k < maxAttempts)
    then ((readOpened cb).1,
          first :: backoff 0 k ++
            Call "OpenClipboard" (Some (openClipboard cb k)) ::
            (readOpened cb).2)
    else (Ok ("", Some "OpenClipboard failed after 5 attempts"),
          first :: backoff 0 k).
Proof.
  unfold readClipboardText. rewrite emit_bind. cbn zeta.
  destruct (decide (formatAvailable cb = 0%Z)); [done|].
  rewrite io_bind_eq.
  destruct (openLoop_spec cb maxAttempts 0 None) as [H1 H2].
  cbn zeta in H1, H2. set (k := failures cb maxAttempts 0) in *.
  destruct (openLoop cb maxAttempts 0 None) as [[opened lastErr] evs].
  cbn [fst snd] in H1, H2. subst opened evs. cbn [fst snd].
  destruct (bool_decide (k < maxAttempts)); cbn [negb].
  - fold (readOpened cb). cbn [fst snd]. by rewrite <- app_assoc.
  - cbn [mret io_ret fst snd]. by rewrite !app_nil_r.
Qed.

Lemma readOpened_ok cb :
  clipboardData cb ≠ 0%Z → globalLock cb ≠ 0%Z →
  readOpened cb =
    (text ← utf16PtrToString (Some (memory cb)); Ok (text, None),
     [Call "GetClipboardData" (Some (clipboardData cb));
      Call "GlobalLock" (Some (globalLock cb));
      Call "GlobalUnlock" None; Call "CloseClipboard" None]).
Proof.
  intros Hd Hl. unfold readOpened. cbn zeta.
  rewrite emit_bind, decide_False by done.
  rewrite emit_bind, decide_False by done.
  by rewrite !emit_bind.
Qed.

Lemma readOpened_events cb :
  attempts (readOpened cb).2 = 0 ∧ delays (readOpened cb).2 = [] ∧
  invoked (readOpened cb).2 = [].
Proof.
  unfold readOpened. cbn zeta. rewrite emit_bind.
  destruct (decide (clipboardData cb = 0%Z)); [by rewrite emit_bind|].
  rewrite emit_bind.
  destruct (decide (globalLock cb = 0%Z)); by rewrite !emit_bind.
Qed.

Lemma attempts_app l1 l2 : attempts (l1 ++ l2) = attempts l1 + attempts l2.
Proof. unfold attempts. by rewrite List.filter_app, length_app. Qed.

Lemma delays_app l1 l2 : delays (l1 ++ l2) = delays l1 ++ delays l2.
Proof. apply omap_app. Qed.

Lemma invoked_app l1 l2 : invoked (l1 ++ l2) = invoked l1 ++ invoked l2.
Proof. apply omap_app. Qed.

Lemma backoff_events attempt k :
  attempts (backoff attempt k) = k ∧
  delays (backoff attempt k) =
    map (fun i => (10 * Z.shiftl 1 (Z.of_nat i))%Z) (seq attempt k) ∧
  invoked (backoff attempt k) = [].
Proof.
  revert attempt. induction k as [|k IH]; intros attempt; [done|].
  destruct (IH (S attempt)) as (IH1 & IH2 & IH3).
  unfold backoff in *. simpl.
  unfold attempts, delays, invoked in *. simpl.
  by rewrite IH1, IH2, IH3.
Qed.

(** ** The bound of the array *)

Lemma untilNUL_panic u n msg :
  untilNUL u n = Panic msg ↔
  msg = "index out of range" ∧
  ∃ pre rest, u = pre ++ rest ∧ Forall (fun x => x ≠ 0%Z) pre ∧
    (arrayLen ≤ n + N.of_nat (length pre))%N.
Proof.
  split.
  - revert n. induction u as [|x u IH]; intros n; simpl.
    + destruct (N.leb_spec arrayLen n) as [Hn|Hn]; [|done]. intros [= <-].
      split; [done|]. exists [], []. split; [done|]. split; [done|].
      simpl. lia.
    + destruct (N.leb_spec arrayLen n) as [Hn|Hn].
      * intros [= <-]. split; [done|]. exists [], (x :: u).
        split; [done|]. split; [done|]. simpl. lia.
      * destruct (decide (x = 0%Z)) as [|Hx]; [done|].
        destruct (untilNUL u (n + 1)) as [units|m] eqn:E; [done|].
        intros [= ->]. destruct (IH _ E) as (-> & pre & rest & -> & Hpre & Hlen).
        split; [done|]. exists (x :: pre), rest. split; [done|].
        split; [by constructor|]. simpl. lia.
  - intros (-> & pre & rest & -> & Hpre & Hlen). revert n Hlen.
    induction Hpre as [|x pre Hx Hpre IH]; intros n Hlen.
    + simpl in Hlen. destruct rest as [|y rest]; simpl;
        by destruct (N.leb_spec arrayLen n); [|lia].
    + cbn [app untilNUL]. destruct (N.leb_spec arrayLen n); [done|].
      rewrite decide_False by done. rewrite IH; [done|]. simpl in Hlen. lia.
Qed.

Lemma utf16PtrToString_panic u msg :
  utf16PtrToString (Some u) = Panic msg ↔
  msg = "index out of range" ∧ unterminated u.
Proof.
  unfold utf16PtrToString, unterminated.
  destruct (untilNUL u 0) as [units|m] eqn:E; simpl.
  - split; [done|]. intros [-> (pre & rest & Hu & Hpre & Hlen)].
    assert (untilNUL u 0 = Panic "index out of range") as E'.
    { apply untilNUL_panic. split; [done|]. exists pre, rest.
      by rewrite N.add_0_l. }
    congruence.
  - apply untilNUL_panic in E as (-> & pre & rest & Hu & Hpre & Hlen).
    rewrite N.add_0_l in Hlen.
    split; [intros [= <-]; split; [done|by exists pre, rest]|by intros [-> _]].
Qed.

Lemma utf16PtrToString_cases u :
  (∃ text, utf16PtrToString (Some u) = Ok text) ∨
  (utf16PtrToString (Some u) = Panic "index out of range" ∧ unterminated u).
Proof.
  destruct (utf16PtrToString (Some u)) as [text|msg] eqn:E; [left; by eexists|].
  right. apply utf16PtrToString_panic in E as [-> H]. done.
Qed.

Lemma short_terminated u :
  (N.of_nat (length u) < arrayLen)%N → ¬ unterminated u.
Proof.
  intros Hshort (pre & rest & -> & _ & Hlong).
  rewrite length_app in Hshort. lia.
Qed.



Lemma readClipboardText_events cb :
  attempts (readClipboardText cb).2 ≤ 5 ∧
  delays (readClipboardText cb).2 `prefix_of` [10; 20; 40; 80; 160]%Z ∧
  invoked (readClipboardText cb).2 = [].
Proof.
  rewrite readClipboardText_unfold. cbn zeta.
  pose proof (failures_le cb maxAttempts 0) as Hk.
  set (k := failures cb maxAttempts 0) in *.
  destruct (decide (formatAvailable cb = 0%Z)).
  { split; [compute; lia|]. split; [by exists [10; 20; 40; 80; 160]%Z|done]. }
  destruct (readOpened_events cb) as (Ha & Hd & Hi).
  destruct (backoff_events 0 k) as (Ba & Bd & Bi).
  unfold maxAttempts in *.
  case_bool_decide as Hlt; cbn [fst snd].
  - change (attempts (?e :: ?l)) with (attempts l).
    change (delays (?e :: ?l)) with (delays l).
    change (invoked (?e :: ?l)) with (invoked l).
    rewrite attempts_app, delays_app, invoked_app.
    change (attempts (?e :: ?l)) with (S (attempts l)).
    change (delays (?e :: ?l)) with (delays l).
    change (invoked (?e :: ?l)) with (invoked l).
    rewrite Ha, Hd, Hi, Ba, Bd, Bi.
    split; [lia|]. split; [|done]. rewrite app_nil_r.
    destruct k as [|[|[|[|[|k]]]]]; [| | | | |lia]; simpl; by eexists.
  - change (attempts (?e :: ?l)) with (attempts l).
    change (delays (?e :: ?l)) with (delays l).
    change (invoked (?e :: ?l)) with (invoked l).
    rewrite Ba, Bd, Bi.
    assert (k = 5) as -> by lia.
    split; [lia|]. split; [|done]. by exists [].
Qed.

Lemma wndProc_update handler msg :
  Message msg = WM_CLIPBOARDUPDATE →
  wndProc (Some handler) msg =
    let read := readClipboardText (answers msg) in
    match read.1 with
    | Ok (text, None) =>
        ((0%Z, (handler text).1), read.2 ++ Invoke text :: (handler text).2)
    | Ok (_, Some _) => ((0%Z, Returned), read.2)
    | Panic _ => ((0%Z, Panicked), read.2)
    end.
Proof.
  intros Hmsg. unfold wndProc. rewrite decide_True by done.
  rewrite io_bind_eq. cbn zeta.
  destruct (readClipboardText (answers msg)) as [[[text [err|]]|m] evs];
    cbn [fst snd].
  - by rewrite app_nil_r.
  - rewrite emit_bind, io_bind_eq. cbn [fst snd mret io_ret].
    by rewrite app_nil_r.
  - by rewrite app_nil_r.
Qed.

(** [Watch] refuses a nil handler; once the window is registered it runs
    the message loop. *)
Lemma Watch_nil reg script :
  Watch None reg script =
    (WatchReturns (Some "clipboardwatcher: handler must not be nil"), []).
Proof. reflexivity. Qed.

Lemma Watch_registered handler reg script :
  classNameError reg = None → moduleHandleError reg = None →
  registerClassEx reg ≠ 0%Z → createWindowEx reg ≠ 0%Z →
  addClipboardFormatListener reg ≠ 0%Z →
  Watch (Some handler) reg script =
    ((messageLoop (Some handler) script).1,
     [Call "RegisterClassExW" (Some (registerClassEx reg));
      Call "CreateWindowExW" (Some (createWindowEx reg));
      Call "AddClipboardFormatListener" (Some (addClipboardFormatListener reg))]
     ++ (messageLoop (Some handler) script).2).
Proof.
  intros Hname Hmod Hreg Hwnd Hadd. unfold Watch. rewrite Hname, Hmod.
  cbn zeta. rewrite emit_bind, decide_False by done.
  rewrite emit_bind, decide_False by done.
  rewrite emit_bind, decide_False by done. done.
Qed.

(** ** The retry policy *)

Lemma backoff_schedule k : k ≤ 5 → backoff 0 k = take (2 * k) retrySchedule.
Proof.
  intros Hk. destruct k as [|[|[|[|[|[|k]]]]]]; [reflexivity..|lia].
Qed.

Lemma failures_exact cb k :
  k ≤ 5 → (∀ i, i < k → openClipboard cb i = 0%Z) →
  (k < 5 → openClipboard cb k ≠ 0%Z) → failures cb maxAttempts 0 = k.
Proof.
  intros Hk Hfail Hok. destruct (decide (k < 5)) as [Hlt|Hge].
  - apply failures_first; [done|done|]. by apply Hok.
  - assert (k = 5) as -> by lia. by apply (failures_all cb maxAttempts 0).
Qed.

(** C7: when the text format is available and the first [k] attempts to
    open the clipboard fail (and the next one, if [k] is less than five,
    succeeds), the events of the extraction sequence are the test of the
    format, then [k] times a failed attempt followed by its delay (10,
    20, 40, 80 and 160 ms, in this order), then the successful attempt if
    there is one and the calls that read the data, with no further
    attempt or delay: there are at most five attempts, and every delay
    stands between the failed attempt and the next one. With four
    failures the sequence has slept 10+20+40+80 = 150 ms before the
    successful attempt, and (the data handle and the lock not being
    null) it yields what the conversion of the text yields: a decoded
    string for every text that ends within the array, as every block of
    memory shorter than the array does. With five
    failures it returns an error after the five delays, and the window
    procedure returns 0 without invoking the handler and without a
    panic. *)
Theorem readClipboardText_retry (cb : clipboard) (k : nat) :
  formatAvailable cb ≠ 0%Z →
  k ≤ 5 →
  (∀ i, i < k → openClipboard cb i = 0%Z) →
  (k < 5 → openClipboard cb k ≠ 0%Z) →
  let read := readClipboardText cb in
  (∃ after,
     read.2 =
       Call "IsClipboardFormatAvailable" (Some (formatAvailable cb)) ::
       take (2 * k) retrySchedule ++ after ∧
     (k < 5 →
      ∃ after', after = Call "OpenClipboard" (Some (openClipboard cb k)) :: after' ∧
        attempts after' = 0 ∧ delays after' = []) ∧
     (k = 5 → after = [])) ∧
  attempts read.2 = Nat.min (S k) 5 ∧
  delays read.2 = take k [10; 20; 40; 80; 160]%Z ∧
  (k = 4 →
   slept (take (2 * k) retrySchedule) = 150%Z ∧
   (clipboardData cb ≠ 0%Z → globalLock cb ≠ 0%Z →
    read.1 = (text ← utf16PtrToString (Some (memory cb)); Ok (text, None)) ∧
    (¬ unterminated (memory cb) →
     ∃ text, utf16PtrToString (Some (memory cb)) = Ok text ∧
       read.1 = Ok (text, None)) ∧
    ((N.of_nat (length (memory cb)) < arrayLen)%N →
     ¬ unterminated (memory cb)))) ∧
  (k = 5 →
   read.1 = Ok ("", Some "OpenClipboard failed after 5 attempts") ∧
   ∀ handler msg,
     Message msg = WM_CLIPBOARDUPDATE → answers msg = cb →
     wndProc (Some handler) msg = ((0%Z, Returned), read.2)).
Proof.
  intros Hf Hk Hfail Hok read.
  pose proof (failures_exact cb k Hk Hfail Hok) as Hfailures.
  assert (read =
            if bool_decide (k < maxAttempts)
            then ((readOpened cb).1,
                  Call "IsClipboardFormatAvailable" (Some (formatAvailable cb)) ::
                  take (2 * k) retrySchedule ++
                  Call "OpenClipboard" (Some (openClipboard cb k)) ::
                  (readOpened cb).2)
            else (Ok ("", Some "OpenClipboard failed after 5 attempts"),
                  Call "IsClipboardFormatAvailable" (Some (formatAvailable cb)) ::
                  take (2 * k) retrySchedule)) as Hread.
  { unfold read. rewrite readClipboardText_unfold. cbn zeta.
    rewrite Hfailures, decide_False by done. by rewrite backoff_schedule. }
  destruct (readOpened_events cb) as (Ha & Hd & _).
  unfold maxAttempts in Hread.
  assert (attempts (take (2 * k) retrySchedule) = k ∧
          delays (take (2 * k) retrySchedule) = take k [10; 20; 40; 80; 160]%Z)
    as [Hsa Hsd].
  { destruct k as [|[|[|[|[|[|k]]]]]]; [by split..|lia]. }
  case_bool_decide as Hlt; rewrite Hread; cbn [fst snd].
  - split; [|split; [|split; [|split]]].
    + eexists. split; [reflexivity|]. split; [|lia].
      intros _. by eexists.
    + change (attempts (?e :: ?l)) with (attempts l).
      rewrite attempts_app, Hsa.
      change (attempts (?e :: ?l)) with (S (attempts l)). rewrite Ha. lia.
    + change (delays (?e :: ?l)) with (delays l).
      rewrite delays_app, Hsd.
      change (delays (?e :: ?l)) with (delays l). by rewrite Hd, app_nil_r.
    + intros ->. split; [reflexivity|]. intros Hdata Hlock.
      rewrite readOpened_ok by done. cbn [fst]. split; [done|]. split.
      * intros Hend.
        destruct (utf16PtrToString_cases (memory cb)) as [[text Htext]|[_ H]];
          [|done].
        exists text. by rewrite Htext.
      * apply short_terminated.
    + lia.
  - assert (k = 5) as -> by lia.
    split; [|split; [|split; [|split]]].
    + exists []. rewrite app_nil_r. split; [done|]. split; [lia|done].
    + reflexivity.
    + reflexivity.
    + done.
    + intros _. split; [done|]. intros handler msg Hmsg <-.
      rewrite wndProc_update by done. cbn zeta. fold read. by rewrite Hread.
Qed.

Lemma readClipboardText_retry_witness :
  (readClipboardText fifthAttempt).1 = Ok ("Moon", None) ∧
  (readClipboardText fifthAttempt).2 =
    [Call "IsClipboardFormatAvailable" (Some 1%Z);
     Call "OpenClipboard" (Some 0%Z); Sleep 10;
     Call "OpenClipboard" (Some 0%Z); Sleep 20;
     Call "OpenClipboard" (Some 0%Z); Sleep 40;
     Call "OpenClipboard" (Some 0%Z); Sleep 80;
     Call "OpenClipboard" (Some 1%Z);
     Call "GetClipboardData" (Some 1%Z); Call "GlobalLock" (Some 1%Z);
     Call "GlobalUnlock" None; Call "CloseClipboard" None].
Proof.
  assert (∀ i, i < 4 → openClipboard fifthAttempt i = 0%Z) as Hfail.
  { intros i Hi. simpl. by rewrite (proj2 (Nat.ltb_lt i 4) Hi). }
  destruct (readClipboardText_retry fifthAttempt 4 ltac:(by compute)
              ltac:(lia) Hfail ltac:(by compute))
    as ((after & Hevents & _ & _) & _ & _ & H & _).
  destruct (H eq_refl) as [_ Hread].
  destruct (Hread ltac:(by compute) ltac:(by compute)) as [Hresult _].
  split; [rewrite Hresult; by vm_compute|by vm_compute].
Defined.

(** ** Failed extractions *)







(** * Determinism of the parser

    The table that [ParseMoons] returns is a reference to map objects
    that the function has allocated and filled in place. The function on
    the heap computes what the function on tables does, in objects of its
    own, and leaves the rest of the heap alone. *)

Lemma represents_tableAt h0 h r t : represents h0 h r t → Heap.tableAt h r = t.
Proof.
  intros (groups & Hr & _ & _ & Hsome & Hnone & _). unfold Heap.tableAt.
  rewrite Hr. apply map_eq. intros moon. rewrite lookup_omap.
  destruct (groups !! moon) as [a|] eqn:E; simpl.
  - destruct (Hsome moon a E) as (_ & _ & items & -> & ->). done.
  - by rewrite Hnone.
Qed.

Lemma represents_frame h0 h1 h2 r t :
  represents h0 h1 r t → (∀ a, a ∈ dom h1 → h2 !! a = h1 !! a) →
  represents h0 h2 r t.
Proof.
  intros (groups & Hr & Hfresh & Hframe & Hsome & Hnone & Hinj) H12.
  exists groups. split; [rewrite H12; [done|by apply elem_of_dom]|].
  split; [done|]. split.
  { intros a Ha. rewrite H12; [by apply Hframe|].
    apply elem_of_dom. rewrite Hframe by done. by apply elem_of_dom. }
  split; [|done]. intros moon a E.
  destruct (Hsome moon a E) as (? & ? & items & Hi & Ht).
  split; [done|]. split; [done|]. exists items. split; [|done].
  rewrite H12; [done|by apply elem_of_dom].
Qed.

Lemma represents_make allocate h :
  Heap.freshAllocator allocate →
  represents h (Heap.make allocate (Heap.Groups ∅) h).2
    (Heap.make allocate (Heap.Groups ∅) h).1 ∅.
Proof.
  intros Hfresh. unfold Heap.make. cbn [fst snd]. exists ∅.
  split; [by rewrite lookup_insert_eq|]. split; [by apply Hfresh|].
  split.
  { intros a Ha. rewrite lookup_insert_ne; [done|]. intros <-.
    by apply (Hfresh h). }
  done.
Qed.

Lemma loopBody_heap allocate h0 h r st rawLine :
  Heap.freshAllocator allocate →
  represents h0 h r (result st) →
  match loopBody st rawLine with
  | Ok st' =>
      ∃ h', Heap.loopBody allocate r h (currentMoon st) rawLine =
              Ok (h', currentMoon st') ∧
            represents h0 h' r (result st')
  | Panic msg =>
      Heap.loopBody allocate r h (currentMoon st) rawLine = Panic msg
  end.
Proof.
  intros Hfresh Hrep.
  pose proof Hrep as (groups & Hr & Hr0 & Hframe & Hsome & Hnone & Hinj).
  unfold loopBody, Heap.loopBody. cbn zeta.
  destruct (decide (Strings.TrimSpace _ = "")); [by exists h|].
  destruct (Strings.Contains _ _); [by exists h|].
  destruct (decide (length (FindStringSubmatch moonLineRe _) = 2)).
  - destruct (index _ 1) as [moon|msg]; [|done]. cbn [mbind outcome_bind].
    unfold Heap.groupsAt. rewrite Hr. cbn [mbind outcome_bind].
    destruct (groups !! moon) as [a|] eqn:E.
    + destruct (Hsome moon a E) as (_ & _ & items & _ & ->).
      exists h. split; [done|]. exact Hrep.
    + rewrite (Hnone moon E). unfold Heap.make.
      set (a := allocate h). pose proof (Hfresh h) as Ha. fold a in Ha.
      assert (a ≠ r) as Har.
      { intros Heq. apply Ha, elem_of_dom. by rewrite Heq, Hr. }
      eexists. split; [done|]. cbn [result]. exists (<[moon := a]> groups).
      split; [by rewrite lookup_insert_eq|]. split; [done|].
      split.
      { intros b Hb. assert (b ∈ dom h) as Hbh.
        { apply elem_of_dom. rewrite Hframe by done. by apply elem_of_dom. }
        rewrite !lookup_insert_ne; [by apply Hframe|congruence..]. }
      split.
      { intros moon' b. destruct (decide (moon = moon')) as [<-|Hne].
        - rewrite lookup_insert_eq. intros [= <-].
          split.
          { intros Hb. apply Ha, elem_of_dom. rewrite Hframe by done.
            by apply elem_of_dom. }
          split; [done|]. exists ∅.
          rewrite lookup_insert_ne, !lookup_insert_eq by done. done.
        - rewrite lookup_insert_ne by done. intros E'.
          destruct (Hsome moon' b E') as (? & ? & items & Hi & Ht).
          split; [done|]. split; [done|]. exists items.
          rewrite !lookup_insert_ne; [done|done| |done].
          intros <-. apply Ha, elem_of_dom. by rewrite Hi. }
      split.
      { intros moon'. destruct (decide (moon = moon')) as [<-|Hne].
        - by rewrite lookup_insert_eq.
        - rewrite !lookup_insert_ne by done. apply Hnone. }
      intros m1 m2 b.
      destruct (decide (moon = m1)) as [<-|H1];
        destruct (decide (moon = m2)) as [<-|H2];
        rewrite ?lookup_insert_eq, ?lookup_insert_ne by done; [done|..].
      * intros [= <-] E'. destruct (Hsome m2 a E') as (_ & _ & items & Hi & _).
        exfalso. apply Ha, elem_of_dom. by rewrite Hi.
      * intros E' [= <-]. destruct (Hsome m1 a E') as (_ & _ & items & Hi & _).
        exfalso. apply Ha, elem_of_dom. by rewrite Hi.
      * apply Hinj.
  - destruct (decide (currentMoon st = "")); [by exists h|].
    destruct (decide (length (FindStringSubmatch productLineRe _) = 7));
      [|by exists h].
    destruct (index _ 1) as [product|msg]; [|done]. cbn [mbind outcome_bind].
    destruct (index _ 2) as [quantity|msg]; [|done]. cbn [mbind outcome_bind].
    destruct (index _ 3) as [oreTypeID|msg]; [|done]. cbn [mbind outcome_bind].
    destruct (index _ 4) as [solarSystemID|msg]; [|done]. cbn [mbind outcome_bind].
    destruct (index _ 5) as [planetID|msg]; [|done]. cbn [mbind outcome_bind].
    destruct (index _ 6) as [moonID|msg]; [|done]. cbn [mbind outcome_bind].
    unfold Heap.groupsAt. rewrite Hr. cbn [mbind outcome_bind].
    destruct (groups !! currentMoon st) as [a|] eqn:E.
    + destruct (Hsome _ a E) as (Ha0 & Har & items & Hi & ->).
      unfold Heap.itemsAt. rewrite Hi. cbn [mbind outcome_bind].
      eexists. split; [done|]. cbn [result]. exists groups.
      split; [by rewrite lookup_insert_ne|]. split; [done|].
      split.
      { intros b Hb. rewrite lookup_insert_ne; [by apply Hframe|congruence]. }
      split.
      { intros moon' b E'.
        destruct (Hsome moon' b E') as (? & ? & items' & Hi' & Ht').
        split; [done|]. split; [done|].
        destruct (decide (moon' = currentMoon st)) as [->|Hne].
        - rewrite E in E'. injection E' as <-.
          eexists. by rewrite !lookup_insert_eq.
        - exists items'. rewrite !lookup_insert_ne; [done|done|].
          intros <-. apply Hne. by apply (Hinj _ _ a). }
      split; [|done].
      intros moon' E'. rewrite lookup_insert_ne; [by apply Hnone|].
      intros <-. congruence.
    + by rewrite (Hnone _ E).
Qed.

Lemma loop_heap allocate h0 h r st lines :
  Heap.freshAllocator allocate →
  represents h0 h r (result st) →
  match loop st lines with
  | Ok st' =>
      ∃ h', Heap.loop allocate r h (currentMoon st) lines =
              Ok (h', currentMoon st') ∧
            represents h0 h' r (result st')
  | Panic msg => Heap.loop allocate r h (currentMoon st) lines = Panic msg
  end.
Proof.
  intros Hfresh. revert h st.
  induction lines as [|l lines IH]; intros h st Hrep; cbn [loop Heap.loop].
  - by exists h.
  - pose proof (loopBody_heap allocate h0 h r st l Hfresh Hrep) as Hbody.
    destruct (loopBody st l) as [st'|msg]; cbn [mbind outcome_bind].
    + destruct Hbody as (h' & -> & Hrep'). cbn [mbind outcome_bind].
      by apply IH.
    + by rewrite Hbody.
Qed.

Lemma ParseMoons_heap allocate h input :
  Heap.freshAllocator allocate →
  ∃ r h' table,
    Heap.ParseMoons allocate h input = Ok (r, None, h') ∧
    ParseMoons input = Ok (table, None) ∧
    represents h h' r table.
Proof.
  intros Hfresh. destruct (ParseMoons_total input) as [table Hpure].
  pose proof Hpure as Htable.
  pose proof (represents_make allocate h Hfresh) as Hrep.
  unfold Heap.ParseMoons. unfold ParseMoons in Htable.
  destruct (Heap.make allocate (Heap.Groups ∅) h) as [r h0]. cbn [fst snd] in Hrep.
  pose proof (loop_heap allocate h h0 r {| result := ∅; currentMoon := "" |}
                (Strings.Split input LF) Hfresh Hrep) as Hloop.
  destruct (loop _ _) as [st'|msg]; [|done]. cbn [mbind outcome_bind] in Htable.
  injection Htable as <-. destruct Hloop as (h' & Hloop & Hrep').
  cbn [currentMoon] in Hloop. rewrite Hloop. cbn [mbind outcome_bind].
  exists r, h', (result st'). split; [done|]. by split.
Qed.

(** C9: two invocations of [ParseMoons] on the same text, one after the
    other, both return, whatever the heap holds before and whatever
    addresses the allocator chooses: they return two distinct map
    objects that stand for the same table (the same group keys, the same
    item keys in each group, the same five field values in each record),
    the second invocation leaves the table of the first as it is, and
    the objects that were there before are unchanged. The table is the
    one of every other invocation on this text, in any heap and with any
    allocator. *)
Theorem ParseMoons_deterministic (allocate : Heap.heap → Heap.addr)
    (h : Heap.heap) (input : string) :
  Heap.freshAllocator allocate →
  ∃ t1 t2 h',
    Heap.parseTwice allocate h input = Ok (t1, t2, h') ∧
    t1 ≠ t2 ∧
    Heap.tableAt h' t1 = Heap.tableAt h' t2 ∧
    sameTables (Heap.tableAt h' t1) (Heap.tableAt h' t2) ∧
    ParseMoons input = Ok (Heap.tableAt h' t1, None) ∧
    (∀ a, a ∈ dom h → h' !! a = h !! a) ∧
    (∀ allocate2 h2,
       Heap.freshAllocator allocate2 →
       ∃ t h2', Heap.ParseMoons allocate2 h2 input = Ok (t, None, h2') ∧
                Heap.tableAt h2' t = Heap.tableAt h' t1).
Proof.
  intros Hfresh. unfold Heap.parseTwice.
  destruct (ParseMoons_heap allocate h input Hfresh)
    as (t1 & h1 & table & -> & Hpure & Hrep1).
  cbn [mbind outcome_bind snd].
  destruct (ParseMoons_heap allocate h1 input Hfresh)
    as (t2 & h2 & table' & -> & Hpure' & Hrep2).
  cbn [mbind outcome_bind fst snd].
  assert (table' = table) as -> by congruence.
  pose proof Hrep2 as (_ & _ & Ht2 & Hframe2 & _).
  pose proof Hrep1 as (groups1 & Ht1 & _ & Hframe1 & _).
  assert (Heap.tableAt h2 t1 = table) as H1.
  { apply (represents_tableAt h). by apply (represents_frame h h1). }
  assert (Heap.tableAt h2 t2 = table) as H2 by by apply (represents_tableAt h1).
  exists t1, t2, h2. split; [done|]. split.
  { intros <-. apply Ht2, elem_of_dom. by rewrite Ht1. }
  rewrite H1, H2. split; [done|]. split.
  { split; [done|]. intros moon items1 items2 E1 E2.
    assert (items1 = items2) as -> by congruence. split; [done|].
    intros product d1 d2 D1 D2. assert (d1 = d2) as -> by congruence. done. }
  split; [done|]. split.
  { intros a Ha. rewrite Hframe2; [by apply Hframe1|].
    apply elem_of_dom. rewrite Hframe1 by done. by apply elem_of_dom. }
  intros allocate2 h0 Hfresh2.
  destruct (ParseMoons_heap allocate2 h0 input Hfresh2)
    as (t & h0' & table2 & -> & Hpure2 & Hrep).
  exists t, h0'. split; [done|].
  assert (table2 = table) as -> by congruence.
  by apply (represents_tableAt h0).
Qed.

Lemma nextAddr_fresh : Heap.freshAllocator nextAddr.
Proof. intros h. unfold nextAddr. apply is_fresh. Qed.

Lemma ParseMoons_deterministic_witness :
  ∃ t1 t2 h',
    Heap.parseTwice nextAddr ∅ readmeInput = Ok (t1, t2, h') ∧
    t1 ≠ t2 ∧
    Heap.tableAt h' t1 = Heap.tableAt h' t2 ∧
    sameTables (Heap.tableAt h' t1) (Heap.tableAt h' t2) ∧
    ParseMoons readmeInput = Ok (Heap.tableAt h' t1, None) ∧
    (∀ a, a ∈ dom (∅ : Heap.heap) → h' !! a = (∅ : Heap.heap) !! a) ∧
    (∀ allocate2 h2,
       Heap.freshAllocator allocate2 →
       ∃ t h2', Heap.ParseMoons allocate2 h2 readmeInput = Ok (t, None, h2') ∧
                Heap.tableAt h2' t = Heap.tableAt h' t1).
Proof.
  apply (ParseMoons_deterministic nextAddr ∅ readmeInput).
  apply nextAddr_fresh.
Defined.

(** On the example of the documentation the two invocations return two
    distinct map objects, each with a group object of its own. *)
Example parseTwice_readme :
  ∃ h',
    Heap.parseTwice nextAddr ∅ readmeInput = Ok (1%positive, 3%positive, h') ∧
    h' !! 1%positive =
      Some (Heap.Groups {[ "66-PMM V - Moon 15" := 2%positive ]}) ∧
    h' !! 3%positive =
      Some (Heap.Groups {[ "66-PMM V - Moon 15" := 4%positive ]}).
Proof.
  eexists. split; [vm_compute; reflexivity|].
  split; vm_compute; reflexivity.
Qed.

(** * Properties of the handler *)

(** ** The fatal branch *)

Lemma calm_ret : calm (mret Returned).
Proof. done. Qed.

Lemma calm_emit e k :
  fatal [e] = [] → calm k → calm (emit e;; k).
Proof.
  intros He [Hk1 Hk2]. rewrite emit_bind. split; [done|].
  cbn [snd]. change (e :: k.2) with ([e] ++ k.2).
  unfold fatal in *. by rewrite omap_app, He, Hk2.
Qed.

Lemma calm_send env req : calm (send env req).
Proof.
  unfold send. apply calm_emit; [done|].
  destruct (roundTrip env req) as [code|];
    [destruct (decide _)|]; apply calm_emit; done.
Qed.

(** C10: in the revision that checks the error of [ParseMoons], the
    handler returns for every clipboard text, options and collaborators:
    the branch with [log.Fatalf] is never taken, and the process is not
    ended by it. *)
Theorem handler_never_fatal
    (env : collaborators) (opts : Options) (text : string) :
  (Part000.handler env opts text).1 = Returned ∧
  fatal (Part000.handler env opts text).2 = [].
Proof.
  change (calm (Part000.handler env opts text)).
  unfold Part000.handler. apply calm_emit; [done|].
  destruct (looksLikeMoonScan text); [|done].
  apply calm_emit; [done|]. rewrite ParseMoons_act.
  destruct (jsonMarshal env _) as [payload [jsErr|]];
    [by apply calm_emit|].
  do 2 (apply calm_emit; [done|]).
  destruct (bool_decide (APIEndpoint opts ≠ "")); [|done].
  apply calm_emit; [done|]. unfold NewRequest.
  destruct (urlParses env _); [apply calm_send | by apply calm_emit].
Qed.

(** ** When the upload happens *)

Ltac not_in_events :=
  let H := fresh in
  intros H;
  repeat (apply elem_of_cons in H as [H|H]; [discriminate H|]);
  by apply elem_of_nil in H.

Lemma send_unfold env req :
  ∃ report, send env req = (Returned, [Do req; Log report]) ∧
            report ≠ "Uploading data".
Proof.
  unfold send. rewrite emit_bind.
  destruct (roundTrip env req) as [code|]; [destruct (decide _)|];
    rewrite emit_bind; by eexists.
Qed.

(** In the revision without a name the upload is started exactly when
    the endpoint is set; the token only adds the Authorization header. *)
Theorem Part000_upload_iff_endpoint
    (env : collaborators) (opts : Options) (text : string)
    (data : MoonProducts) (payload : string) :
  looksLikeMoonScan text = true →
  ParseMoons text = Ok (data, None) →
  jsonMarshal env data = (payload, None) →
  let events := (Part000.handler env opts text).2 in
  (uploadStarted events ↔ APIEndpoint opts ≠ "") ∧
  (APIEndpoint opts = "" → requests events = []) ∧
  (APIEndpoint opts ≠ "" → urlParses env (APIEndpoint opts) = true →
   requests events =
     [{| Method := "POST"; URL := APIEndpoint opts; Body := payload;
         ReqHeader :=
           if decide (APIToken opts = "")
           then {[ "Content-Type" := "application/json" ]}
           else <["Authorization" := "Bearer " +:+ APIToken opts]>
                  {[ "Content-Type" := "application/json" ]} |}]).
Proof.
  intros Hlook Hparse Hjson. unfold Part000.handler.
  rewrite Hlook, Hparse, Hjson. unfold uploadStarted.
  case_bool_decide as Hend; rewrite !emit_bind; cbn [fst snd].
  - unfold NewRequest. destruct (urlParses env (APIEndpoint opts)).
    + match goal with |- context [send env ?r] =>
        destruct (send_unfold env r) as (report & -> & Hreport) end.
      cbn [fst snd]. split; [split; [by intros _|]; intros _; set_solver|].
      split; [done|]. intros _ _. cbn. unfold HeaderSet. cbn.
      destruct (decide (APIToken opts = "")) as [Htok|Htok].
      * by rewrite bool_decide_eq_false_2 by (by intros ?).
      * by rewrite bool_decide_eq_true_2.
    + cbv beta iota. rewrite ?emit_bind. cbn [fst snd].
      split; [split; [by intros _|]; intros _; set_solver|]. done.
  - split; [|done]. split; [|done]. not_in_events.
Qed.

(** In cmd/goosniffer/main.go the upload is started only when the token
    and the endpoint are both set. *)
Theorem MainGo_upload_iff_token_and_endpoint
    (env : collaborators) (opts : Options) (text : string)
    (data : MoonProducts) (err : option string) (payload : string) :
  looksLikeMoonScan text = true →
  ParseMoons text = Ok (data, err) →
  jsonMarshal env data = (payload, None) →
  let events := (MainGo.handler env opts text).2 in
  (uploadStarted events ↔ APIToken opts ≠ "" ∧ APIEndpoint opts ≠ "") ∧
  (APIToken opts = "" → requests events = []).
Proof.
  intros Hlook Hparse Hjson. unfold MainGo.handler.
  rewrite Hlook, Hparse, Hjson. unfold uploadStarted.
  case_bool_decide as Htok; [case_bool_decide as Hend|];
    cbn [andb]; rewrite !emit_bind; cbn [fst snd].
  - split; [|done]. split; [by intros _|]. intros _.
    unfold NewRequest. destruct (urlParses env (APIEndpoint opts));
      rewrite ?emit_bind; set_solver.
  - split; [|done]. split; [|tauto]. not_in_events.
  - split; [|done]. split; [|tauto]. not_in_events.
Qed.

(** C2: with an endpoint and no token, on a text that is recognized as a
    moon scan and with collaborators that succeed, the handler of
    cmd/goosniffer/main.go parses and prints but sends nothing, while the
    other revision posts the payload with the Content-Type header and no
    Authorization header. *)
Theorem upload_without_token :
  looksLikeMoonScan scanText = true ∧
  MainGo.handler allGood endpointOnly scanText =
    (Returned,
     [Log "Clipboard changed"; Log "Possible moon scan data detected";
      Log "Moon scan parsed:"; Println "{}"]) ∧
  Part000.handler allGood endpointOnly scanText =
    (Returned,
     [Log "Clipboard changed"; Log "Possible moon scan data detected";
      Log "Moon scan parsed:"; Println "{}"; Log "Uploading data";
      Do {| Method := "POST"; URL := "https://example.com/api/moonscan";
            Body := "{}";
            ReqHeader := {[ "Content-Type" := "application/json" ]} |};
      Log "Moon scan posted to %s (status %s, %d bytes)"]).
Proof. split; [|split]; vm_compute; reflexivity. Qed.

(** * Further properties of the parser *)

(** ** Submatches *)

Lemma run_captured r total inp caps k res :
  run r total inp caps k = Some res →
  ∃ pre rest caps', inp = pre ++ rest ∧
    captured r total pre rest caps caps' ∧ k rest caps' = Some res.
Proof.
  revert inp caps k.
  induction r as [s|c|g c|g c|r IH|r1 IH1 r2 IH2|i r IH| |];
    intros inp caps k; simpl.
  - destruct (Strings.hasPrefix inp (bytesOf s)) eqn:E; [|done].
    intros Hk. exists (bytesOf s), (drop (length (bytesOf s)) inp), caps.
    split; [by apply hasPrefix_app|done].
  - destruct inp as [|a inp]; [done|].
    destruct (inClass c a) eqn:Ea; [|done].
    intros Hk. exists [a], inp, caps. split; [done|].
    split; [|done]. split; [by exists a|done].
  - intros (pre & rest & -> & Hpre & Hk)%star_sound. by exists pre, rest, caps.
  - destruct inp as [|a inp]; [done|].
    destruct (inClass c a) eqn:Ea; [|done].
    intros (pre & rest & -> & Hpre & Hk)%star_sound.
    exists (a :: pre), rest, caps. split; [done|].
    split; [|done]. split; [|done]. split; [done|by constructor].
  - destruct (run r total inp caps k) as [res'|] eqn:E.
    + intros [= ->]. destruct (IH _ _ _ E) as (pre & rest & caps' & ? & ? & ?).
      exists pre, rest, caps'. split; [done|]. split; [by right|done].
    + intros Hk. exists [], inp, caps. split; [done|]. split; [by left|done].
  - intros (p1 & rest1 & caps1 & -> & H1 & Hk1)%IH1.
    apply IH2 in Hk1 as (p2 & rest & caps2 & -> & H2 & Hk).
    exists (p1 ++ p2), rest, caps2. split; [by rewrite app_assoc|].
    split; [|done]. by exists p1, p2, caps1.
  - intros (pre & rest & caps' & -> & Hr & Hk)%IH.
    rewrite consumed_app in Hk.
    exists pre, rest, (<[i:=pre]> caps'). split; [done|].
    split; [by exists caps'|done].
  - destruct (decide (length inp = total)); [|done].
    intros Hk. by exists [], inp, caps.
  - destruct inp; [|done]. intros Hk. by exists [], [], caps.
Qed.

Lemma captured_denote r total pre rest caps caps' :
  captured r total pre rest caps caps' → denote r total pre rest.
Proof.
  revert pre rest caps caps'.
  induction r as [s|c|g c|g c|r IH|r1 IH1 r2 IH2|i r IH| |];
    intros pre rest caps caps'; simpl; try tauto.
  - intros [[-> _]|H]; [by left|right; eauto].
  - intros (p1 & p2 & mid & -> & H1 & H2). exists p1, p2. eauto.
  - intros (mid & H & _). eauto.
Qed.

Lemma matchAt_captured re total inp m :
  matchAt re total inp = Some m →
  ∃ pre rest caps,
    inp = pre ++ rest ∧
    captured re total pre rest (replicate (S (NumSubexp re)) []) caps ∧
    m = <[0 := pre]> caps.
Proof.
  intros (pre & rest & caps & -> & Hcap & [= <-])%run_captured.
  exists pre, rest, caps. by rewrite consumed_app.
Qed.

(** The submatches of a match: the text before it, the matched text and
    the groups. *)
Lemma FindStringSubmatch_captured re s :
  FindStringSubmatch re s ≠ [] →
  ∃ skipped pre rest caps,
    bytesOf s = skipped ++ pre ++ rest ∧
    captured re (length (bytesOf s)) pre rest
      (replicate (S (NumSubexp re)) []) caps ∧
    FindStringSubmatch re s = map stringOf (<[0 := pre]> caps).
Proof.
  unfold FindStringSubmatch.
  generalize (length (bytesOf s)) as total. intros total.
  induction (bytesOf s) as [|a inp IH]; simpl.
  - destruct (matchAt re total []) as [m|] eqn:E; [|done]. intros _.
    apply matchAt_captured in E as (pre & rest & caps & Heq & Hcap & ->).
    by exists [], pre, rest, caps.
  - destruct (matchAt re total (a :: inp)) as [m|] eqn:E.
    + intros _.
      apply matchAt_captured in E as (pre & rest & caps & Heq & Hcap & ->).
      by exists [], pre, rest, caps.
    + intros (skipped & pre & rest & caps & -> & Hcap & Hm)%IH.
      by exists (a :: skipped), pre, rest, caps.
Qed.

Lemma captured_plain r total pre rest caps caps' :
  NumSubexp r = 0 → captured r total pre rest caps caps' →
  denote r total pre rest ∧ caps' = caps.
Proof.
  revert pre rest caps caps'.
  induction r as [s|c|g c|g c|r IH|r1 IH1 r2 IH2|i r IH| |];
    intros pre rest caps caps' Hn; simpl in *; try done.
  - intros [[-> ->]|H]; [by split; [left|]|].
    apply IH in H as [? ->]; [|done]. by split; [right|].
  - intros (p1 & p2 & mid & -> & H1 & H2).
    apply IH1 in H1 as [? ->]; [|lia]. apply IH2 in H2 as [? ->]; [|lia].
    split; [|done]. by exists p1, p2.
Qed.

Lemma captured_group i r total pre rest caps caps' :
  NumSubexp r = 0 → captured (Capture i r) total pre rest caps caps' →
  denote r total pre rest ∧ caps' = <[i := pre]> caps.
Proof.
  intros Hn (mid & [Hden ->]%captured_plain & ->); done.
Qed.

(** The submatches of [productLineRe]: the whole line, the name and the
    five numeric tokens after it. *)
Lemma productLineRe_submatches (line : string) :
  FindStringSubmatch productLineRe line ≠ [] →
  ∃ ws0 name ws1 q ws2 a ws3 b ws4 c ws5 d ws6,
    bytesOf line = rowLine ws0 name ws1 q ws2 a ws3 b ws4 c ws5 d ws6 ∧
    spaces ws0 ∧
    (name ≠ [] ∧ Forall (fun x => inClass AnyCharNotNL x = true) name) ∧
    gap ws1 ∧ isDecimal q = true ∧ gap ws2 ∧ isInteger a = true ∧
    gap ws3 ∧ isInteger b = true ∧ gap ws4 ∧ isInteger c = true ∧
    gap ws5 ∧ isInteger d = true ∧ spaces ws6 ∧
    FindStringSubmatch productLineRe line =
      [line; stringOf name; stringOf q; stringOf a; stringOf b; stringOf c;
       stringOf d].
Proof.
  intros (skipped & pre & rest & caps & Hline & Hcap & ->)%FindStringSubmatch_captured.
  change (NumSubexp productLineRe) with 6 in Hcap. cbn [replicate] in Hcap.
  unfold productLineRe in Hcap.
  destruct Hcap as (? & ? & ? & -> & [[-> Hlen] ->] & H).
  destruct H as (ws0 & ? & ? & -> & [Hws0 ->] & H).
  destruct H as (name & ? & ? & -> & [Hname ->]%captured_group & H); [|done].
  destruct H as (ws1 & ? & ? & -> & [G1 ->] & H).
  destruct H as (q & ? & ? & -> & [(_ & _ & Hq)%decimal_shape ->]%captured_group & H);
    [|done].
  destruct H as (ws2 & ? & ? & -> & [G2 ->] & H).
  destruct H as (a & ? & ? & -> & [(_ & _ & Ha)%integer_shape ->]%captured_group & H);
    [|done].
  destruct H as (ws3 & ? & ? & -> & [G3 ->] & H).
  destruct H as (b & ? & ? & -> & [(_ & _ & Hb)%integer_shape ->]%captured_group & H);
    [|done].
  destruct H as (ws4 & ? & ? & -> & [G4 ->] & H).
  destruct H as (c & ? & ? & -> & [(_ & _ & Hc)%integer_shape ->]%captured_group & H);
    [|done].
  destruct H as (ws5 & ? & ? & -> & [G5 ->] & H).
  destruct H as (d & ? & ? & -> & [(_ & _ & Hd)%integer_shape ->]%captured_group & H);
    [|done].
  destruct H as (ws6 & ? & ? & -> & [Hws6 ->] & [[-> ->] ->]).
  simpl in Hws0, Hws6.
  rewrite Hline, !length_app in Hlen.
  destruct skipped; [|simpl in Hlen; lia].
  rewrite !app_nil_r in Hline. cbn [app] in Hline.
  exists ws0, name, ws1, q, ws2, a, ws3, b, ws4, c, ws5, d, ws6.
  repeat (split; [done|]).
  simpl. rewrite !app_nil_r. unfold rowLine in Hline.
  by rewrite <- Hline, stringOf_bytesOf.
Qed.

(** The submatches of [moonLineRe]: the whole line and the group name,
    some text followed by " - Moon " and digits. *)
Lemma moonLineRe_submatches (line : string) :
  FindStringSubmatch moonLineRe line ≠ [] →
  ∃ ws0 text ds ws1,
    bytesOf line = ws0 ++ (text ++ bytesOf " - Moon " ++ ds) ++ ws1 ∧
    spaces ws0 ∧
    (text ≠ [] ∧ Forall (fun x => inClass AnyCharNotNL x = true) text) ∧
    isInteger ds = true ∧ spaces ws1 ∧
    FindStringSubmatch moonLineRe line =
      [line; stringOf (text ++ bytesOf " - Moon " ++ ds)].
Proof.
  intros (skipped & pre & rest & caps & Hline & Hcap & ->)%FindStringSubmatch_captured.
  change (NumSubexp moonLineRe) with 1 in Hcap. cbn [replicate] in Hcap.
  unfold moonLineRe in Hcap.
  destruct Hcap as (? & ? & ? & -> & [[-> Hlen] ->] & H).
  destruct H as (ws0 & ? & ? & -> & [Hws0 ->] & H).
  destruct H as (group & ? & ? & -> & [Hgroup ->]%captured_group & H); [|done].
  destruct H as (ws1 & ? & ? & -> & [Hws1 ->] & [[-> ->] ->]).
  destruct Hgroup as (text & ? & -> & Htext & lit & ds & -> & -> & Hds).
  apply integer_shape in Hds as (_ & _ & Hds).
  simpl in Hws0, Hws1.
  rewrite Hline, !length_app in Hlen.
  destruct skipped; [|simpl in Hlen; lia].
  rewrite !app_nil_r in Hline. cbn [app] in Hline.
  exists ws0, text, ds, ws1. repeat (split; [done|]).
  rewrite !app_nil_r.
  remember (text ++ bytesOf " - Moon " ++ ds) as group eqn:Hgroup.
  change ([] ++ ws0 ++ group ++ ws1) with (ws0 ++ group ++ ws1).
  rewrite <- Hline. cbn. by rewrite stringOf_bytesOf.
Qed.

(** ** Completeness of the matcher *)

Section StarComplete.
Context {R : Type} (c : class) (k : bytes → option R).

Lemma starGreedy_complete pre rest :
  Forall (fun a => inClass c a = true) pre → is_Some (k rest) →
  is_Some (starGreedy c k (pre ++ rest)).
Proof.
  intros Hpre Hk. induction Hpre as [|a pre Ha Hpre IH]; simpl.
  - destruct rest as [|b rest]; simpl; [done|].
    destruct (inClass c b); [|done]. by destruct (starGreedy c k rest).
  - rewrite Ha. by destruct IH as [r ->].
Qed.

Lemma starLazy_complete pre rest :
  Forall (fun a => inClass c a = true) pre → is_Some (k rest) →
  is_Some (starLazy c k (pre ++ rest)).
Proof.
  intros Hpre Hk. induction Hpre as [|a pre Ha Hpre IH]; simpl.
  - destruct Hk as [r Hk]. destruct rest; simpl; by rewrite Hk.
  - destruct (k (a :: pre ++ rest)); [done|]. by rewrite Ha.
Qed.

Lemma star_complete g pre rest :
  Forall (fun a => inClass c a = true) pre → is_Some (k rest) →
  is_Some (star g c k (pre ++ rest)).
Proof. destruct g; [apply starGreedy_complete | apply starLazy_complete]. Qed.
End StarComplete.

Lemma hasPrefix_here p rest : Strings.hasPrefix (p ++ rest) p = true.
Proof.
  induction p as [|b p IH]; simpl; [done|].
  rewrite IH, andb_true_r. by apply byteEq_true.
Qed.

(** The matcher finds a match whenever the text has one. *)
Lemma run_complete r total pre rest caps caps' k :
  captured r total pre rest caps caps' → is_Some (k rest caps') →
  is_Some (run r total (pre ++ rest) caps k).
Proof.
  revert pre rest caps caps' k.
  induction r as [s|c|g c|g c|r IH|r1 IH1 r2 IH2|i r IH| |];
    intros pre rest caps caps' k; simpl.
  - intros [-> ->] Hk. rewrite hasPrefix_here.
    by rewrite drop_app_length.
  - intros [(a & -> & Ha) ->] Hk. simpl. by rewrite Ha.
  - intros [Hpre ->] Hk. by apply (star_complete c (fun rest => k rest caps)).
  - intros [[Hne Hpre] ->] Hk. destruct Hpre as [|a pre Ha Hpre]; [done|].
    simpl. rewrite Ha. by apply (star_complete c (fun rest => k rest caps)).
  - intros H Hk. destruct (run r total (pre ++ rest) caps k) eqn:E; [done|].
    destruct H as [[-> ->]|H]; [done|].
    apply (IH _ _ _ _ k) in H; [|done]. rewrite E in H. by destruct H.
  - intros (p1 & p2 & mid & -> & H1 & H2) Hk. rewrite <- app_assoc.
    eapply IH1; [done|]. by eapply IH2.
  - intros (mid & H & ->) Hk. eapply IH; [done|]. by rewrite consumed_app.
  - intros [[-> Hlen] ->] Hk. simpl. by rewrite decide_True.
  - intros [[-> ->] ->] Hk. done.
Qed.

(** ** Group headers *)

Lemma app_spaces_unique (a a' ws ws' : bytes) x x' front front' :
  a ++ ws = a' ++ ws' → spaces ws → spaces ws' →
  a = front ++ [x] → isSpace x = false →
  a' = front' ++ [x'] → isSpace x' = false →
  a = a' ∧ ws = ws'.
Proof.
  intros Heq Hws Hws' -> Hx -> Hx'.
  apply app_eq_app in Heq as [l [[H1 H2]|[H1 H2]]].
  - destruct l as [|y l _] using rev_ind.
    { rewrite app_nil_r in H1. by rewrite H1, H2. }
    rewrite app_assoc in H1. apply app_inj_tail in H1 as [_ ->].
    rewrite H2, !Forall_app, Forall_singleton in Hws'.
    destruct Hws' as [[_ Hy] _]. congruence.
  - destruct l as [|y l _] using rev_ind.
    { rewrite app_nil_r in H1. by rewrite H1, H2. }
    rewrite app_assoc in H1. apply app_inj_tail in H1 as [_ ->].
    rewrite H2, !Forall_app, Forall_singleton in Hws.
    destruct Hws as [[_ Hy] _]. congruence.
Qed.

Lemma consumed_all l : consumed l [] = l.
Proof. unfold consumed. simpl. rewrite Nat.sub_0_r. apply firstn_all. Qed.

Lemma matchAt_headerLine ws0 text ds ws1 :
  let name := text ++ bytesOf " - Moon " ++ ds in
  let line := ws0 ++ name ++ ws1 in
  spaces ws0 → headText text → isInteger ds = true → spaces ws1 →
  matchAt moonLineRe (length line) line = Some [line; name].
Proof.
  intros name line Hws0 [Htext (first & rest & Hfirst & Hsp)] Hds Hws1.
  apply isInteger_digits in Hds as [Hne Hds].
  assert (∃ front x, name = front ++ [x] ∧ isSpace x = false)
    as (front & x & Hname & Hx).
  { destruct ds as [|d ds' _] using rev_ind; [done|].
    exists (text ++ bytesOf " - Moon " ++ ds'), d. split.
    - unfold name. by rewrite <- !app_assoc.
    - rewrite Forall_app, Forall_singleton in Hds.
      apply isDigit_not_space, Hds. }
  unfold matchAt. change (NumSubexp moonLineRe) with 1. cbn [replicate].
  unfold moonLineRe. rewrite run_Cat, run_BeginText by done.
  rewrite run_Cat. unfold line at 1.
  set (k := fun (rest : bytes) (caps : list bytes) =>
              Some (<[0 := consumed line rest]> caps)).
  set (tail := Capture 1 (Plus true AnyCharNotNL ⋅ Lit " - Moon " ⋅ Plus true Digit) ⋅
                 Star true Space ⋅ EndText).
  assert (captured tail (length line) (name ++ ws1) [] [[]; []]
            (<[1 := name]> [[]; []])) as Hcap.
  { exists name, ws1, (<[1 := name]> [[]; []]).
    split; [by rewrite ?app_nil_r|]. split.
    - exists [[]; []]. split; [|done].
      exists text, (bytesOf " - Moon " ++ ds), [[]; []].
      split; [done|]. split.
      { split; [|done]. split; [by rewrite Hfirst|done]. }
      exists (bytesOf " - Moon "), ds, [[]; []].
      split; [done|]. split; [done|]. done.
    - exists ws1, [], (<[1 := name]> [[]; []]).
      split; [by rewrite ?app_nil_r|]. split; [done|]. done. }
  apply run_star_greedy; [done| |].
  { unfold name. rewrite Hfirst. exact Hsp. }
  destruct (run_complete tail (length line) (name ++ ws1) [] [[]; []] _ k Hcap)
    as [m Hm]; [done|].
  rewrite app_nil_r in Hm. rewrite Hm. f_equal.
  apply run_captured in Hm as (pre & rest' & caps' & Heq & Hc & Hk).
  destruct Hc as (name' & ? & ? & -> & [Hname' ->]%captured_group & H); [|done].
  destruct H as (ws1' & ? & ? & -> & [Hws1' ->] & [[-> ->] ->]).
  destruct Hname' as (text' & ? & -> & Htext' & lit & ds' & -> & -> & Hne' & Hds').
  rewrite !app_nil_r in Heq. simpl in Hws1'.
  destruct ds' as [|d' ds'' _] using rev_ind; [done|].
  destruct (app_spaces_unique name (text' ++ bytesOf " - Moon " ++ ds'' ++ [d'])
              ws1 ws1' x d' front (text' ++ bytesOf " - Moon " ++ ds''))
    as [Hn _]; try done.
  - by rewrite <- !app_assoc.
  - rewrite Forall_app, Forall_singleton in Hds'.
    apply isDigit_not_space, Hds'.
  - rewrite <- Hn in Hk. unfold k in Hk. injection Hk as <-.
    by rewrite consumed_all.
Qed.

(** ** The marker of the column header *)

Lemma hasPrefix_spec s p :
  Strings.hasPrefix s p = true ↔ ∃ b, s = p ++ b.
Proof.
  split.
  - intros H%hasPrefix_app. by eexists.
  - intros [b ->]. induction p as [|c p IH]; simpl; [done|].
    rewrite IH, andb_true_r. by apply byteEq_true.
Qed.

Lemma containsBytes_spec s sub :
  Strings.containsBytes s sub = true ↔ ∃ a b, s = a ++ sub ++ b.
Proof.
  induction s as [|c s IH].
  - simpl. rewrite orb_false_r, hasPrefix_spec. split.
    + intros [b Hb]. by exists [], b.
    + intros (a & b & H). destruct a; [by exists b|done].
  - cbn [Strings.containsBytes]. rewrite orb_true_iff, hasPrefix_spec, IH. split.
    + intros [[b Hb]|(a & b & ->)]; [by exists [], b|by exists (c :: a), b].
    + intros (a & b & H). destruct a as [|x a].
      * left. by exists b.
      * right. injection H as -> ->. by exists a, b.
Qed.

Lemma trimSpaceBytes_split s :
  ∃ pre post, s = pre ++ Strings.trimSpaceBytes s ++ post ∧
    Forall (fun a => blank a = true) pre ∧ Forall (fun a => blank a = true) post.
Proof.
  unfold Strings.trimSpaceBytes.
  destruct (trimWith_blank Strings.spaceRuneLen (length s) s spaceRuneLen_blank)
    as (pre & Hs & Hpre).
  set (l := Strings.trimWith Strings.spaceRuneLen (length s) s) in *.
  destruct (trimWith_blank Strings.spaceRuneLenLast (length l) (rev l)
              spaceRuneLenLast_blank) as (post & Hl & Hpost).
  exists pre, (rev post). split; [|split; [done|by apply List.Forall_rev]].
  rewrite <- rev_app_distr, <- Hl, rev_involutive. done.
Qed.

Lemma TrimRight_split (raw : string) :
  ∃ crs, bytesOf raw = bytesOf (Strings.TrimRight raw CR) ++ crs ∧
    Forall (fun a => a = CR) crs.
Proof.
  unfold Strings.TrimRight. rewrite bytesOf_stringOf.
  destruct (dropWhileB_split (fun c => byteEq c CR) (rev (bytesOf raw)))
    as (pre & Hraw & Hpre).
  exists (rev pre). split.
  - rewrite <- rev_app_distr, <- Hraw. by rewrite rev_involutive.
  - apply List.Forall_rev. eapply Forall_impl; [done|].
    intros a Ha. by apply byteEq_true.
Qed.

Lemma inside_blanks (pre mid post a b inner : bytes) (m t : ascii) :
  Forall (fun x => blank x = true) pre → Forall (fun x => blank x = true) post →
  blank m = false → blank t = false →
  pre ++ mid ++ post = a ++ (m :: inner ++ [t]) ++ b →
  ∃ a' b', mid = a' ++ (m :: inner ++ [t]) ++ b'.
Proof.
  intros Hpre Hpost Hm Ht Heq.
  assert (∃ l, a = pre ++ l ∧ mid ++ post = l ++ (m :: inner ++ [t]) ++ b)
    as (l & -> & Heq').
  { apply app_eq_app in Heq as [l [[H1 H2]|[H1 H2]]]; [|by exists l].
    destruct l as [|y l].
    - exists []. rewrite app_nil_r in H1. subst a.
      split; [by rewrite (app_nil_r pre)|]. by rewrite H2.
    - injection H2 as <- _. rewrite H1, Forall_app, Forall_cons in Hpre.
      destruct Hpre as [_ [Hy _]]. congruence. }
  clear Heq.
  replace (l ++ (m :: inner ++ [t]) ++ b) with ((l ++ m :: inner) ++ [t] ++ b)
    in Heq' by (rewrite <- !app_assoc; simpl; by rewrite <- !app_assoc).
  apply app_eq_app in Heq' as [l2 [[H1 H2]|[H1 H2]]].
  - destruct l2 as [|y l2].
    + simpl in H2. rewrite <- H2, Forall_cons in Hpost.
      destruct Hpost as [Hy _]. congruence.
    + injection H2 as <- _. exists l, l2. rewrite H1.
      rewrite <- !app_assoc. simpl. by rewrite <- !app_assoc.
  - rewrite H2, Forall_app, Forall_app, Forall_singleton in Hpost.
    destruct Hpost as [_ [Hy _]]. congruence.
Qed.

(** Trimming keeps the occurrences of a text that begins and ends with a
    character that is not white space. *)
Lemma containsBytes_blanks (pre mid post sub inner : bytes) m t :
  sub = m :: inner ++ [t] → blank m = false → blank t = false →
  Forall (fun x => blank x = true) pre → Forall (fun x => blank x = true) post →
  Strings.containsBytes (pre ++ mid ++ post) sub = Strings.containsBytes mid sub.
Proof.
  intros -> Hm Ht Hpre Hpost.
  apply eq_true_iff_eq. rewrite !containsBytes_spec. split.
  - intros (a & b & H). by apply (inside_blanks pre mid post a b inner m t).
  - intros (a & b & ->). exists (pre ++ a), (b ++ post).
    by rewrite <- !app_assoc.
Qed.

Lemma Contains_TrimSpace (s sub : string) m inner t :
  bytesOf sub = m :: inner ++ [t] → blank m = false → blank t = false →
  Strings.Contains (Strings.TrimSpace s) sub = Strings.Contains s sub.
Proof.
  intros Hsub Hm Ht. unfold Strings.Contains, Strings.TrimSpace.
  rewrite bytesOf_stringOf.
  destruct (trimSpaceBytes_split (bytesOf s)) as (pre & post & Hs & Hpre & Hpost).
  rewrite Hs at 2. symmetry. by eapply containsBytes_blanks.
Qed.

Lemma Contains_TrimRight (s sub : string) m inner t :
  bytesOf sub = m :: inner ++ [t] → blank m = false → blank t = false →
  Strings.Contains (Strings.TrimRight s CR) sub = Strings.Contains s sub.
Proof.
  intros Hsub Hm Ht. unfold Strings.Contains.
  destruct (TrimRight_split s) as (crs & -> & Hcrs). symmetry.
  apply (containsBytes_blanks [] _ crs _ inner m t); try done.
  eapply Forall_impl; [done|]. by intros ? ->.
Qed.

Lemma Contains_marker_TrimSpace (s : string) :
  Strings.Contains (Strings.TrimSpace s) "Moon Product" =
    Strings.Contains s "Moon Product".
Proof.
  by apply (Contains_TrimSpace s _ "M"%char (bytesOf "oon Produc") "t"%char).
Qed.

Lemma Contains_marker (raw : string) :
  Strings.Contains (Strings.TrimSpace (Strings.TrimRight raw CR)) "Moon Product" =
    Strings.Contains raw "Moon Product".
Proof.
  rewrite Contains_marker_TrimSpace.
  by apply (Contains_TrimRight raw _ "M"%char (bytesOf "oon Produc") "t"%char).
Qed.

(** ** Lines with the marker *)

Lemma looksLikeMoonScan_marker (s : string) :
  looksLikeMoonScan s = Strings.Contains s "Moon Product".
Proof.
  unfold looksLikeMoonScan. rewrite <- (Contains_marker_TrimSpace s).
  destruct (decide _) as [->|]; [done|]. by destruct (Strings.Contains _ _).
Qed.

(** X8: [looksLikeMoonScan] is the test whether the text contains
    "Moon Product": trimming changes nothing, since the marker begins and
    ends with a letter, and the test for the empty text is covered by
    it. *)
Theorem looksLikeMoonScan_Contains (s : string) :
  looksLikeMoonScan s = Strings.Contains s "Moon Product".
Proof. apply looksLikeMoonScan_marker. Qed.

(** X5: a line that contains "Moon Product" anywhere is skipped, also
    when it has the shape of a group header or of a data row: the state
    of the loop stays as it is. *)
Theorem loopBody_marker (st : loopState) (rawLine : string) :
  Strings.Contains rawLine "Moon Product" = true → loopBody st rawLine = Ok st.
Proof.
  intros H. unfold loopBody. cbn zeta. rewrite Contains_marker, H.
  by destruct (decide _).
Qed.

Lemma loopBody_marker_witness :
  loopBody {| result := {[ "A - Moon 1" := ∅ ]}; currentMoon := "A - Moon 1" |}
    "Moon Product 1 2 3 4 5" =
  Ok {| result := {[ "A - Moon 1" := ∅ ]}; currentMoon := "A - Moon 1" |}.
Proof. apply loopBody_marker. reflexivity. Defined.

(** ** Group headers *)

Lemma dropWhileB_app_stop p l x m :
  p x = false →
  Strings.dropWhileB p (l ++ x :: m) = Strings.dropWhileB p l ++ x :: m.
Proof.
  intros Hx. induction l as [|y l IH]; simpl; [by rewrite Hx|].
  by destruct (p y).
Qed.

Lemma TrimRight_app (P : ascii → Prop) (raw : string) a x ws :
  bytesOf raw = (a ++ [x]) ++ ws → x ≠ CR → Forall P ws →
  ∃ ws', bytesOf (Strings.TrimRight raw CR) = (a ++ [x]) ++ ws' ∧ Forall P ws'.
Proof.
  intros Hraw Hx Hws. unfold Strings.TrimRight.
  rewrite bytesOf_stringOf, Hraw, rev_app_distr, rev_unit.
  rewrite dropWhileB_app_stop by (by apply byteEq_false).
  exists (rev (Strings.dropWhileB (fun c => byteEq c CR) (rev ws))). split.
  - rewrite rev_app_distr. simpl. by rewrite rev_involutive.
  - apply List.Forall_rev.
    destruct (dropWhileB_split (fun c => byteEq c CR) (rev ws)) as (pre & Hpre & _).
    apply List.Forall_rev in Hws. rewrite Hpre in Hws.
    by apply Forall_app in Hws as [_ ?].
Qed.

Lemma FindStringSubmatch_header (line : string) ws0 text ds ws1 :
  bytesOf line = ws0 ++ (text ++ bytesOf " - Moon " ++ ds) ++ ws1 →
  spaces ws0 → headText text → isInteger ds = true → spaces ws1 →
  FindStringSubmatch moonLineRe line =
    [line; stringOf (text ++ bytesOf " - Moon " ++ ds)].
Proof.
  intros Hline Hws0 Htext Hds Hws1. unfold FindStringSubmatch.
  pose proof (matchAt_headerLine ws0 text ds ws1 Hws0 Htext Hds Hws1) as Hm.
  cbv zeta in Hm. rewrite <- Hline in Hm.
  rewrite (search_first _ _ _ _ Hm). simpl. by rewrite stringOf_bytesOf.
Qed.

(** X3: a line [<text> - Moon <digits>] without the marker, with white
    space (a carriage return too) around it or not, makes
    [<text> - Moon <digits>] the active group and adds the group when it
    is new; the text is any text without a line feed that does not begin
    with white space. *)
Theorem loopBody_header (st : loopState) (rawLine : string) ws0 text ds ws1 :
  bytesOf rawLine = ws0 ++ (text ++ bytesOf " - Moon " ++ ds) ++ ws1 →
  spaces ws0 → headText text → isInteger ds = true → spaces ws1 →
  Strings.Contains rawLine "Moon Product" = false →
  let moon := stringOf (text ++ bytesOf " - Moon " ++ ds) in
  loopBody st rawLine =
    Ok {| result := ensureGroup moon (result st); currentMoon := moon |}.
Proof.
  intros Hraw Hws0 Htext Hds Hws1 Hmarker moon.
  pose proof Hds as [Hne Hdig]%isInteger_digits.
  destruct ds as [|d ds' _] using rev_ind; [done|].
  rewrite Forall_app, Forall_singleton in Hdig. destruct Hdig as [_ Hd].
  destruct (TrimRight_app (fun a => isSpace a = true) rawLine
              (ws0 ++ text ++ bytesOf " - Moon " ++ ds') d ws1)
    as (ws1' & Hline & Hws1'); [|by intros ->|done|].
  { rewrite Hraw. by rewrite <- !app_assoc. }
  assert (bytesOf (Strings.TrimRight rawLine CR) =
            ws0 ++ (text ++ bytesOf " - Moon " ++ ds' ++ [d]) ++ ws1') as Hline'.
  { rewrite Hline. by rewrite <- !app_assoc. }
  unfold loopBody. cbn zeta.
  rewrite Contains_marker, Hmarker.
  rewrite (FindStringSubmatch_header _ ws0 text (ds' ++ [d]) ws1') by done.
  rewrite decide_False; [done|].
  apply (TrimSpace_digit _ d); [|done]. rewrite Hline'. set_solver.
Qed.

Lemma loopBody_header_witness :
  loopBody initial (String.append "  66-PMM V - Moon 15 " (String CR "")) =
    Ok {| result := ensureGroup "66-PMM V - Moon 15" ∅;
          currentMoon := "66-PMM V - Moon 15" |}.
Proof.
  apply (loopBody_header initial _ (bytesOf "  ") (bytesOf "66-PMM V")
           (bytesOf "15") [" "%char; CR]).
  - reflexivity.
  - by repeat constructor.
  - split; [by repeat constructor|]. by eexists _, _.
  - reflexivity.
  - by repeat constructor.
  - reflexivity.
Defined.

(** X4: a line [<name> <decimal> <integer> <integer> <integer> <integer>]
    without the marker, with any white space between the parts and around
    them, is recorded in the active group under the name, which may have
    several words; a record that the group has under that name is
    replaced. *)
Theorem loopBody_row (st : loopState) (rawLine : string)
    ws0 name ws1 q ws2 a ws3 b ws4 c ws5 d ws6 products :
  bytesOf rawLine = rowLine ws0 name ws1 q ws2 a ws3 b ws4 c ws5 d ws6 →
  spaces ws0 → nameText name →
  gap ws1 → isDecimal q = true → gap ws2 → isInteger a = true →
  gap ws3 → isInteger b = true → gap ws4 → isInteger c = true →
  gap ws5 → isInteger d = true → spaces ws6 →
  Strings.Contains rawLine "Moon Product" = false →
  currentMoon st ≠ "" → result st !! currentMoon st = Some products →
  loopBody st rawLine =
    Ok {| result :=
            <[currentMoon st :=
                <[stringOf name := {| Quantity := stringOf q;
                                      OreTypeID := stringOf a;
                                      SolarSystemID := stringOf b;
                                      PlanetID := stringOf c;
                                      MoonID := stringOf d |}]> products]>
              (result st);
          currentMoon := currentMoon st |}.
Proof.
  intros Hraw Hws0 Hname G1 Hq G2 Ha G3 Hb G4 Hc G5 Hd Hws6 Hmarker Hcur Hprod.
  pose proof Hd as [Hne Hdig]%isInteger_digits.
  destruct d as [|x d' _] using rev_ind; [done|].
  rewrite Forall_app, Forall_singleton in Hdig. destruct Hdig as [_ Hx].
  destruct (TrimRight_app (fun a => isSpace a = true) rawLine
              (ws0 ++ name ++ ws1 ++ q ++ ws2 ++ a ++ ws3 ++ b ++ ws4 ++ c ++
               ws5 ++ d') x ws6)
    as (ws6' & Hline & Hws6'); [|by intros ->|done|].
  { rewrite Hraw. unfold rowLine. by rewrite <- !app_assoc. }
  assert (bytesOf (Strings.TrimRight rawLine CR) =
            rowLine ws0 name ws1 q ws2 a ws3 b ws4 c ws5 (d' ++ [x]) ws6')
    as Hline'.
  { rewrite Hline. unfold rowLine. by rewrite <- !app_assoc. }
  destruct (FindStringSubmatch_row _ _ _ _ _ _ _ _ _ _ _ _ _ _ Hline' Hws0 Hname
              G1 Hq G2 Ha G3 Hb G4 Hc G5 Hd Hws6') as [Hrow Hmoon].
  unfold loopBody. cbn zeta.
  rewrite Contains_marker, Hmarker, Hmoon, Hrow.
  rewrite decide_False.
  - rewrite (decide_False (P := length [] = 2)) by done.
    rewrite decide_False by done. simpl. by rewrite Hprod.
  - apply (TrimSpace_digit _ x); [|done]. rewrite Hline'. unfold rowLine.
    set_solver.
Qed.

Lemma loopBody_row_witness :
  loopBody {| result := {[ "66-PMM V - Moon 15" := ∅ ]};
              currentMoon := "66-PMM V - Moon 15" |}
    (String.append "	Flawless Arkonor	0.32	46678	30004923	40311969	40311985"
                   (String CR "")) =
    Ok {| result :=
            <["66-PMM V - Moon 15" :=
                <["Flawless Arkonor" := {| Quantity := "0.32";
                                           OreTypeID := "46678";
                                           SolarSystemID := "30004923";
                                           PlanetID := "40311969";
                                           MoonID := "40311985" |}]> ∅]>
              {[ "66-PMM V - Moon 15" := ∅ ]};
          currentMoon := "66-PMM V - Moon 15" |}.
Proof.
  assert (nameText (bytesOf "Flawless Arkonor")) as Hname.
  { split; [by repeat constructor|]. split.
    - by eexists _, _.
    - by exists (bytesOf "Flawless Arkono"), "r"%char. }
  assert (∀ ws, ws = ["009"%char] → gap ws) as Hgap.
  { intros ws ->. split; [done|by repeat constructor]. }
  exact (loopBody_row
           {| result := {[ "66-PMM V - Moon 15" := ∅ ]};
              currentMoon := "66-PMM V - Moon 15" |}
           (String.append "	Flawless Arkonor	0.32	46678	30004923	40311969	40311985"
                          (String CR ""))
           ["009"%char] (bytesOf "Flawless Arkonor") ["009"%char]
           (bytesOf "0.32") ["009"%char] (bytesOf "46678") ["009"%char]
           (bytesOf "30004923") ["009"%char] (bytesOf "40311969")
           ["009"%char] (bytesOf "40311985") [CR] ∅
           eq_refl ltac:(by repeat constructor) Hname
           (Hgap _ eq_refl) eq_refl (Hgap _ eq_refl) eq_refl
           (Hgap _ eq_refl) eq_refl (Hgap _ eq_refl) eq_refl
           (Hgap _ eq_refl) eq_refl ltac:(by repeat constructor)
           eq_refl ltac:(done) eq_refl).
Defined.

(** ** What the table holds *)

Lemma classify_Header rawLine moon :
  classify rawLine = Header moon → groupName moon.
Proof.
  unfold classify. cbn zeta.
  destruct (decide _); [done|]. destruct (Strings.Contains _ _); [done|].
  destruct (FindStringSubmatch moonLineRe _) as [|m0 ms] eqn:E.
  - destruct (FindStringSubmatch productLineRe _) as [|? [|? [|? [|? [|? [|? [|? [|]]]]]]]];
      done.
  - destruct (moonLineRe_submatches (Strings.TrimRight rawLine CR))
      as (ws0 & text & ds & ws1 & _ & _ & [Hne _] & Hds & _ & Hm);
      [by rewrite E|].
    rewrite E in Hm. injection Hm as -> ->. intros [= <-].
    exists text, ds. by rewrite bytesOf_stringOf.
Qed.

Lemma classify_Row rawLine product data :
  classify rawLine = Row product data →
  product ≠ "" ∧ numericRecord data = true.
Proof.
  unfold classify. cbn zeta.
  destruct (decide _); [done|]. destruct (Strings.Contains _ _); [done|].
  destruct (FindStringSubmatch productLineRe _) as [|m0 ms] eqn:E.
  { by destruct (FindStringSubmatch moonLineRe _) as [|? [|? [|]]]. }
  destruct (productLineRe_submatches (Strings.TrimRight rawLine CR))
    as (ws0 & name & ws1 & q & ws2 & a & ws3 & b & ws4 & c & ws5 & d & ws6 &
        _ & _ & [Hne _] & _ & Hq & _ & Ha & _ & Hb & _ & Hc & _ & Hd & _ & Hm);
    [by rewrite E|].
  rewrite E in Hm. injection Hm as -> ->.
  destruct (FindStringSubmatch moonLineRe _) as [|? [|? [|]]];
    intros [= <- <-]; (split; [by intros ->%stringOf_nil|]);
    unfold numericRecord; cbn [Quantity OreTypeID SolarSystemID PlanetID MoonID];
    by rewrite !bytesOf_stringOf, Hq, Ha, Hb, Hc, Hd.
Qed.

Lemma wellFormed_empty : wellFormed ∅.
Proof. by intros moon items H. Qed.

Lemma wellFormed_insert t moon items :
  wellFormed t → groupName moon →
  (∀ product data, items !! product = Some data →
     product ≠ "" ∧ numericRecord data = true) →
  wellFormed (<[moon := items]> t).
Proof.
  intros Ht Hmoon Hitems g its. destruct (decide (moon = g)) as [<-|Hne].
  - rewrite lookup_insert_eq. by intros [= <-].
  - rewrite lookup_insert_ne by done. apply Ht.
Qed.

Lemma act_wellFormed l st :
  wellFormed (result st) ∧ (currentMoon st = "" ∨ groupName (currentMoon st)) →
  wellFormed (result (act (classify l) st)) ∧
  (currentMoon (act (classify l) st) = "" ∨
   groupName (currentMoon (act (classify l) st))).
Proof.
  intros [Ht Hcur]. destruct (classify l) as [|moon|product data] eqn:E; simpl.
  - done.
  - apply classify_Header in E. split; [|by right].
    unfold ensureGroup. destruct (result st !! moon); [done|].
    by apply wellFormed_insert.
  - apply classify_Row in E as [Hp Hd].
    destruct (decide (currentMoon st = "")) as [|Hne]; [done|]. simpl.
    split; [|done]. destruct Hcur as [|Hcur]; [done|].
    apply wellFormed_insert; [done|done|].
    intros p d. destruct (decide (product = p)) as [<-|Hpp].
    + rewrite lookup_insert_eq. by intros [= <-].
    + rewrite lookup_insert_ne by done.
      destruct (result st !! currentMoon st) as [items|] eqn:Ei; simpl; [|done].
      by apply (Ht _ _ Ei).
Qed.

Lemma foldl_act_wellFormed lines st :
  wellFormed (result st) ∧ (currentMoon st = "" ∨ groupName (currentMoon st)) →
  wellFormed (result (foldl (fun s l => act (classify l) s) st lines)).
Proof.
  revert st. induction lines as [|l lines IH]; intros st H; simpl; [apply H|].
  by apply IH, act_wellFormed.
Qed.

(** X1: whatever the text, every group of the returned table is named
    [<text> - Moon <digits>], every item has a name, and every record
    holds a decimal quantity and four integer identifiers. *)
Theorem ParseMoons_well_formed (input : string) :
  ∃ table, ParseMoons input = Ok (table, None) ∧ wellFormed table.
Proof.
  rewrite ParseMoons_act. eexists. split; [done|].
  apply foldl_act_wellFormed. split; [apply wellFormed_empty|by left].
Qed.

(** ** The groups of the table *)

Lemma act_dom k st moon :
  activeGroupPresent st →
  moon ∈ dom (result (act k st)) ↔
  moon ∈ dom (result st) ∨ k = Header moon.
Proof.
  intros Hst. destruct k as [|g|product data]; simpl.
  - split; [by left|]. by intros [|].
  - unfold ensureGroup. destruct (result st !! g) eqn:E.
    + split; [by left|]. intros [|[= ->]]; [done|]. by apply elem_of_dom.
    + rewrite dom_insert_L, elem_of_union, elem_of_singleton.
      split; [intros [->|H]; [by right|by left]|].
      intros [H|[= ->]]; [by right|by left].
  - destruct (decide (currentMoon st = "")) as [|Hne]; simpl.
    { split; [by left|]. by intros [|]. }
    rewrite dom_insert_L, elem_of_union, elem_of_singleton.
    split; [|by intros [|]; [right|]].
    intros [->|]; [|by left]. left. by apply elem_of_dom, Hst.
Qed.

Lemma foldl_act_dom lines st moon :
  activeGroupPresent st →
  moon ∈ dom (result (foldl (fun s l => act (classify l) s) st lines)) ↔
  moon ∈ dom (result st) ∨ ∃ line, line ∈ lines ∧ classify line = Header moon.
Proof.
  revert st. induction lines as [|l lines IH]; intros st Hst; simpl.
  - split; [by left|]. intros [|(? & []%elem_of_nil & _)]; done.
  - rewrite IH by (by apply act_invariant). rewrite act_dom by done.
    split.
    + intros [[H|H]|(line & Hin & Hc)].
      * by left.
      * right. exists l. split; [by left|done].
      * right. exists line. split; [by right|done].
    + intros [H|(line & [->|Hin]%elem_of_cons & Hc)].
      * left. by left.
      * left. by right.
      * right. by exists line.
Qed.

(** X2: the groups of the returned table are the names of the header
    lines of the text: a header adds its group even when no row follows
    it, and nothing else adds a group. *)
Theorem ParseMoons_groups (input : string) :
  ∃ table, ParseMoons input = Ok (table, None) ∧
    ∀ moon, moon ∈ dom table ↔
      ∃ line, line ∈ Strings.Split input LF ∧ classify line = Header moon.
Proof.
  rewrite ParseMoons_act. eexists. split; [done|]. intros moon.
  rewrite foldl_act_dom by apply initial_invariant. simpl.
  rewrite dom_empty_L. split; [by intros [[]%elem_of_empty|]|by right].
Qed.

(** ** Line ends *)

Lemma TrimRight_CR (p : bytes) :
  Strings.TrimRight (stringOf (p ++ [CR])) CR = Strings.TrimRight (stringOf p) CR.
Proof.
  unfold Strings.TrimRight. by rewrite !bytesOf_stringOf, rev_unit.
Qed.

Lemma classify_TrimRight l l' :
  Strings.TrimRight l' CR = Strings.TrimRight l CR → classify l' = classify l.
Proof. intros H. unfold classify. by rewrite H. Qed.

Lemma splitBytes_toCRLF (s : bytes) :
  Forall2 (fun p' p => p' = p ∨ p' = p ++ [CR])
    (Strings.splitBytes LF
       (flat_map (fun c => if byteEq c LF then [CR; LF] else [c]) s))
    (Strings.splitBytes LF s).
Proof.
  induction s as [|c s IH]; simpl.
  - constructor; [by left|constructor].
  - destruct (byteEq c LF) eqn:E; simpl.
    + constructor; [by right|done].
    + rewrite E. destruct IH as [|p' p ps' ps Hp Hps].
      * constructor; [by left|constructor].
      * constructor; [|done]. by destruct Hp as [->| ->]; [left|right].
Qed.

Lemma foldl_act_related (ls' ls : list string) st :
  Forall2 (fun l' l => classify l' = classify l) ls' ls →
  foldl (fun s l => act (classify l) s) st ls' =
    foldl (fun s l => act (classify l) s) st ls.
Proof.
  intros H. revert st. induction H as [|l' l ls' ls Hl _ IH]; intros st; simpl.
  - done.
  - by rewrite Hl, IH.
Qed.

(** X6: a text with Windows line ends gives the same table as the text
    with plain line feeds. *)
Theorem ParseMoons_CRLF (input : string) :
  ParseMoons (toCRLF input) = ParseMoons input.
Proof.
  rewrite !ParseMoons_act. do 3 f_equal. apply foldl_act_related.
  unfold Strings.Split, toCRLF. rewrite bytesOf_stringOf.
  apply Forall2_fmap. eapply Forall2_impl; [apply splitBytes_toCRLF|].
  intros p' p [->| ->]; [done|]. simpl.
  apply classify_TrimRight, TrimRight_CR.
Qed.

(** ** Two scans in one text *)

Lemma bytesOf_append (a b : string) : bytesOf (a +:+ b) = bytesOf a ++ bytesOf b.
Proof. induction a as [|c a IH]; simpl; [done|]. by f_equal. Qed.

Lemma splitBytes_app_sep sep (a b : bytes) :
  Strings.splitBytes sep (a ++ sep :: b) =
    Strings.splitBytes sep a ++ Strings.splitBytes sep b.
Proof.
  induction a as [|c a IH]; simpl.
  - by rewrite (proj2 (byteEq_true sep sep)).
  - destruct (byteEq c sep); [by rewrite IH|]. rewrite IH.
    pose proof (splitBytes_not_nil sep a).
    by destruct (Strings.splitBytes sep a).
Qed.

Lemma Split_lines2 (a b : string) :
  Strings.Split (lines2 a b) LF = Strings.Split a LF ++ Strings.Split b LF.
Proof.
  unfold Strings.Split, lines2. rewrite bytesOf_append. simpl.
  change (list_ascii_of_string b) with (bytesOf b).
  by rewrite splitBytes_app_sep, map_app.
Qed.

Lemma assignments_app cur la lb :
  ∃ cur', assignments cur (la ++ lb) = assignments cur la ++ assignments cur' lb.
Proof.
  revert cur. induction la as [|l la IH]; intros cur; simpl; [by exists cur|].
  destruct (classify l) as [|moon|product data].
  - apply IH.
  - apply IH.
  - destruct (decide (cur = "")); [apply IH|].
    destruct (IH cur) as [cur' ->]. by exists cur'.
Qed.

Lemma assignments_headerFirst cur lines :
  headerFirst lines = true → assignments cur lines = assignments "" lines.
Proof.
  induction lines as [|l lines IH]; simpl; [done|].
  destruct (classify l) as [|moon|product data]; [done|done|done].
Qed.

Lemma lastAssigned_app g n l1 l2 :
  lastAssigned g n (l1 ++ l2) =
    match lastAssigned g n l2 with
    | Some d => Some d
    | None => lastAssigned g n l1
    end.
Proof.
  unfold lastAssigned. rewrite filter_app, last_app.
  by destruct (last (filter _ l2)).
Qed.

(** X7: two scans, one after the other in one text, the second one with
    no data row before its first group header: the table has the groups
    of both, and under every group and item the record of the second
    scan when it has one, else the record of the first. *)
Theorem ParseMoons_lines2 (a b : string) :
  headerFirst (Strings.Split b LF) = true →
  ∃ ta tb t,
    ParseMoons a = Ok (ta, None) ∧ ParseMoons b = Ok (tb, None) ∧
    ParseMoons (lines2 a b) = Ok (t, None) ∧
    (∀ moon, moon ∈ dom t ↔ moon ∈ dom ta ∨ moon ∈ dom tb) ∧
    (∀ moon product,
       entry t moon product =
         match entry tb moon product with
         | Some d => Some d
         | None => entry ta moon product
         end).
Proof.
  intros Hb. rewrite !ParseMoons_act. eexists _, _, _.
  split; [done|]. split; [done|]. split; [done|]. split.
  - intros moon. rewrite !foldl_act_dom by apply initial_invariant.
    rewrite Split_lines2. simpl. rewrite dom_empty_L.
    setoid_rewrite elem_of_app. split.
    + intros [[]%elem_of_empty|(line & [Hin|Hin] & Hc)].
      * left. right. by exists line.
      * right. right. by exists line.
    + intros [[[]%elem_of_empty|(line & Hin & Hc)]|[[]%elem_of_empty|(line & Hin & Hc)]];
        right; exists line; (split; [|done]); [by left|by right].
  - intros g n. rewrite !foldl_act_entry, Split_lines2. simpl.
    destruct (assignments_app "" (Strings.Split a LF) (Strings.Split b LF))
      as [cur' ->].
    rewrite (assignments_headerFirst cur') by done.
    rewrite lastAssigned_app.
    destruct (lastAssigned g n (assignments "" (Strings.Split b LF))); [done|].
    by destruct (lastAssigned g n (assignments "" (Strings.Split a LF))).
Qed.

Lemma ParseMoons_lines2_witness :
  ∃ ta tb t,
    ParseMoons readmeInput = Ok (ta, None) ∧ ParseMoons scanText = Ok (tb, None) ∧
    ParseMoons (lines2 readmeInput scanText) = Ok (t, None) ∧
    (∀ moon, moon ∈ dom t ↔ moon ∈ dom ta ∨ moon ∈ dom tb) ∧
    (∀ moon product,
       entry t moon product =
         match entry tb moon product with
         | Some d => Some d
         | None => entry ta moon product
         end).
Proof. apply (ParseMoons_lines2 readmeInput scanText). vm_compute. reflexivity. Defined.

(** ** Which lines are headers and which are rows *)

Lemma denote_captured r total pre rest caps :
  denote r total pre rest → ∃ caps', captured r total pre rest caps caps'.
Proof.
  revert pre rest caps.
  induction r as [s|c|g c|g c|r IH|r1 IH1 r2 IH2|i r IH| |];
    intros pre rest caps; simpl; try (by intros H; exists caps).
  - intros [->|H]; [exists caps; by left|].
    destruct (IH _ _ caps H) as [caps' H']. exists caps'. by right.
  - intros (p1 & p2 & -> & H1 & H2).
    destruct (IH1 _ _ caps H1) as [mid Hmid].
    destruct (IH2 _ _ mid H2) as [caps' H'].
    exists caps', p1, p2, mid. done.
  - intros H. destruct (IH _ _ caps H) as [mid Hmid].
    exists (<[i := pre]> mid), mid. done.
Qed.

Lemma captured_length r total pre rest caps caps' :
  captured r total pre rest caps caps' → length caps' = length caps.
Proof.
  revert pre rest caps caps'.
  induction r as [s|c|g c|g c|r IH|r1 IH1 r2 IH2|i r IH| |];
    intros pre rest caps caps'; simpl; try (by intros [_ ->]).
  - intros [[_ ->]|H]; [done|by eapply IH].
  - intros (p1 & p2 & mid & _ & H1 & H2).
    apply IH1 in H1. apply IH2 in H2. congruence.
  - intros (mid & H & ->). rewrite length_insert. by eapply IH.
Qed.

(** A text that the pattern denotes from its start to its end is
    matched. *)
Lemma FindStringSubmatch_complete re (line : string) :
  denote re (length (bytesOf line)) (bytesOf line) [] →
  FindStringSubmatch re line ≠ [].
Proof.
  intros Hden.
  destruct (denote_captured _ _ _ _ (replicate (S (NumSubexp re)) []) Hden)
    as [caps' Hcap].
  destruct (run_complete re (length (bytesOf line)) (bytesOf line) [] _ _
              (fun rest caps => Some (<[0 := consumed (bytesOf line) rest]> caps))
              Hcap) as [m Hm]; [done|].
  rewrite app_nil_r in Hm. unfold FindStringSubmatch.
  rewrite (search_first _ _ _ m) by exact Hm.
  apply matchAt_captured in Hm as (pre & rest & caps & _ & Hc & ->).
  apply captured_length in Hc. rewrite length_replicate in Hc.
  destruct caps; [done|]. done.
Qed.

Lemma decimal_denote total q rest :
  isDecimal q = true →
  denote (Plus true Digit ⋅ Quest (Lit "." ⋅ Plus true Digit)) total q rest.
Proof.
  intros [Hq|(i & f & -> & Hi & Hf)]%isDecimal_inv.
  - exists q, []. split; [by rewrite app_nil_r|]. split; [done|by left].
  - exists i, ("."%char :: f). split; [done|]. split; [done|]. right.
    by exists ["."%char], f.
Qed.

Lemma moonLineRe_complete (line : string) :
  headerShape (bytesOf line) → FindStringSubmatch moonLineRe line ≠ [].
Proof.
  intros (ws0 & text & ds & ws1 & Hline & Hws0 & Htext & Hds & Hws1).
  apply FindStringSubmatch_complete. rewrite Hline at 2.
  apply isInteger_digits in Hds.
  exists [], (ws0 ++ (text ++ bytesOf " - Moon " ++ ds) ++ ws1).
  split; [done|]. split; [by rewrite app_nil_r, Hline|].
  exists ws0, ((text ++ bytesOf " - Moon " ++ ds) ++ ws1).
  split; [done|]. split; [done|].
  exists (text ++ bytesOf " - Moon " ++ ds), ws1. split; [done|]. split.
  - exists text, (bytesOf " - Moon " ++ ds). split; [done|]. split; [done|].
    by exists (bytesOf " - Moon "), ds.
  - exists ws1, []. by rewrite app_nil_r.
Qed.

Lemma productLineRe_complete (line : string) :
  rowShape (bytesOf line) → FindStringSubmatch productLineRe line ≠ [].
Proof.
  intros (ws0 & name & ws1 & q & ws2 & a & ws3 & b & ws4 & c & ws5 & d & ws6 &
          Hline & Hws0 & Hname & [? ?] & Hq & [? ?] & Ha%isInteger_digits &
          [? ?] & Hb%isInteger_digits & [? ?] & Hc%isInteger_digits &
          [? ?] & Hd%isInteger_digits & Hws6).
  apply FindStringSubmatch_complete. rewrite Hline at 2. unfold rowLine.
  eexists [], _. split; [done|]. split; [by rewrite app_nil_r, Hline|].
  eexists ws0, _. split; [done|]. split; [done|].
  eexists name, _. split; [done|]. split; [done|].
  eexists ws1, _. split; [done|]. split; [done|].
  eexists q, _. split; [done|]. split; [by apply decimal_denote|].
  eexists ws2, _. split; [done|]. split; [done|].
  eexists a, _. split; [done|]. split; [done|].
  eexists ws3, _. split; [done|]. split; [done|].
  eexists b, _. split; [done|]. split; [done|].
  eexists ws4, _. split; [done|]. split; [done|].
  eexists c, _. split; [done|]. split; [done|].
  eexists ws5, _. split; [done|]. split; [done|].
  eexists d, _. split; [done|]. split; [done|].
  exists ws6, []. by rewrite app_nil_r.
Qed.

Lemma CRs_spaces crs : Forall (fun a => a = CR) crs → spaces crs.
Proof. intros H. eapply Forall_impl; [done|]. by intros ? ->. Qed.

Lemma integer_last ds :
  isInteger ds = true → ∃ front x, ds = front ++ [x] ∧ isSpace x = false.
Proof.
  intros [Hne Hds]%isInteger_digits.
  destruct ds as [|x front _] using rev_ind; [done|]. exists front, x.
  split; [done|]. rewrite Forall_app, Forall_singleton in Hds.
  apply isDigit_not_space, Hds.
Qed.

Lemma headerShape_TrimRight (rawLine : string) :
  headerShape (bytesOf (Strings.TrimRight rawLine CR)) ↔
  headerShape (bytesOf rawLine).
Proof.
  split; intros (ws0 & text & ds & ws1 & Hline & Hws0 & Htext & Hds & Hws1).
  - destruct (TrimRight_split rawLine) as (crs & Hraw & Hcrs%CRs_spaces).
    exists ws0, text, ds, (ws1 ++ crs). rewrite Hraw, Hline.
    split; [by rewrite <- !app_assoc|]. repeat (split; [done|]).
    by apply Forall_app.
  - destruct (integer_last ds Hds) as (front & x & -> & Hx).
    destruct (TrimRight_app (fun a => isSpace a = true) rawLine
                (ws0 ++ text ++ bytesOf " - Moon " ++ front) x ws1)
      as (ws1' & Hline' & Hws1'); [|by intros ->|done|].
    { rewrite Hline. by rewrite <- !app_assoc. }
    exists ws0, text, (front ++ [x]), ws1'. rewrite Hline'.
    split; [by rewrite <- !app_assoc|]. done.
Qed.

Lemma rowShape_TrimRight (rawLine : string) :
  rowShape (bytesOf (Strings.TrimRight rawLine CR)) ↔
  rowShape (bytesOf rawLine).
Proof.
  split;
    intros (ws0 & name & ws1 & q & ws2 & a & ws3 & b & ws4 & c & ws5 & d & ws6 &
            Hline & Hws0 & Hname & G1 & Hq & G2 & Ha & G3 & Hb & G4 & Hc & G5 &
            Hd & Hws6).
  - destruct (TrimRight_split rawLine) as (crs & Hraw & Hcrs%CRs_spaces).
    exists ws0, name, ws1, q, ws2, a, ws3, b, ws4, c, ws5, d, (ws6 ++ crs).
    rewrite Hraw, Hline. unfold rowLine.
    split; [by rewrite <- !app_assoc|]. repeat (split; [done|]).
    by apply Forall_app.
  - destruct (integer_last d Hd) as (front & x & -> & Hx).
    destruct (TrimRight_app (fun a => isSpace a = true) rawLine
                (ws0 ++ name ++ ws1 ++ q ++ ws2 ++ a ++ ws3 ++ b ++ ws4 ++ c ++
                 ws5 ++ front) x ws6)
      as (ws6' & Hline' & Hws6'); [|by intros ->|done|].
    { rewrite Hline. unfold rowLine. by rewrite <- !app_assoc. }
    exists ws0, name, ws1, q, ws2, a, ws3, b, ws4, c, ws5, (front ++ [x]), ws6'.
    rewrite Hline'. unfold rowLine.
    split; [by rewrite <- !app_assoc|]. done.
Qed.

Lemma headerShape_digit line :
  headerShape line → ∃ x, x ∈ line ∧ isDigit x = true.
Proof.
  intros (ws0 & text & ds & ws1 & -> & _ & _ & [Hne Hds]%isInteger_digits & _).
  destruct ds as [|x ds]; [done|]. exists x. split; [set_solver|].
  by apply Forall_cons in Hds as [? _].
Qed.

Lemma rowShape_digit line :
  rowShape line → ∃ x, x ∈ line ∧ isDigit x = true.
Proof.
  intros (ws0 & name & ws1 & q & ws2 & a & ws3 & b & ws4 & c & ws5 & d & ws6 &
          -> & _ & _ & _ & _ & _ & _ & _ & _ & _ & _ & _ &
          [Hne Hd]%isInteger_digits & _).
  destruct d as [|x d]; [done|]. exists x. unfold rowLine.
  split; [set_solver|]. by apply Forall_cons in Hd as [? _].
Qed.

Lemma rowShape_not_header (line : string) :
  rowShape (bytesOf line) → FindStringSubmatch moonLineRe line = [].
Proof.
  intros (ws0 & name & ws1 & q & ws2 & a & ws3 & b & ws4 & c & ws5 & d & ws6 &
          Hline & Hws0 & Hname & G1 & Hq & G2 & Ha & G3 & Hb & G4 & Hc & G5 &
          Hd & Hws6).
  destruct (FindStringSubmatch moonLineRe line) eqn:E; [done|]. exfalso.
  assert (FindStringSubmatch moonLineRe line ≠ []) as Hm by by rewrite E.
  apply FindStringSubmatch_sound in Hm as (skipped & pre & rest & Heq & Hden).
  apply (moonLineRe_tokens _ skipped) in Hden as (front & ds & Htok & _).
  rewrite <- Heq, Hline in Htok. unfold rowLine in Htok.
  rewrite (app_assoc ws0 name), fields_numbers in Htok by done.
  change [q; a; b; c; d] with ([q; a; b] ++ [c; d]) in Htok.
  rewrite app_assoc in Htok.
  apply app_inj_2 in Htok as [_ [= -> _]]; [|done].
  by vm_compute in Hc.
Qed.

(** X20: the lines that the loop takes for group headers are the lines
    [<text> - Moon <digits>] without the marker, and no others. *)
Theorem header_lines (rawLine : string) :
  isHeader rawLine = true ↔
  Strings.Contains rawLine "Moon Product" = false ∧
  headerShape (bytesOf rawLine).
Proof.
  rewrite <- headerShape_TrimRight, <- Contains_marker.
  unfold isHeader, classify. cbn zeta.
  set (line := Strings.TrimRight rawLine CR). split.
  - destruct (decide _); [done|].
    destruct (Strings.Contains _ _); [done|]. intros H. split; [done|].
    destruct (FindStringSubmatch moonLineRe line) as [|m0 ms] eqn:E.
    { by destruct (FindStringSubmatch productLineRe line)
        as [|? [|? [|? [|? [|? [|? [|? [|]]]]]]]]. }
    destruct (moonLineRe_submatches line)
      as (ws0 & text & ds & ws1 & ? & ? & ? & ? & ? & _); [by rewrite E|].
    by exists ws0, text, ds, ws1.
  - intros [-> Hshape]. pose proof (moonLineRe_complete line Hshape) as Hm.
    destruct (moonLineRe_submatches line Hm)
      as (ws0 & text & ds & ws1 & _ & _ & _ & _ & _ & ->).
    destruct (headerShape_digit _ Hshape) as (x & Hx & Hdig).
    rewrite decide_False; [done|]. by apply (TrimSpace_digit _ x).
Qed.

Lemma classify_Row_iff (rawLine : string) :
  (∃ product data, classify rawLine = Row product data) ↔
  Strings.Contains rawLine "Moon Product" = false ∧
  rowShape (bytesOf rawLine).
Proof.
  rewrite <- rowShape_TrimRight, <- Contains_marker.
  unfold classify. cbn zeta.
  set (line := Strings.TrimRight rawLine CR). split.
  - destruct (decide _); [by intros (? & ? & ?)|].
    destruct (Strings.Contains _ _); [by intros (? & ? & ?)|].
    intros (product & data & H). split; [done|].
    destruct (FindStringSubmatch productLineRe line) as [|m0 ms] eqn:E.
    { by destruct (FindStringSubmatch moonLineRe line) as [|? [|? [|]]]. }
    destruct (productLineRe_submatches line)
      as (ws0 & name & ws1 & q & ws2 & a & ws3 & b & ws4 & c & ws5 & d & ws6 &
          ? & ? & ? & ? & ? & ? & ? & ? & ? & ? & ? & ? & ? & ? & _);
      [by rewrite E|].
    by exists ws0, name, ws1, q, ws2, a, ws3, b, ws4, c, ws5, d, ws6.
  - intros [-> Hshape]. pose proof (productLineRe_complete line Hshape) as Hm.
    destruct (productLineRe_submatches line Hm)
      as (ws0 & name & ws1 & q & ws2 & a & ws3 & b & ws4 & c & ws5 & d & ws6 &
          _ & _ & _ & _ & _ & _ & _ & _ & _ & _ & _ & _ & _ & _ & ->).
    rewrite (rowShape_not_header line Hshape).
    destruct (rowShape_digit _ Hshape) as (x & Hx & Hdig).
    rewrite decide_False; [by eexists _, _|]. by apply (TrimSpace_digit _ x).
Qed.

(** X21: the lines that the loop takes for data rows are the lines
    [<name> <decimal> <integer> <integer> <integer> <integer>] without
    the marker, and no others. *)
Theorem row_lines (rawLine : string) :
  (∃ product data, classify rawLine = Row product data) ↔
  Strings.Contains rawLine "Moon Product" = false ∧
  rowShape (bytesOf rawLine).
Proof. apply classify_Row_iff. Qed.

(** ** The lines that are discarded *)

Lemma fields_nil_spaces s : fields s = [] → spaces s.
Proof.
  induction s as [|c s IH]; [done|]. intros H.
  destruct (isSpace c) eqn:Ec.
  - constructor; [done|]. apply IH. simpl in H. by rewrite Ec in H.
  - by destruct (fields_head_word c s Ec).
Qed.

Lemma fields_cons_inv s t ts :
  fields s = t :: ts →
  ∃ ws rest, s = ws ++ t ++ rest ∧ spaces ws ∧ t ≠ [] ∧ noSpaces t ∧
    fields rest = ts ∧ (rest = [] ∨ leadingSpace rest = true).
Proof.
  revert t ts. induction s as [|c s IH]; intros t ts; [done|].
  cbn [fields]. destruct (isSpace c) eqn:Ec.
  - intros (ws & rest & -> & ? & ? & ? & ? & ?)%IH.
    exists (c :: ws), rest. split; [done|]. split; [by constructor|done].
  - destruct s as [|d s].
    + intros [= <- <-]. exists [], []. split; [done|].
      split; [done|]. split; [done|]. split; [by repeat constructor|]. by auto.
    + destruct (isSpace d) eqn:Ed.
      * intros [= <- <-]. exists [], (d :: s). split; [done|].
        split; [done|]. split; [done|]. split; [by repeat constructor|].
        split; [done|]. right. done.
      * pose proof (fields_head_word d s Ed) as Hne.
        destruct (fields (d :: s)) as [|t' ts'] eqn:E; [done|].
        intros [= <- <-].
        destruct (IH t' ts' eq_refl) as (ws & rest & Hs & Hws & Ht & Hnt & Hf & Hr).
        destruct ws as [|w ws].
        -- exists [], rest. simpl in Hs. split; [simpl; by rewrite Hs|].
           split; [done|]. split; [done|]. split; [by constructor|done].
        -- exfalso. injection Hs as -> _. inversion Hws; congruence.
Qed.

Lemma fields_app_inv s front tail :
  fields s = front ++ tail →
  ∃ s1 s2, s = s1 ++ s2 ∧ fields s1 = front ∧ fields s2 = tail ∧
    (front ≠ [] → s2 = [] ∨ leadingSpace s2 = true).
Proof.
  revert s. induction front as [|t front IH]; intros s H.
  - by exists [], s.
  - apply fields_cons_inv in H as (ws & rest & -> & Hws & Ht & Hnt & Hf & Hr).
    destruct front as [|t' front].
    + exists (ws ++ t), rest. split; [by rewrite <- !app_assoc|].
      split; [|done]. rewrite fields_spaces_l by done. by apply fields_word.
    + destruct (IH rest Hf) as (r1 & r2 & -> & Hf1 & Hf2 & Hr2).
      exists (ws ++ t ++ r1), r2. split; [by rewrite <- !app_assoc|].
      split; [|split; [done|intros _; by apply Hr2]].
      rewrite fields_spaces_l by done. destruct r1 as [|x r1]; [done|].
      destruct Hr as [Hr|Hr]; [done|]. simpl in Hr.
      change (t ++ x :: r1) with (t ++ [x] ++ r1).
      rewrite fields_word_sep by (done || by repeat constructor).
      f_equal. rewrite <- Hf1. symmetry.
      apply (fields_spaces_l [x] r1). by repeat constructor.
Qed.

Lemma leadingSpaces_app ws s :
  spaces ws → leadingSpace s = false → leadingSpaces (ws ++ s) = length ws.
Proof.
  intros Hws Hs. induction Hws as [|w ws Hw _ IH]; cbn [app leadingSpaces length].
  - destruct s as [|x s]; [done|]. cbn [leadingSpace leadingSpaces] in *.
    by rewrite Hs.
  - by rewrite Hw, IH.
Qed.

Lemma word_leadingSpace t rest :
  t ≠ [] → noSpaces t → leadingSpace (t ++ rest) = false.
Proof. intros Hne Ht. destruct Ht; [done|]. done. Qed.

(** A token that follows white space. *)
Lemma fields_gap s t ts :
  leadingSpace s = true → fields s = t :: ts →
  ∃ ws rest, s = ws ++ t ++ rest ∧ gap ws ∧ t ≠ [] ∧ noSpaces t ∧
    fields rest = ts ∧ (rest = [] ∨ leadingSpace rest = true).
Proof.
  intros Hs (ws & rest & -> & Hws & Ht & Hnt & Hf & Hr)%fields_cons_inv.
  exists ws, rest. split; [done|]. split; [|done]. split; [|done].
  intros ->. simpl in Hs. by rewrite word_leadingSpace in Hs.
Qed.

(** The five numeric tokens at the end of a line, with the white space
    between and after them. *)
Lemma fields_five s q a b c d :
  fields s = [q; a; b; c; d] →
  ∃ ws1 ws2 ws3 ws4 ws5 ws6,
    s = ws1 ++ q ++ ws2 ++ a ++ ws3 ++ b ++ ws4 ++ c ++ ws5 ++ d ++ ws6 ∧
    spaces ws1 ∧ gap ws2 ∧ gap ws3 ∧ gap ws4 ∧ gap ws5 ∧ spaces ws6 ∧
    q ≠ [] ∧ noSpaces q.
Proof.
  intros (ws1 & r1 & -> & Hws1 & Hq & Hnq & H & Hr)%fields_cons_inv.
  destruct Hr as [->|Hr]; [done|].
  apply fields_gap in H as (ws2 & r2 & -> & G2 & _ & _ & H & Hr'); [|done].
  clear Hr. destruct Hr' as [->|Hr]; [done|].
  apply fields_gap in H as (ws3 & r3 & -> & G3 & _ & _ & H & Hr'); [|done].
  clear Hr. destruct Hr' as [->|Hr]; [done|].
  apply fields_gap in H as (ws4 & r4 & -> & G4 & _ & _ & H & Hr'); [|done].
  clear Hr. destruct Hr' as [->|Hr]; [done|].
  apply fields_gap in H as (ws5 & r5 & -> & G5 & _ & _ & H & _); [|done].
  apply fields_nil_spaces in H.
  by exists ws1, ws2, ws3, ws4, ws5, r5.
Qed.

Lemma noLF_anyChar s :
  LF ∉ s → Forall (fun x => inClass AnyCharNotNL x = true) s.
Proof.
  intros H. apply Forall_forall. intros x Hx. simpl.
  destruct (byteEq x LF) eqn:E; [|done].
  apply byteEq_true in E as ->. done.
Qed.

(** In a line without a line feed the rows are told by their tokens. *)
Lemma rowShape_tokens (line : bytes) :
  rowShape line →
  endsInFiveNumbers (fields line) ∧
  (6 ≤ length (fields line) ∨ 2 ≤ leadingSpaces line).
Proof.
  intros (ws0 & name & ws1 & q & ws2 & a & ws3 & b & ws4 & c & ws5 & d & ws6 &
          -> & Hws0 & [Hname _] & G1 & Hq & G2 & Ha & G3 & Hb & G4 & Hc & G5 &
          Hd & Hws6).
  unfold rowLine.
  assert (fields (ws0 ++ name ++ ws1 ++ q ++ ws2 ++ a ++ ws3 ++ b ++ ws4 ++ c ++
                  ws5 ++ d ++ ws6) = fields (ws0 ++ name) ++ [q; a; b; c; d])
    as Htok by (rewrite (app_assoc ws0 name); by apply fields_numbers).
  split; [rewrite Htok; by eexists _, q, a, b, c, d|].
  destruct (fields (ws0 ++ name)) as [|t ts] eqn:E.
  - right. apply fields_nil_spaces in E.
    replace (ws0 ++ name ++ ws1 ++ q ++ ws2 ++ a ++ ws3 ++ b ++ ws4 ++ c ++
             ws5 ++ d ++ ws6)
      with (((ws0 ++ name) ++ ws1) ++ q ++ ws2 ++ a ++ ws3 ++ b ++ ws4 ++ c ++
            ws5 ++ d ++ ws6) by (by rewrite <- !app_assoc).
    destruct G1 as [Hne1 Hws1]. apply isDecimal_word in Hq as [Hqne Hqw].
    rewrite leadingSpaces_app.
    + rewrite !length_app. destruct name; [done|]. destruct ws1; [done|].
      simpl. lia.
    + by apply Forall_app.
    + by apply word_leadingSpace.
  - left. rewrite Htok, length_app. simpl. lia.
Qed.

Lemma tokens_rowShape (line : bytes) :
  LF ∉ line →
  endsInFiveNumbers (fields line) →
  6 ≤ length (fields line) ∨ 2 ≤ leadingSpaces line →
  rowShape line.
Proof.
  intros HLF (front & q & a & b & c & d & Htok & Hq & Ha & Hb & Hc & Hd) Hlong.
  destruct (fields_app_inv _ _ _ Htok) as (s1 & s2 & -> & Hf1 & Hf2 & Hs2).
  destruct (fields_five _ _ _ _ _ _ Hf2)
    as (ws1 & ws2 & ws3 & ws4 & ws5 & ws6 & -> & Hws1 & G2 & G3 & G4 & G5 &
        Hws6 & Hqne & Hqw).
  destruct front as [|t front].
  - apply fields_nil_spaces in Hf1.
    destruct Hlong as [Hlong|Hlong];
      [rewrite Htok in Hlong; simpl in Hlong; lia|].
    rewrite app_assoc, leadingSpaces_app in Hlong;
      [|by apply Forall_app|by apply word_leadingSpace].
    destruct (s1 ++ ws1) as [|x [|y ws]] eqn:E; [simpl in Hlong; lia..|].
    assert (spaces (x :: y :: ws)) as Hws by (rewrite <- E; by apply Forall_app).
    exists [], [x], (y :: ws), q, ws2, a, ws3, b, ws4, c, ws5, d, ws6.
    unfold rowLine. rewrite app_assoc, E. split; [done|]. split; [done|].
    split.
    { split; [done|]. apply noLF_anyChar. intros Hx. apply HLF.
      rewrite app_assoc, E. apply elem_of_app. left.
      inversion Hx as [|? ? ? Hx']; subst; [by left|by inversion Hx']. }
    split; [split; [done|by inversion Hws]|]. done.
  - assert (s1 ≠ []) as Hs1 by (by intros ->).
    destruct (Hs2 ltac:(done)) as [Hnil|Hlead].
    { by destruct ws1, q. }
    assert (ws1 ≠ []) as Hws1ne.
    { intros ->. simpl in Hlead. by rewrite word_leadingSpace in Hlead. }
    exists [], s1, ws1, q, ws2, a, ws3, b, ws4, c, ws5, d, ws6.
    unfold rowLine. split; [done|]. split; [done|]. split.
    { split; [done|]. apply noLF_anyChar. intros Hx. apply HLF. apply elem_of_app. by left. }
    done.
Qed.

Lemma recordable_rowShape (input rawLine : string) :
  rawLine ∈ Strings.Split input LF →
  recordable rawLine ↔
  Strings.Contains rawLine "Moon Product" = false ∧ rowShape (bytesOf rawLine).
Proof.
  intros Hin.
  assert (LF ∉ bytesOf rawLine) as HLF.
  { pose proof (Split_lines input) as H. rewrite Forall_forall in H. by apply H. }
  unfold recordable. split.
  - intros (Hm & Hfive & Hlong). split; [done|]. by apply tokens_rowShape.
  - intros [Hm Hshape]. split; [done|]. by apply rowShape_tokens.
Qed.

Lemma classify_Row_tokens rawLine product data :
  classify rawLine = Row product data →
  ∃ front q a b c d,
    fields (bytesOf rawLine) = front ++ [q; a; b; c; d] ∧
    data = {| Quantity := stringOf q; OreTypeID := stringOf a;
              SolarSystemID := stringOf b; PlanetID := stringOf c;
              MoonID := stringOf d |}.
Proof.
  unfold classify. cbn zeta.
  destruct (decide _); [done|]. destruct (Strings.Contains _ _); [done|].
  destruct (FindStringSubmatch productLineRe _) as [|m0 ms] eqn:E.
  { by destruct (FindStringSubmatch moonLineRe _) as [|? [|? [|]]]. }
  destruct (productLineRe_submatches (Strings.TrimRight rawLine CR))
    as (ws0 & name & ws1 & q & ws2 & a & ws3 & b & ws4 & c & ws5 & d & ws6 &
        Hline & _ & _ & G1 & Hq & G2 & Ha & G3 & Hb & G4 & Hc & G5 & Hd & Hws6 & Hm);
    [by rewrite E|].
  rewrite E in Hm. injection Hm as -> ->.
  assert (fields (bytesOf rawLine) = fields (ws0 ++ name) ++ [q; a; b; c; d])
    as Htok.
  { rewrite <- fields_TrimRight, Hline. unfold rowLine.
    rewrite (app_assoc ws0 name). by apply fields_numbers. }
  destruct (FindStringSubmatch moonLineRe _) as [|? [|? [|]]];
    intros [= <- <-]; by exists (fields (ws0 ++ name)), q, a, b, c, d.
Qed.

(** C3 (amended): of the lines of an input, exactly those are recorded
    as data rows that do not contain "Moon Product", whose last five
    white-space-separated tokens are a decimal numeral followed by four
    integers, and that have at least one more token or begin with at
    least two white-space characters. Every other line is discarded as a
    data row: on every state, also with an active group, the loop body
    returns normally and leaves every entry of the table as it was, and
    unless the line is a group header the whole state is unchanged. A
    line of the first kind is not discarded, however many tokens it has:
    with an active group its record, made of its last five tokens, is
    stored in that group. *)
Theorem loopBody_discards (input : string) (st : loopState) (rawLine : string) :
  rawLine ∈ Strings.Split input LF →
  (¬ recordable rawLine →
   ∃ st', loopBody st rawLine = Ok st' ∧
     (∀ moon product,
        entry (result st') moon product = entry (result st) moon product) ∧
     (isHeader rawLine = false → st' = st)) ∧
  (recordable rawLine →
   ∃ front q a b c d product,
     fields (bytesOf rawLine) = front ++ [q; a; b; c; d] ∧
     let data := {| Quantity := stringOf q; OreTypeID := stringOf a;
                    SolarSystemID := stringOf b; PlanetID := stringOf c;
                    MoonID := stringOf d |} in
     classify rawLine = Row product data ∧
     ∀ products,
       currentMoon st ≠ "" → result st !! currentMoon st = Some products →
       loopBody st rawLine =
         Ok {| result := <[currentMoon st := <[product := data]> products]>
                           (result st);
               currentMoon := currentMoon st |}).
Proof.
  intros Hin.
  pose proof (recordable_rowShape input rawLine Hin) as Hrec.
  pose proof (classify_Row_iff rawLine) as Hrow. split.
  - intros Hnot.
    assert (∀ product data, classify rawLine ≠ Row product data) as Hc.
    { intros product data H. apply Hnot, Hrec, Hrow. by exists product, data. }
    clear Hrec Hrow Hnot.
    unfold loopBody, isHeader. unfold classify in *. cbn zeta in *.
    destruct (decide (Strings.TrimSpace _ = "")); [by exists st|].
    destruct (Strings.Contains _ _); [by exists st|].
    destruct (FindStringSubmatch moonLineRe _) as [|m0 [|m1 [|m2 ms]]];
      cbn [length index] in *.
    3: { eexists. split; [done|]. split; [|done].
         intros moon product. simpl. apply entry_ensureGroup. }
    all: rewrite decide_False by done.
    all: destruct (decide (currentMoon st = "")); [by exists st|].
    all: destruct (FindStringSubmatch productLineRe _)
           as [|p0 [|p1 [|p2 [|p3 [|p4 [|p5 [|p6 [|p7 ps]]]]]]]]; simpl;
           try (by exists st).
    all: by destruct (Hc _ _ eq_refl).
  - intros (product & data & Hclass)%Hrec%Hrow.
    destruct (classify_Row_tokens _ _ _ Hclass)
      as (front & q & a & b & c & d & Htok & ->).
    exists front, q, a, b, c, d, product. split; [done|]. cbn zeta.
    split; [done|]. intros products Hcur Hprod.
    rewrite loopBody_act, Hclass.
    + simpl. rewrite decide_False by done. by rewrite Hprod.
    + intros _. by rewrite Hprod.
Qed.

Lemma loopBody_discards_witness :
  ∃ st', loopBody activeGroup " 0.5 1 2 3 4" = Ok st' ∧
    (∀ moon product,
       entry (result st') moon product = entry (result activeGroup) moon product) ∧
    (isHeader " 0.5 1 2 3 4" = false → st' = activeGroup).
Proof.
  apply (loopBody_discards (lines2 "A - Moon 1" " 0.5 1 2 3 4") activeGroup
           " 0.5 1 2 3 4").
  - vm_compute. right. left.
  - intros (_ & _ & [H|H]); vm_compute in H; lia.
Defined.

(** * Further properties of the watcher *)

(** ** The protocol of the clipboard *)

Lemma protocol_app h l1 l2 :
  protocol h (l1 ++ l2) = protocol h l1 ≫= fun h' => protocol h' l2.
Proof.
  revert h. induction l1 as [|e l1 IH]; intros h; simpl; [done|].
  destruct (protocolStep h e) as [h'|]; simpl; [apply IH|done].
Qed.

Lemma protocol_backoff attempt k :
  protocol nothingHeld (backoff attempt k) = Some nothingHeld.
Proof.
  revert attempt. induction k as [|k IH]; intros attempt; [done|].
  unfold backoff. simpl. apply IH.
Qed.

Lemma failures_stop cb remaining attempt :
  failures cb remaining attempt < remaining →
  openClipboard cb (attempt + failures cb remaining attempt) ≠ 0%Z.
Proof.
  revert attempt. induction remaining as [|r IH]; intros attempt; simpl; [lia|].
  destruct (decide _) as [Hne|Heq]; [by rewrite Nat.add_0_r|].
  intros H. rewrite <- Nat.add_succ_comm. apply IH. lia.
Qed.

Lemma nonzero_decide (z : Z) : z ≠ 0%Z → bool_decide (Some z ≠ Some 0%Z) = true.
Proof. intros H. apply bool_decide_eq_true_2. congruence. Qed.

Lemma protocol_readOpened cb :
  protocol {| clipboardOpen := true; memoryLocked := false |} (readOpened cb).2 =
    Some nothingHeld.
Proof.
  unfold readOpened. cbn zeta. rewrite emit_bind.
  destruct (decide (clipboardData cb = 0%Z)) as [Hd|Hd];
    [by rewrite emit_bind|].
  rewrite emit_bind.
  destruct (decide (globalLock cb = 0%Z)) as [Hl|Hl].
  - rewrite emit_bind. cbn [fst snd]. by rewrite Hl.
  - rewrite !emit_bind. cbn [fst snd]. simpl.
    by rewrite nonzero_decide.
Qed.

Lemma protocol_readClipboardText cb :
  protocol nothingHeld (readClipboardText cb).2 = Some nothingHeld.
Proof.
  rewrite readClipboardText_unfold. cbn zeta.
  destruct (decide (formatAvailable cb = 0%Z)); [done|].
  case_bool_decide as Hk; cbn [fst snd].
  - change (protocol nothingHeld (?e :: ?l)) with (protocol nothingHeld l).
    rewrite protocol_app, protocol_backoff. simpl.
    rewrite nonzero_decide by apply (failures_stop cb maxAttempts 0 Hk).
    apply protocol_readOpened.
  - apply (protocol_backoff 0).
Qed.

Lemma protocol_wndProc (handler : Handler) msg :
  (∀ text h, protocol h (handler text).2 = Some h) →
  protocol nothingHeld (wndProc (Some handler) msg).2 = Some nothingHeld.
Proof.
  intros Hh. destruct (decide (Message msg = WM_CLIPBOARDUPDATE)) as [Hm|Hm].
  - rewrite wndProc_update by done. cbn zeta.
    pose proof (protocol_readClipboardText (answers msg)) as Hr.
    destruct (readClipboardText (answers msg)) as [[[text [err|]]|m] evs];
      cbn [fst snd] in *; [done| |done].
    rewrite protocol_app, Hr. simpl. apply Hh.
  - unfold wndProc. rewrite decide_False by done.
    destruct (decide _); by rewrite emit_bind.
Qed.

Lemma protocol_messageLoop (handler : Handler) script :
  (∀ text h, protocol h (handler text).2 = Some h) →
  protocol nothingHeld (messageLoop (Some handler) script).2 = Some nothingHeld.
Proof.
  intros Hh. induction script as [|[| |msg] script IH]; try done.
  cbn [messageLoop]. rewrite !emit_bind, io_bind_eq. cbn [fst snd].
  change (protocol nothingHeld (?a :: ?b :: ?c :: ?l))
    with (protocol nothingHeld l).
  rewrite protocol_app, protocol_wndProc by done. simpl.
  destruct (wndProc (Some handler) msg).1 as [ret []]; done.
Qed.

Lemma protocol_Watch (handler : Handler) reg script :
  (∀ text h, protocol h (handler text).2 = Some h) →
  protocol nothingHeld (Watch (Some handler) reg script).2 = Some nothingHeld.
Proof.
  intros Hh. unfold Watch.
  destruct (classNameError reg); [done|].
  destruct (moduleHandleError reg); [done|]. cbn zeta.
  rewrite emit_bind. destruct (decide _); [done|].
  rewrite emit_bind. destruct (decide _); [done|].
  rewrite emit_bind. destruct (decide _); [done|].
  cbn [fst snd].
  change (protocol nothingHeld (?a :: ?b :: ?c :: ?l))
    with (protocol nothingHeld l).
  by apply protocol_messageLoop.
Qed.

(** X12: whatever the system answers, the events of [Watch] keep to the
    protocol of the clipboard, and every clipboard update ends with the
    clipboard closed and the memory unlocked, also when the extraction
    fails; the handler is assumed not to use the clipboard itself. *)
Theorem Watch_protocol (handler : Handler) (reg : registration)
    (script : list retrieved) :
  (∀ text h, protocol h (handler text).2 = Some h) →
  protocol nothingHeld (Watch (Some handler) reg script).2 = Some nothingHeld.
Proof. apply protocol_Watch. Qed.

Lemma Watch_protocol_witness :
  protocol nothingHeld
    (Watch (Some logText) okRegistration
       [clipboardUpdate fifthAttempt; clipboardUpdate neverOpens; Quit]).2 =
    Some nothingHeld.
Proof. apply (Watch_protocol logText). intros text h. reflexivity. Defined.

(** ** The time spent waiting *)

Lemma slept_backoff k :
  k ≤ 5 →
  (slept (backoff 0 k) = 10 * (2 ^ Z.of_nat k - 1))%Z.
Proof.
  intros Hk. destruct (backoff_events 0 k) as (_ & Hd & _).
  unfold slept. rewrite Hd.
  destruct k as [|[|[|[|[|[|k]]]]]]; [done..|lia].
Qed.

(** X11: one extraction waits 10 * (2^k - 1) ms, where [k] is the
    number of failed attempts to open the clipboard: at most 150 ms when
    it returns no error (it yields the text or panics in the conversion)
    and at most 310 ms in all; there is one delay for each failed
    attempt, also after the last one. *)
Theorem readClipboardText_slept (cb : clipboard) :
  let events := (readClipboardText cb).2 in
  let k := length (delays events) in
  k ≤ 5 ∧
  slept events = (10 * (2 ^ Z.of_nat k - 1))%Z ∧
  (formatAvailable cb ≠ 0%Z → k = failures cb maxAttempts 0) ∧
  ((∀ text err, (readClipboardText cb).1 ≠ Ok (text, Some err)) →
   k ≤ 4 ∧ (slept events ≤ 150)%Z) ∧
  (slept events ≤ 310)%Z.
Proof.
  cbn zeta. rewrite readClipboardText_unfold. cbn zeta.
  pose proof (failures_le cb maxAttempts 0) as Hk.
  set (k := failures cb maxAttempts 0) in *. unfold maxAttempts in *.
  destruct (decide (formatAvailable cb = 0%Z)).
  { cbn. repeat split; try done; lia. }
  destruct (readOpened_events cb) as (_ & Hd & _).
  destruct (backoff_events 0 k) as (_ & Bd & _).
  assert (∀ l, delays l = delays (backoff 0 k) → length (delays l) = k) as Hlen.
  { intros l ->. by rewrite Bd, length_map, length_seq. }
  assert (∀ l, delays l = delays (backoff 0 k) →
               slept l = (10 * (2 ^ Z.of_nat k - 1))%Z) as Hsl.
  { intros l Hl. unfold slept. rewrite Hl. by apply slept_backoff. }
  assert (∀ j, j ≤ 5 → (10 * (2 ^ Z.of_nat j - 1) ≤ 310)%Z) as Hbound.
  { intros j Hj. destruct j as [|[|[|[|[|[|j]]]]]]; [done..|lia]. }
  case_bool_decide as Hlt; cbn [fst snd].
  - set (evs := _ :: _ ++ _ :: _).
    assert (delays evs = delays (backoff 0 k)) as He.
    { unfold evs. change (delays (?e :: ?l)) with (delays l).
      rewrite delays_app. change (delays (?e :: ?l)) with (delays l).
      by rewrite Hd, app_nil_r. }
    rewrite (Hlen _ He), (Hsl _ He).
    split; [lia|]. split; [done|]. split; [done|]. split; [|by apply Hbound].
    intros _. split; [lia|].
    destruct k as [|[|[|[|[|k]]]]]; [done..|lia].
  - set (evs := _ :: _).
    assert (delays evs = delays (backoff 0 k)) as He by done.
    rewrite (Hlen _ He), (Hsl _ He).
    split; [lia|]. split; [done|]. split; [done|].
    split; [intros H; by destruct (H _ _ eq_refl)|].
    by apply Hbound.
Qed.

(** ** The text of the clipboard *)

Lemma untilNUL_app u v n :
  0%Z ∉ u → (n + N.of_nat (length u) < arrayLen)%N →
  untilNUL (u ++ 0%Z :: v) n = Ok u.
Proof.
  revert n. induction u as [|x u IH]; intros n; simpl.
  - intros _ Hn. by destruct (N.leb_spec arrayLen n); [lia|].
  - intros [Hx Hu]%not_elem_of_cons Hn.
    destruct (N.leb_spec arrayLen n); [lia|].
    destruct (decide (x = 0%Z)); [done|].
    rewrite IH; [done|done|lia].
Qed.

Lemma untilNUL_terminator u v w n :
  untilNUL (u ++ 0%Z :: v) n = untilNUL (u ++ 0%Z :: w) n.
Proof.
  revert n. induction u as [|x u IH]; intros n; simpl.
  - done.
  - destruct (arrayLen <=? n)%N; [done|].
    destruct (decide (x = 0%Z)); [done|]. by rewrite IH.
Qed.

Lemma Decode_ascii u :
  Forall (fun x => 0 < x < 128)%Z u → utf16.Decode u = u.
Proof.
  induction 1 as [|x u Hx _ IH]; simpl; [done|].
  unfold utf16.surr1, utf16.surr3.
  destruct (Z.ltb_spec x 0xd800); [|lia]. simpl. by rewrite IH.
Qed.

Lemma EncodeRune_ascii x : (0 < x < 128)%Z → utf8.EncodeRune x = [utf8.byte x].
Proof.
  intros Hx. unfold utf8.EncodeRune.
  destruct (Z.ltb_spec x 0); [lia|].
  destruct (Z.ltb_spec 0x10FFFF x); [lia|].
  destruct (Z.leb_spec 0xD800 x); [lia|]. simpl.
  destruct (Z.ltb_spec x 0x80); [done|lia].
Qed.

(** X9: a clipboard text of ASCII characters, shorter than the array, is
    returned byte for byte, up to the first zero unit; what follows the
    zero is not read. *)
Theorem utf16PtrToString_ascii (u v : list Z) :
  Forall (fun x => 0 < x < 128)%Z u →
  (N.of_nat (length u) < arrayLen)%N →
  utf16PtrToString (Some (u ++ 0%Z :: v)) = Ok (stringOf (map utf8.byte u)).
Proof.
  intros Hu Hlen. unfold utf16PtrToString, stringOfRunes.
  rewrite untilNUL_app.
  - cbn [mbind outcome_bind]. rewrite Decode_ascii by done. do 2 f_equal.
    clear Hlen. induction Hu as [|x u Hx _ IH]; simpl; [done|].
    by rewrite EncodeRune_ascii, IH.
  - intros Hin. rewrite Forall_forall in Hu. apply Hu in Hin. lia.
  - by rewrite N.add_0_l.
Qed.

Lemma utf16PtrToString_ascii_witness :
  utf16PtrToString (Some ([77; 111; 111; 110] ++ 0 :: [33; 33])%Z) =
    Ok (stringOf (map utf8.byte [77; 111; 111; 110]%Z)).
Proof.
  apply utf16PtrToString_ascii; [repeat constructor; lia|].
  vm_compute. reflexivity.
Defined.

(** X10: the conversion reads the memory up to its first zero unit only:
    two blocks of memory that agree up to a zero unit give the same
    result, whatever follows the zero. The result is a text unless the
    block begins with as many units without a zero as the array has
    elements; then, and only then, the conversion panics on the index
    beyond the array. *)
Theorem utf16PtrToString_terminator (u v w : list Z) :
  utf16PtrToString (Some (u ++ 0%Z :: v)) =
    utf16PtrToString (Some (u ++ 0%Z :: w)) ∧
  (utf16PtrToString (Some u) = Panic "index out of range" ↔ unterminated u) ∧
  ((∃ text, utf16PtrToString (Some u) = Ok text) ↔ ¬ unterminated u).
Proof.
  split; [|split].
  - unfold utf16PtrToString. by rewrite (untilNUL_terminator u v w).
  - rewrite utf16PtrToString_panic. by intuition.
  - split.
    + intros [text Htext] Hlong.
      assert (utf16PtrToString (Some u) = Panic "index out of range") as H
        by by apply utf16PtrToString_panic.
      congruence.
    + intros Hshort. destruct (utf16PtrToString_cases u) as [H|[_ H]]; done.
Qed.

(** ** The message loop *)

Lemma messageLoop_invoked (handler : Handler) (script : list retrieved) :
  (∀ text, (handler text).1 = Returned ∧ invoked (handler text).2 = []) →
  invoked (messageLoop (Some handler) script).2 = delivered script ∧
  (messageLoop (Some handler) script).1 = scriptEnd script.
Proof.
  intros Hh. induction script as [|[| |msg] script [IH1 IH2]]; try done.
  cbn [messageLoop delivered scriptEnd]. rewrite !emit_bind, io_bind_eq.
  cbn [fst snd]. change (invoked (?a :: ?b :: ?c :: ?l)) with (invoked l).
  rewrite invoked_app.
  destruct (decide (Message msg = WM_CLIPBOARDUPDATE)) as [Hm|Hm].
  - rewrite wndProc_update by done. cbn zeta.
    destruct (readClipboardText_events (answers msg)) as (_ & _ & Hi).
    destruct (readClipboardText (answers msg)) as [[[text [err|]]|m] evs];
      cbn [fst snd] in *.
    + by rewrite Hi, IH1, IH2.
    + destruct (Hh text) as [-> Hht]. cbn [fst snd].
      rewrite invoked_app, Hi. simpl. change (omap _ ?l) with (invoked l).
      by rewrite Hht, IH1, IH2.
    + by rewrite Hi.
  - unfold wndProc. rewrite decide_False by done.
    destruct (decide _); rewrite emit_bind; cbn [fst snd mret io_ret];
      by rewrite IH1, IH2.
Qed.

Lemma registered (reg : registration) :
  ¬ registrationFails reg →
  classNameError reg = None ∧ moduleHandleError reg = None ∧
  registerClassEx reg ≠ 0%Z ∧ createWindowEx reg ≠ 0%Z ∧
  addClipboardFormatListener reg ≠ 0%Z.
Proof.
  unfold registrationFails. intros H.
  destruct (classNameError reg); [exfalso; apply H; by left|].
  destruct (moduleHandleError reg); [exfalso; apply H; right; by left|].
  repeat split; intros ?; apply H; tauto.
Qed.

Lemma Watch_invoked (handler : Handler) reg script :
  ¬ registrationFails reg →
  (∀ text, (handler text).1 = Returned ∧ invoked (handler text).2 = []) →
  invoked (Watch (Some handler) reg script).2 = delivered script ∧
  (Watch (Some handler) reg script).1 = scriptEnd script.
Proof.
  intros (H1 & H2 & H3 & H4 & H5)%registered Hh.
  rewrite Watch_registered by done. cbn [fst snd].
  rewrite invoked_app. by apply messageLoop_invoked.
Qed.

(** X13: once the window is registered, and with a handler that always
    returns, the handler is invoked once for every clipboard update
    whose extraction succeeds, in the order of the messages and with the
    extracted text, and for nothing else; [Watch] ends as the script
    does: at the first WM_QUIT with a nil error, at the first error of
    [GetMessageW] with that error, and at the first clipboard update
    whose extraction panics with the end of the process, the handler not
    being invoked for it. *)
Theorem Watch_delivers (handler : Handler) (reg : registration)
    (script : list retrieved) :
  ¬ registrationFails reg →
  (∀ text, (handler text).1 = Returned ∧ invoked (handler text).2 = []) →
  invoked (Watch (Some handler) reg script).2 = delivered script ∧
  (Watch (Some handler) reg script).1 = scriptEnd script.
Proof. apply Watch_invoked. Qed.

Lemma Watch_delivers_witness :
  invoked (Watch (Some logText) okRegistration
             [clipboardUpdate fifthAttempt; clipboardUpdate neverOpens;
              clipboardUpdate fifthAttempt; Quit;
              clipboardUpdate fifthAttempt]).2 =
    delivered [clipboardUpdate fifthAttempt; clipboardUpdate neverOpens;
               clipboardUpdate fifthAttempt; Quit;
               clipboardUpdate fifthAttempt] ∧
  (Watch (Some logText) okRegistration
     [clipboardUpdate fifthAttempt; clipboardUpdate neverOpens;
      clipboardUpdate fifthAttempt; Quit; clipboardUpdate fifthAttempt]).1 =
    scriptEnd [clipboardUpdate fifthAttempt; clipboardUpdate neverOpens;
               clipboardUpdate fifthAttempt; Quit;
               clipboardUpdate fifthAttempt].
Proof.
  apply (Watch_delivers logText).
  - unfold registrationFails. simpl. intros [H|[H|[H|[H|H]]]]; try done.
  - intros text. split; reflexivity.
Defined.

Lemma messageLoop_stops (handler : option Handler)
    (before after : list retrieved) (final : retrieved) :
  final = Quit ∨ final = GetMessageError →
  messageLoop handler (before ++ final :: after) =
    messageLoop handler (before ++ [final]).
Proof.
  intros Hlast.
  induction before as [|[| |msg] before IH]; cbn [app messageLoop]; try done.
  - by destruct Hlast as [-> | ->].
  - rewrite !emit_bind, !io_bind_eq. cbn [fst snd].
    destruct (wndProc handler msg).1 as [ret []]; by rewrite ?IH.
Qed.

(** X14: nothing is retrieved after WM_QUIT or after an error of
    [GetMessageW]: what follows in the script changes neither the result
    nor the events of [Watch], whatever the handler does. *)
Theorem Watch_stops (handler : option Handler) (reg : registration)
    (before after : list retrieved) (final : retrieved) :
  final = Quit ∨ final = GetMessageError →
  Watch handler reg (before ++ final :: after) =
    Watch handler reg (before ++ [final]).
Proof.
  intros Hlast. unfold Watch. destruct handler as [h|]; [|done].
  destruct (classNameError reg); [done|].
  destruct (moduleHandleError reg); [done|]. cbn zeta.
  rewrite !emit_bind.
  destruct (decide (registerClassEx reg = 0%Z)); [done|].
  destruct (decide (createWindowEx reg = 0%Z)); [done|].
  destruct (decide (addClipboardFormatListener reg = 0%Z)); [done|].
  by rewrite messageLoop_stops.
Qed.

Lemma Watch_stops_witness :
  Watch (Some logText) okRegistration
    ([clipboardUpdate fifthAttempt] ++ Quit :: [clipboardUpdate fifthAttempt]) =
  Watch (Some logText) okRegistration ([clipboardUpdate fifthAttempt] ++ [Quit]).
Proof. apply Watch_stops. left. reflexivity. Defined.

(** ** Registration *)

Lemma registrationFails_dec reg : registrationFails reg ∨ ¬ registrationFails reg.
Proof.
  unfold registrationFails.
  destruct (classNameError reg); [by left; left|].
  destruct (moduleHandleError reg); [by left; right; left|].
  destruct (decide (registerClassEx reg = 0%Z)); [tauto|].
  destruct (decide (createWindowEx reg = 0%Z)); [tauto|].
  destruct (decide (addClipboardFormatListener reg = 0%Z)); [tauto|].
  right. intros [?|[?|[?|[?|?]]]]; done.
Qed.

Lemma Watch_fails (handler : Handler) reg script :
  registrationFails reg →
  ∃ err events,
    Watch (Some handler) reg script = (WatchReturns (Some err), events) ∧
    forallb isSystem events = true ∧ invoked events = [] ∧
    retrievals events = 0 ∧ length events ≤ 3.
Proof.
  intros H. unfold Watch.
  destruct (classNameError reg) as [e|] eqn:E1;
    [eexists _, []; repeat split; simpl; lia|].
  destruct (moduleHandleError reg) as [e|] eqn:E2;
    [eexists _, []; repeat split; simpl; lia|].
  cbn zeta. rewrite !emit_bind.
  destruct (decide (registerClassEx reg = 0%Z)) as [|H3];
    [eexists _, _; split; [reflexivity|]; repeat split; simpl; lia|].
  destruct (decide (createWindowEx reg = 0%Z)) as [|H4];
    [eexists _, _; split; [reflexivity|]; repeat split; simpl; lia|].
  destruct (decide (addClipboardFormatListener reg = 0%Z)) as [|H5];
    [eexists _, _; split; [reflexivity|]; repeat split; simpl; lia|].
  by destruct H as [?|[?|[?|[?|?]]]].
Qed.

(** X15: when the handler is nil or a step of the registration fails,
    [Watch] returns an error without retrieving a message: the script is
    not looked at, the handler is never invoked, and the events are the
    registration calls made so far. *)
Theorem Watch_registration_fails (handler : option Handler)
    (reg : registration) (script : list retrieved) :
  handler = None ∨ registrationFails reg →
  ∃ err, (Watch handler reg script).1 = WatchReturns (Some err) ∧
    retrievals (Watch handler reg script).2 = 0 ∧
    invoked (Watch handler reg script).2 = [] ∧
    length (Watch handler reg script).2 ≤ 3.
Proof.
  intros H. destruct handler as [h|].
  - destruct H as [|H]; [done|].
    destruct (Watch_fails h reg script H) as (err & events & -> & _ & ? & ? & ?).
    by exists err.
  - eexists. repeat split. simpl. lia.
Qed.

Lemma Watch_registration_fails_witness :
  ∃ err,
    (Watch (Some logText)
       {| classNameError := None; moduleHandleError := None;
          registerClassEx := 1; createWindowEx := 0;
          addClipboardFormatListener := 1 |}
       [clipboardUpdate fifthAttempt]).1 = WatchReturns (Some err) ∧
    retrievals (Watch (Some logText)
       {| classNameError := None; moduleHandleError := None;
          registerClassEx := 1; createWindowEx := 0;
          addClipboardFormatListener := 1 |}
       [clipboardUpdate fifthAttempt]).2 = 0 ∧
    invoked (Watch (Some logText)
       {| classNameError := None; moduleHandleError := None;
          registerClassEx := 1; createWindowEx := 0;
          addClipboardFormatListener := 1 |}
       [clipboardUpdate fifthAttempt]).2 = [] ∧
    length (Watch (Some logText)
       {| classNameError := None; moduleHandleError := None;
          registerClassEx := 1; createWindowEx := 0;
          addClipboardFormatListener := 1 |}
       [clipboardUpdate fifthAttempt]).2 ≤ 3.
Proof.
  apply Watch_registration_fails. right. unfold registrationFails. simpl.
  right. right. right. left. reflexivity.
Defined.

(** * Further properties of the handler *)

(** ** The events of the handler *)

Lemma tidy_ret : tidy (mret Returned).
Proof. split; [done|]. split; [done|]. simpl. lia. Qed.

Lemma tidy_emit e k :
  isReport e = true → requests [e] = [] → tidy k → tidy (emit e;; k).
Proof.
  intros He Hr (Hk1 & Hk2 & Hk3). rewrite emit_bind. split; [done|].
  cbn [snd]. split; [simpl; by rewrite He|].
  change (e :: k.2) with ([e] ++ k.2). unfold requests in *.
  by rewrite omap_app, Hr.
Qed.

Lemma tidy_send env req : tidy (send env req).
Proof.
  destruct (send_unfold env req) as (report & -> & _).
  split; [done|]. split; [done|]. simpl. lia.
Qed.

Lemma MainGo_tidy env opts text : tidy (MainGo.handler env opts text).
Proof.
  unfold MainGo.handler. apply tidy_emit; [done|done|].
  destruct (looksLikeMoonScan text); [|apply tidy_ret].
  apply tidy_emit; [done|done|]. rewrite ParseMoons_act.
  destruct (jsonMarshal env _) as [payload [jsErr|]];
    [apply tidy_emit; [done|done|apply tidy_ret]|].
  do 2 (apply tidy_emit; [done|done|]).
  destruct (_ && _); [|apply tidy_ret].
  apply tidy_emit; [done|done|]. unfold NewRequest.
  destruct (urlParses env _);
    [apply tidy_send | apply tidy_emit; [done|done|apply tidy_ret]].
Qed.

Lemma Part000_tidy env opts text : tidy (Part000.handler env opts text).
Proof.
  unfold Part000.handler. apply tidy_emit; [done|done|].
  destruct (looksLikeMoonScan text); [|apply tidy_ret].
  apply tidy_emit; [done|done|]. rewrite ParseMoons_act.
  destruct (jsonMarshal env _) as [payload [jsErr|]];
    [apply tidy_emit; [done|done|apply tidy_ret]|].
  do 2 (apply tidy_emit; [done|done|]).
  destruct (bool_decide (APIEndpoint opts ≠ "")); [|apply tidy_ret].
  apply tidy_emit; [done|done|]. unfold NewRequest.
  destruct (urlParses env _);
    [apply tidy_send | apply tidy_emit; [done|done|apply tidy_ret]].
Qed.

Lemma reports_invoked events :
  forallb isReport events = true → invoked events = [].
Proof.
  induction events as [|e events IH]; [done|]. simpl.
  intros [He Hev]%andb_prop. unfold invoked in *. simpl.
  rewrite IH by done. by destruct e.
Qed.

Lemma reports_fatal events :
  forallb isReport events = true → fatal events = [].
Proof.
  induction events as [|e events IH]; [done|]. simpl.
  intros [He Hev]%andb_prop. unfold fatal in *. simpl.
  rewrite IH by done. by destruct e.
Qed.

Lemma reports_protocol events h :
  forallb isReport events = true → protocol h events = Some h.
Proof.
  induction events as [|e events IH]; [done|]. simpl.
  intros [He Hev]%andb_prop. destruct e; try done; simpl; by apply IH.
Qed.

(** ** Texts without the marker *)

(** X16: the handler does nothing but log the change exactly when the
    text does not contain "Moon Product", in both revisions. *)
Theorem handler_ignores (env : collaborators) (opts : Options) (text : string) :
  (MainGo.handler env opts text = (Returned, [Log "Clipboard changed"]) ↔
   Strings.Contains text "Moon Product" = false) ∧
  (Part000.handler env opts text = (Returned, [Log "Clipboard changed"]) ↔
   Strings.Contains text "Moon Product" = false).
Proof.
  rewrite <- looksLikeMoonScan_marker.
  unfold MainGo.handler, Part000.handler. rewrite !emit_bind.
  destruct (looksLikeMoonScan text); [|done]. cbn [fst snd].
  split; (split; [|done]); intros H; by injection H.
Qed.

(** ** The request *)

Lemma requests_send env req : requests (send env req).2 = [req].
Proof. by destruct (send_unfold env req) as (report & -> & _). Qed.

(** X17: in cmd/goosniffer/main.go one clipboard text leads to at most
    one request: a POST of the marshalled table to the endpoint, with the
    content type and the bearer token, sent exactly when the text holds
    the marker, the table can be marshalled, the token and the endpoint
    are set and the endpoint parses as a URL. *)
Theorem MainGo_requests (env : collaborators) (opts : Options) (text : string) :
  ∃ table,
    ParseMoons text = Ok (table, None) ∧
    requests (MainGo.handler env opts text).2 =
      if Strings.Contains text "Moon Product" &&
         bool_decide ((jsonMarshal env table).2 = None) &&
         bool_decide (APIToken opts ≠ "") &&
         bool_decide (APIEndpoint opts ≠ "") &&
         urlParses env (APIEndpoint opts)
      then [postRequest opts (jsonMarshal env table).1 true]
      else [].
Proof.
  rewrite ParseMoons_act. eexists. split; [done|].
  rewrite <- looksLikeMoonScan_marker. unfold MainGo.handler.
  rewrite emit_bind. cbn [snd]. change (requests (?e :: ?l)) with (requests l).
  destruct (looksLikeMoonScan text); [|done]. cbn [andb].
  rewrite emit_bind. cbn [snd]. change (requests (?e :: ?l)) with (requests l).
  rewrite ParseMoons_act.
  destruct (jsonMarshal env _) as [payload [jsErr|]];
    [by rewrite emit_bind, bool_decide_eq_false_2|].
  rewrite !emit_bind. cbn [fst snd]. rewrite (bool_decide_eq_true_2 (@None string = None)) by done.
  cbn [andb]. change (requests (?a :: ?b :: ?l)) with (requests l).
  destruct (bool_decide (APIToken opts ≠ "")); [|done].
  destruct (bool_decide (APIEndpoint opts ≠ "")); [|done]. cbn [andb snd].
  change (requests (?e :: ?l)) with (requests l).
  unfold NewRequest. destruct (urlParses env _); [|done].
  by rewrite requests_send.
Qed.

(** X18: in the other revision one clipboard text leads to at most one
    request as well, and the token is not needed for it: it only decides
    whether the Authorization header is set. *)
Theorem Part000_requests (env : collaborators) (opts : Options) (text : string) :
  ∃ table,
    ParseMoons text = Ok (table, None) ∧
    requests (Part000.handler env opts text).2 =
      if Strings.Contains text "Moon Product" &&
         bool_decide ((jsonMarshal env table).2 = None) &&
         bool_decide (APIEndpoint opts ≠ "") &&
         urlParses env (APIEndpoint opts)
      then [postRequest opts (jsonMarshal env table).1
              (bool_decide (APIToken opts ≠ ""))]
      else [].
Proof.
  rewrite ParseMoons_act. eexists. split; [done|].
  rewrite <- looksLikeMoonScan_marker. unfold Part000.handler.
  rewrite emit_bind. cbn [snd]. change (requests (?e :: ?l)) with (requests l).
  destruct (looksLikeMoonScan text); [|done]. cbn [andb].
  rewrite emit_bind. cbn [snd]. change (requests (?e :: ?l)) with (requests l).
  rewrite ParseMoons_act.
  destruct (jsonMarshal env _) as [payload [jsErr|]];
    [by rewrite emit_bind, bool_decide_eq_false_2|].
  rewrite !emit_bind. cbn [fst snd]. rewrite (bool_decide_eq_true_2 (@None string = None)) by done.
  cbn [andb]. change (requests (?a :: ?b :: ?l)) with (requests l).
  destruct (bool_decide (APIEndpoint opts ≠ "")); [|done]. cbn [andb snd].
  change (requests (?e :: ?l)) with (requests l).
  unfold NewRequest. destruct (urlParses env _); [|done].
  rewrite requests_send. by destruct (bool_decide (APIToken opts ≠ "")).
Qed.

(** ** The program *)

Lemma system_backoff attempt k : forallb isSystem (backoff attempt k) = true.
Proof.
  revert attempt. induction k as [|k IH]; intros attempt; [done|].
  unfold backoff. simpl. apply IH.
Qed.

Lemma system_readClipboardText cb :
  forallb isSystem (readClipboardText cb).2 = true.
Proof.
  rewrite readClipboardText_unfold. cbn zeta.
  destruct (decide (formatAvailable cb = 0%Z)); [done|].
  case_bool_decide; cbn [fst snd forallb isSystem andb].
  - rewrite forallb_app, system_backoff. cbn [forallb isSystem andb].
    unfold readOpened. cbn zeta. rewrite emit_bind.
    destruct (decide (clipboardData cb = 0%Z)); [by rewrite emit_bind|].
    rewrite emit_bind.
    destruct (decide (globalLock cb = 0%Z)); by rewrite !emit_bind.
  - apply system_backoff.
Qed.

Lemma system_fatal events : forallb isSystem events = true → fatal events = [].
Proof.
  induction events as [|e events IH]; [done|]. simpl.
  intros [He Hev]%andb_prop. unfold fatal in *. simpl.
  rewrite IH by done. by destruct e.
Qed.

Lemma system_requests events :
  forallb isSystem events = true → requests events = [].
Proof.
  induction events as [|e events IH]; [done|]. simpl.
  intros [He Hev]%andb_prop. unfold requests in *. simpl.
  rewrite IH by done. by destruct e.
Qed.

Lemma fatal_app l1 l2 : fatal (l1 ++ l2) = fatal l1 ++ fatal l2.
Proof. apply omap_app. Qed.

Lemma requests_app l1 l2 : requests (l1 ++ l2) = requests l1 ++ requests l2.
Proof. apply omap_app. Qed.

Lemma messageLoop_tidy (handler : Handler) script :
  (∀ text, tidy (handler text)) →
  fatal (messageLoop (Some handler) script).2 = [] ∧
  length (requests (messageLoop (Some handler) script).2) ≤
    length (invoked (messageLoop (Some handler) script).2).
Proof.
  intros Hh. induction script as [|[| |msg] script [IH1 IH2]];
    try (split; [done|simpl; lia]).
  cbn [messageLoop]. rewrite !emit_bind, io_bind_eq. cbn [fst snd].
  change (fatal (?a :: ?b :: ?c :: ?l)) with (fatal l).
  change (requests (?a :: ?b :: ?c :: ?l)) with (requests l).
  change (invoked (?a :: ?b :: ?c :: ?l)) with (invoked l).
  rewrite fatal_app, requests_app, invoked_app, !length_app.
  destruct (decide (Message msg = WM_CLIPBOARDUPDATE)) as [Hm|Hm].
  - rewrite wndProc_update by done. cbn zeta.
    pose proof (system_readClipboardText (answers msg)) as Hs.
    destruct (readClipboardText (answers msg)) as [[[text [err|]]|m] evs];
      cbn [fst snd] in *.
    + rewrite system_fatal, system_requests by done. simpl.
      split; [done|lia].
    + destruct (Hh text) as (Hr & Hrep & Hreq). rewrite Hr. cbn [fst snd].
      rewrite fatal_app, requests_app, invoked_app, !length_app.
      rewrite system_fatal, system_requests by done.
      change (fatal (?a :: ?l)) with (fatal l).
      change (requests (?a :: ?l)) with (requests l).
      change (invoked (Invoke ?t :: ?l)) with (t :: invoked l).
      rewrite reports_fatal by done. simpl. split; [done|lia].
    + rewrite system_fatal, system_requests by done. simpl.
      split; [done|lia].
  - unfold wndProc. rewrite decide_False by done.
    destruct (decide _); rewrite emit_bind; cbn [fst snd mret io_ret];
      (split; [done|simpl; lia]).
Qed.

Lemma Watch_tidy (handler : Handler) reg script :
  (∀ text, tidy (handler text)) → orderly handler reg script.
Proof.
  intros Hh. unfold orderly. cbn zeta.
  assert (∀ text, (handler text).1 = Returned ∧ invoked (handler text).2 = [])
    as Hinv.
  { intros text. destruct (Hh text) as (? & ? & _).
    split; [done|by apply reports_invoked]. }
  assert (protocol nothingHeld (Watch (Some handler) reg script).2 =
            Some nothingHeld) as Hprot.
  { apply protocol_Watch. intros text h. apply reports_protocol, Hh. }
  destruct (registrationFails_dec reg) as [Hf|Hok].
  - destruct (Watch_fails handler reg script Hf)
      as (err & events & HW & Hsys & Hi & _ & _).
    rewrite HW in *. cbn [fst snd] in *.
    rewrite system_fatal, system_requests, Hi by done.
    split; [done|]. split; [done|]. split; [done|]. split; [|done].
    split; [done|]. by intros [? _].
  - destruct (Watch_invoked handler reg script Hok Hinv) as [Hi He].
    pose proof Hok as (H1 & H2 & H3 & H4 & H5)%registered.
    destruct (messageLoop_tidy handler script Hh) as [Hfat Hreq].
    rewrite Watch_registered in * by done. cbn [fst snd] in *.
    change (fatal (?l1 ++ ?l2)) with (fatal l2).
    change (requests (?l1 ++ ?l2)) with (requests l2).
    change (invoked (?l1 ++ ?l2)) with (invoked l2).
    split; [done|]. split; [done|]. split; [done|]. split; [|done].
    rewrite He. split; [done|]. by intros [_ ?].
Qed.

(** X19: the program as cmd/goosniffer runs it, [Watch] with the handler
    of main.go (and likewise with the handler of the other revision),
    whatever the system answers and the clipboard holds: nothing fatal is
    logged, the clipboard is released after every update, there is at
    most one request for each text handed to the handler, the process is
    ended inside the window procedure exactly when the window is
    registered and the extraction of a clipboard update that the loop
    reaches panics (never from inside the handler), and once the window
    is registered the handler gets exactly the delivered texts and
    [Watch] ends as the script does. *)
Theorem goosniffer_orderly (env : collaborators) (opts : Options)
    (reg : registration) (script : list retrieved) :
  orderly (MainGo.handler env opts) reg script ∧
  orderly (Part000.handler env opts) reg script.
Proof.
  split; apply Watch_tidy; intros text;
    [apply MainGo_tidy | apply Part000_tidy].
Qed.

(** ** The main function *)

Lemma scriptEnd_cases script :
  scriptEnd script = Waiting ∨ scriptEnd script = WatchReturns None ∨
  scriptEnd script = WatchReturns (Some "GetMessageW error") ∨
  scriptEnd script = ProcessExits.
Proof.
  induction script as [|[| |msg] script IH]; simpl; [tauto..|].
  destruct (decide _); [|done]. destruct (readClipboardText _).1; tauto.
Qed.

(** X22: [main] exits with a fatal log exactly when the flags cannot be
    parsed, a step of the registration fails or [GetMessageW] fails; it
    returns exactly on a request for help or on WM_QUIT; the process dies
    inside the window procedure exactly when the watcher runs, the window
    is registered and the extraction of a clipboard update that the loop
    reaches panics; otherwise it goes on watching. A fatal log is the
    last event and there is at most one; without parsed flags the watcher
    is not started. *)
Theorem main_ends (env : collaborators) (flags : flagsResult)
    (reg : registration) (script : list retrieved) :
  let run := main env flags reg script in
  let watching := ∃ opts, flags = Parsed opts in
  (run.1 = MainExits ↔
     flags = FlagsError ∨
     watching ∧ (registrationFails reg ∨
                 scriptEnd script = WatchReturns (Some "GetMessageW error"))) ∧
  (run.1 = MainReturns ↔
     flags = HelpRequested ∨
     watching ∧ ¬ registrationFails reg ∧ scriptEnd script = WatchReturns None) ∧
  (run.1 = MainDies ↔
     watching ∧ ¬ registrationFails reg ∧ scriptEnd script = ProcessExits) ∧
  (run.1 = StillWatching ↔
     watching ∧ ¬ registrationFails reg ∧ scriptEnd script = Waiting) ∧
  (run.1 = MainExits ↔ ∃ before text, run.2 = before ++ [Fatalf text]) ∧
  length (fatal run.2) ≤ 1 ∧
  (¬ watching → retrievals run.2 = 0 ∧ invoked run.2 = []).
Proof.
  cbn zeta. destruct flags as [opts| |]; cbn [main].
  - rewrite emit_bind, io_bind_eq. cbn [fst snd].
    destruct (Watch_tidy (MainGo.handler env opts) reg script (MainGo_tidy env opts))
      as (Hfat & _ & _ & _ & Hok).
    assert (∃ o, Parsed opts = Parsed o) as Hw by by eexists.
    destruct (registrationFails_dec reg) as [Hf|Hreg].
    + destruct (Watch_fails (MainGo.handler env opts) reg script Hf)
        as (err & events & HW & _).
      rewrite HW in *. cbn [fst snd] in *. rewrite emit_bind. cbn [fst snd].
      split; [split; [intros _; right; split; [done|by left]|done]|].
      split; [split; [done|intros [|(_ & ? & _)]; done]|].
      split; [split; [done|intros (_ & ? & _); done]|].
      split; [split; [done|intros (_ & ? & _); done]|].
      split; [split; [intros _|done]|].
      { exists (Log "Listening for clipboard text. Press Ctrl+C to exit." :: events),
          err. done. }
      split; [|intros []; done].
      change (fatal (Log ?e :: ?l)) with (fatal l).
      rewrite fatal_app, Hfat. simpl. lia.
    + destruct (Hok Hreg) as [Hend _]. rewrite Hend in *.
      assert (∀ l : list event, fatal l = [] → ∀ before text,
                Log "Listening for clipboard text. Press Ctrl+C to exit." :: l ++ [] ≠
                  before ++ [Fatalf text]) as Hno.
      { intros l Hl before text Heq.
        assert (fatal (Log "Listening for clipboard text. Press Ctrl+C to exit."
                         :: l ++ []) = fatal (before ++ [Fatalf text])) as H
          by by rewrite Heq.
        change (fatal (Log ?e :: ?l)) with (fatal l) in H.
        rewrite !fatal_app, Hl in H. simpl in H. by destruct (fatal before). }
      assert (length (fatal (Log "Listening for clipboard text. Press Ctrl+C to exit."
                               :: (Watch (Some (MainGo.handler env opts)) reg script).2
                               ++ [])) ≤ 1) as Hone.
      { change (fatal (Log ?e :: ?l)) with (fatal l).
        rewrite fatal_app, Hfat. simpl. lia. }
      destruct (scriptEnd_cases script) as [E|[E|[E|E]]]; rewrite E;
        cbn [fst snd mret io_ret]; rewrite ?emit_bind; cbn [fst snd].
      * split; [split; [done|intros [|(_ & [|])]; done]|].
        split; [split; [done|intros [|(_ & _ & ?)]; done]|].
        split; [split; [done|intros (_ & _ & ?); done]|].
        split; [done|].
        split; [split; [done|intros (before & text & H); by apply Hno in H]|].
        split; [done|]. by intros [].
      * split; [split; [done|intros [|(_ & [|])]; done]|].
        split; [split; [intros _; by right|done]|].
        split; [split; [done|intros (_ & _ & ?); done]|].
        split; [split; [done|intros (_ & _ & ?); done]|].
        split; [split; [done|intros (before & text & H); by apply Hno in H]|].
        split; [done|]. by intros [].
      * split; [split; [intros _; right; split; [done|by right]|done]|].
        split; [split; [done|intros [|(_ & _ & ?)]; done]|].
        split; [split; [done|intros (_ & _ & ?); done]|].
        split; [split; [done|intros (_ & _ & ?); done]|].
        split; [split; [intros _|done]|].
        { eexists (Log _ :: _), _. done. }
        split; [|by intros []].
        change (fatal (Log ?e :: ?l)) with (fatal l).
        rewrite fatal_app, Hfat. simpl. lia.
      * split; [split; [done|intros [|(_ & [|])]; done]|].
        split; [split; [done|intros [|(_ & _ & ?)]; done]|].
        split; [done|].
        split; [split; [done|intros (_ & _ & ?); done]|].
        split; [split; [done|intros (before & text & H); by apply Hno in H]|].
        split; [done|]. by intros [].
  - cbn. split; [split; [done|intros [|[[? ?] _]]; done]|].
    split; [split; [by left|done]|].
    split; [split; [done|intros [[? ?] _]; done]|].
    split; [split; [done|intros [[? ?] _]; done]|].
    split; [split; [done|intros (before & text & H); by destruct before]|].
    split; [lia|done].
  - rewrite emit_bind. cbn.
    split; [split; [by left|done]|].
    split; [split; [done|intros [|[[? ?] _]]; done]|].
    split; [split; [done|intros [[? ?] _]; done]|].
    split; [split; [done|intros [[? ?] _]; done]|].
    split; [split; [intros _; by exists [], "failed to parse flags: %v"|done]|].
    split; [lia|done].
Qed.
